(** * resource_alert: a shallow embedding of [main.cpp]

    The daemon samples memory ([free -L]) and CPU ([sar]) once per cycle,
    parses the text the tools print, compares the percentages with the
    configured thresholds and, on a breach, saves process reports and runs a
    throttled notification script.

    Conventions of the embedding.
    - [size_t] and [long] are the 64-bit types of the LP64 Linux targets the
      tool is written for ([free], [sar], [popen]); [int] is 32 bits.  A
      machine integer is a [Z] whose wrap-around is written out.
    - [float] is IEEE-754 binary32 and [double] binary64, both taken from the
      executable specification [SpecFloat] of the Standard Library.
    - The outside world (pipes, files, the clock, the notification script) is
      an oracle inside the [World] record; every external call consumes one
      tick of the oracle and appends one event to the trace.
    - An uncaught C++ exception is the outcome [Threw]; nothing in [main.cpp]
      catches, so such an outcome ends the process.  The one call with
      undefined behaviour the program can reach, [fputs] on a null [FILE*],
      is taken for a crash and ends the process in the same way. *)

From Stdlib Require Import ZArith Lia List Bool Ascii String.
From Stdlib Require Import Floats.SpecFloat.
Import ListNotations.

Local Open Scope string_scope.
Local Open Scope Z_scope.

(** ** Machine integers *)

Module Int.

Definition INT_MAX : Z := 2147483647.
Definition INT_MIN : Z := -2147483648.
Definition LONG_MAX : Z := 9223372036854775807.
Definition LONG_MIN : Z := -9223372036854775808.
Definition SIZE_MODULUS : Z := 18446744073709551616.

(** Arithmetic on [size_t] is modulo 2^64. *)
Definition size_t (z : Z) : Z := z mod SIZE_MODULUS.

(** [int(x)] on an integer that may not fit: reduction to the signed 32-bit
    representative. *)
Definition to_int (z : Z) : Z := (z + 2147483648) mod 4294967296 - 2147483648.

(** [unsigned int(x)], the parameter type of [sleep]. *)
Definition to_uint (z : Z) : Z := z mod 4294967296.

Definition in_int_range (z : Z) : Prop := INT_MIN <= z <= INT_MAX.

End Int.

(** ** The part of the C library the program calls *)

Module CLib.

Definition NUL : ascii := "000"%char.
Definition newline : ascii := "010"%char.

(** [strlen]-bounded view of a buffer handed over as [const char*]: the
    characters before the first NUL. *)
Fixpoint c_str (s : string) : string :=
  match s with
  | EmptyString => EmptyString
  | String c r => if Ascii.eqb c NUL then EmptyString else String c (c_str r)
  end.

(** [isspace] in the "C" locale: space, \t, \n, \v, \f, \r. *)
Definition isspace (c : ascii) : bool :=
  let n := N_of_ascii c in
  (N.eqb n 32 || (N.leb 9 n && N.leb n 13))%bool.

Definition isdigit (c : ascii) : bool :=
  let n := N_of_ascii c in (N.leb 48 n && N.leb n 57)%bool.

Definition digit_value (c : ascii) : Z := Z.of_N (N_of_ascii c) - 48.

Fixpoint skip_space (s : string) : string :=
  match s with
  | String c r => if isspace c then skip_space r else s
  | EmptyString => s
  end.

(** Longest run of decimal digits, accumulated most significant first;
    returns the value and the unread rest. *)
Fixpoint read_digits (acc : Z) (s : string) : Z * string :=
  match s with
  | String c r =>
      if isdigit c then read_digits (10 * acc + digit_value c) r else (acc, s)
  | EmptyString => (acc, s)
  end.

Definition ERANGE : Z := 34.

Record strtol_result := {
  st_value : Z;       (* the returned long *)
  st_end : string;    (* what [*endptr] points at *)
  st_errno : Z        (* errno after the call, 0 on entry *)
}.

(** No conversion could be performed: 0 is returned and [end = str]. *)
Definition no_conversion (str : string) : strtol_result :=
  {| st_value := 0; st_end := str; st_errno := 0 |}.

(** The digits of the subject sequence, [after_sign] being what follows the
    white space and the sign.  A value outside [long] is clamped and sets
    ERANGE; the digits are consumed all the same. *)
Definition convert_digits (neg : bool) (after_sign str : string) : strtol_result :=
  match after_sign with
  | String c _ =>
      if isdigit c then
        let '(magnitude, rest) := read_digits 0 after_sign in
        let v := if neg then - magnitude else magnitude in
        if Int.LONG_MAX <? v then
          {| st_value := Int.LONG_MAX; st_end := rest; st_errno := ERANGE |}
        else if v <? Int.LONG_MIN then
          {| st_value := Int.LONG_MIN; st_end := rest; st_errno := ERANGE |}
        else {| st_value := v; st_end := rest; st_errno := 0 |}
      else no_conversion str
  | EmptyString => no_conversion str
  end.

(** [strtol(str, &end, 10)] entered with [errno = 0]: optional white space,
    optional sign, at least one digit. *)
Definition strtol (str : string) : strtol_result :=
  let s1 := skip_space str in
  match s1 with
  | String c r =>
      if Ascii.eqb c "-" then convert_digits true r str
      else if Ascii.eqb c "+" then convert_digits false r str
      else convert_digits false s1 str
  | EmptyString => no_conversion str
  end.

End CLib.

(** ** [parseInt] *)

(** [*s == 0] on the text of a null-terminated string, and [s.empty()]. *)
Definition is_empty (s : string) : bool :=
  match s with EmptyString => true | _ => false end.

(** The three checks [parseInt] makes on what [strtol] left in [l], [end]
    and [errno]. *)
Definition accept (str : string) (r : CLib.strtol_result) : option Z :=
  let l := CLib.st_value r in
  if ((Z.eqb (CLib.st_errno r) CLib.ERANGE && Z.eqb l Int.LONG_MAX) || (Int.INT_MAX <? l))%bool
  then None
  else if ((Z.eqb (CLib.st_errno r) CLib.ERANGE && Z.eqb l Int.LONG_MIN) || (l <? Int.INT_MIN))%bool
  then None
  else if (is_empty str || negb (is_empty (CLib.st_end r)))%bool
  then None
  else Some l.

(** [parseInt(str, 10)]: every call site passes base 10, which the embedding
    fixes.  [str] is the text of the null-terminated argument. *)
Definition parseInt (str : string) : option Z :=
  accept str (CLib.strtol str).

(** ** [float] and [double] *)

Module Float.

(** binary32: 24 bits of precision, infinities at exponent 128. *)
Definition float_add : spec_float -> spec_float -> spec_float := SFadd 24 128.
Definition float_div : spec_float -> spec_float -> spec_float := SFdiv 24 128.

(** binary64: 53 bits of precision, infinities at exponent 1024. *)
Definition double_mul : spec_float -> spec_float -> spec_float := SFmul 53 1024.

(** [float(n)] for an [int] n, rounded to nearest even. *)
Definition of_int (n : Z) : spec_float := binary_normalize 24 128 n 0 false.

(** A decimal literal with an integral value, as a [double]. *)
Definition double_of_int (n : Z) : spec_float := binary_normalize 53 1024 n 0 false.

(** Promotion [float -> double] is exact; the mantissa is re-aligned. *)
Definition to_double (x : spec_float) : spec_float :=
  match x with
  | S754_finite s m e => binary_round 53 1024 s m e
  | _ => x
  end.

(** Narrowing [double -> float] rounds to nearest even. *)
Definition to_float (x : spec_float) : spec_float :=
  match x with
  | S754_finite s m e => binary_round 24 128 s m e
  | _ => x
  end.

(** [a >= b]; false as soon as one side is a NaN. *)
Definition ge (a b : spec_float) : bool := SFleb b a.

(** [int(x)]: truncation toward zero.  C++ leaves the conversion undefined
    when the truncated value does not fit an [int] (and for NaN and the
    infinities); that case is [None]. *)
Definition to_int (x : spec_float) : option Z :=
  match x with
  | S754_zero _ => Some 0
  | S754_finite s m e =>
      let magnitude :=
        match e with
        | Zneg p => Z.shiftr (Zpos m) (Zpos p)
        | _ => Z.shiftl (Zpos m) e
        end in
      let v := if s then - magnitude else magnitude in
      if ((Int.INT_MIN <=? v) && (v <=? Int.INT_MAX))%bool then Some v else None
  | _ => None
  end.

Definition zero : spec_float := S754_zero false.

End Float.

(** ** [std::string] *)

(** What ends the process: [std::out_of_range] thrown by [substr], or the
    crash of [fputs] on a null [FILE*]. *)
Inductive exception : Type :=
| std_out_of_range
| fputs_null_stream.

Inductive outcome (A : Type) : Type :=
| Returned (a : A)
| Threw (e : exception).

Arguments Returned {A} a.
Arguments Threw {A} e.

Module Str.

Definition size (s : string) : Z := Z.of_nat (String.length s).

(** [s[i]]: the character for [i < size()], the terminator at [i = size()].
    Beyond that the access is undefined; no caller in the program gets there
    without a wrapped index, and the embedding reads a NUL. *)
Definition char_at (s : string) (i : Z) : ascii :=
  if ((0 <=? i) && (i <? size s))%bool then
    match String.get (Z.to_nat i) s with
    | Some c => c
    | None => CLib.NUL
    end
  else CLib.NUL.

(** [s.substr(pos, len)]: throws [std::out_of_range] when [pos > size()],
    otherwise the [min(len, size() - pos)] characters from [pos]. *)
Definition substr (s : string) (pos len : Z) : outcome string :=
  if size s <? pos then Threw std_out_of_range
  else Returned (String.substring (Z.to_nat pos)
                                  (Z.to_nat (Z.min len (size s - pos))) s).

End Str.

(** ** The outside world *)

(** [std::format("<prefix>{:%y%m%d_%H%M%OS}_{}.txt", timeNow, int(pct))], kept
    as its three ingredients. *)
Inductive report_file : Type :=
| ReportFile (prefix : string) (timeNow : Z) (truncatedPct : option Z).

(** [std::format("{} '{}. Consumption is {:.2f}%'", script, title, pct)], kept
    as its three ingredients. *)
Inductive notify_command : Type :=
| NotifyCommand (script : string) (errorTitle : string) (consumptionPct : spec_float).

(** An argument of [printf]: [%s] or [%d]. *)
Inductive printf_arg : Type :=
| ArgStr (s : string)
| ArgInt (n : Z).

(** One event per external call, with what the environment answered.  The
    format strings of [printf] are quoted as the source writes them, escape
    sequences unexpanded.  [EvSaveCommand] is a call of [saveCommandOutput]
    that returned [ok], [EvSaveCrash] one that crashed. *)
Inductive event : Type :=
| EvReadCommand (cmd : string) (output : option string)
| EvSaveCommand (cmd : string) (file : report_file) (ok : bool)
| EvSaveCrash (cmd : string) (file : report_file)
| EvNow (t : Z)
| EvSystem (cmd : notify_command) (resultCode : Z)
| EvPrintf (fmt : string) (args : list printf_arg)
| EvSleep (seconds : Z).

(** What the environment answers to the calls of one [saveCommandOutput].
    - [popen_chunks]: [None] when [popen] fails, otherwise the chunks the
      successive calls of [fgets] store before [fgets] returns a null
      pointer (none when the command prints nothing);
    - [fopen_file]: [None] when [fopen] fails, otherwise whether the [n]-th
      [fputs] on the file succeeds. *)
Record save_answer : Type := {
  popen_chunks : option (list string);
  fopen_file : option (nat -> bool)
}.

(** What the environment answers to the external call made at a given tick.
    - [pipe_output]: the text [readCommandOutput] accumulates from the pipe,
      or [None] when [popen] fails;
    - [save_result]: what [popen], [fgets], [fopen] and [fputs] answer
      inside [saveCommandOutput];
    - [clock]: [std::chrono::system_clock::now()], in clock ticks since the
      epoch;
    - [script_exit]: what [std::system] returns. *)
Record Env : Type := {
  pipe_output : nat -> string -> option string;
  save_result : nat -> string -> report_file -> save_answer;
  clock : nat -> Z;
  script_exit : nat -> notify_command -> Z
}.

Record World : Type := {
  env : Env;
  tick : nat;
  trace : list event
}.

(** A computation returns or ends the process, and leaves the world it
    reached. *)
Definition M (A : Type) : Type := World -> outcome A * World.

Definition ret {A : Type} (a : A) : M A := fun w => (Returned a, w).

Definition bind {A B : Type} (m : M A) (f : A -> M B) : M B :=
  fun w =>
    match m w with
    | (Returned a, w') => f a w'
    | (Threw e, w') => (Threw e, w')
    end.

Definition lift {A : Type} (o : outcome A) : M A := fun w => (o, w).

Declare Scope prog_scope.
Delimit Scope prog_scope with prog.
Notation "x <- m ;; k" := (bind m (fun x => k))
  (at level 61, m at next level, right associativity) : prog_scope.
Notation "' p <- m ;; k" := (bind m (fun x => match x with p => k end))
  (at level 61, p pattern, m at next level, right associativity) : prog_scope.
Notation "m ;; k" := (bind m (fun _ => k))
  (at level 61, right associativity) : prog_scope.
Local Open Scope prog_scope.

Definition emit (e : event) (w : World) : World :=
  {| env := env w; tick := S (tick w); trace := trace w ++ [e] |}.

Definition printf (fmt : string) (args : list printf_arg) : M unit :=
  fun w => (Returned tt, emit (EvPrintf fmt args) w).

Definition now : M Z :=
  fun w => let t := clock (env w) (tick w) in (Returned t, emit (EvNow t) w).

Definition system (command : notify_command) : M Z :=
  fun w =>
    let rc := script_exit (env w) (tick w) command in
    (Returned rc, emit (EvSystem command rc) w).

Definition sleep (seconds : Z) : M unit :=
  fun w => (Returned tt, emit (EvSleep (Int.to_uint seconds)) w).

(** [readCommandOutput(cmd, outResult)]: appends the captured text to
    [outResult]; returns [false] and leaves it alone when [popen] fails. *)
Definition readCommandOutput (cmd : string) (outResult : string) : M (bool * string) :=
  fun w =>
    let answer := pipe_output (env w) (tick w) cmd in
    let w' := emit (EvReadCommand cmd answer) w in
    match answer with
    | Some text => (Returned (true, (outResult ++ text)%string), w')
    | None => (Returned (false, outResult), w')
    end.

(** The [while] loop of [saveCommandOutput] with [chunks] still to come from
    the pipe and [written] calls of [fputs] made.  [outFilePipe] is never
    tested: on a null [FILE*] the first [fputs] is undefined behaviour, here a
    crash.  A [fputs] that returns [EOF] ends the function with [false]. *)
Fixpoint saveCommandOutput_loop (chunks : list string) (outFile : option (nat -> bool))
    (written : nat) : outcome bool :=
  match chunks with
  | [] => Returned true
  | _ :: chunks' =>
      match outFile with
      | None => Threw fputs_null_stream
      | Some fputs_ok =>
          if fputs_ok written
          then saveCommandOutput_loop chunks' outFile (S written)
          else Returned false
      end
  end.

(** [saveCommandOutput(cmd, filePath)]: [false] when [popen] fails, before
    the file is opened; otherwise the outcome of the copying loop.  What
    ends up in the file is not part of the world. *)
Definition saveCommandOutput (cmd : string) (filePath : report_file) : M bool :=
  fun w =>
    let answer := save_result (env w) (tick w) cmd filePath in
    match popen_chunks answer with
    | None => (Returned false, emit (EvSaveCommand cmd filePath false) w)
    | Some chunks =>
        match saveCommandOutput_loop chunks (fopen_file answer) 0 with
        | Returned ok => (Returned ok, emit (EvSaveCommand cmd filePath ok) w)
        | Threw e => (Threw e, emit (EvSaveCrash cmd filePath) w)
        end
    end.

(** ** Configuration and state *)

Record Args : Type := {
  memThresholdPct : spec_float;
  cpuThresholdPct : spec_float;
  timeBetweenChecksSec : Z;
  runCustomScript : string;
  notificationThrottleSec : Z
}.

Definition default_Args : Args := {|
  memThresholdPct := Float.of_int 70;
  cpuThresholdPct := Float.of_int 70;
  timeBetweenChecksSec := 60;
  runCustomScript := "";
  notificationThrottleSec := 20 * 60
|}.

(** Time points count ticks of [system_clock] since the epoch. *)
Record AppState : Type := {
  lastMemAlertSentTime : Z;
  lastCpuAlertSentTime : Z
}.

(** [AppState appState;]: both time points are default-constructed, which is
    the epoch. *)
Definition initial_AppState : AppState :=
  {| lastMemAlertSentTime := 0; lastCpuAlertSentTime := 0 |}.

(** [std::chrono::seconds(n)] in ticks of [system_clock], whose period is a
    nanosecond. *)
Definition ticks_per_second : Z := 1000000000.
Definition seconds (n : Z) : Z := n * ticks_per_second.

(** ** Command line *)

(** [argv[i][k]] on the text of a null-terminated argument. *)
Definition arg_char (arg : string) (k : nat) : ascii :=
  match String.get k arg with
  | Some c => c
  | None => CLib.NUL
  end.

(** [readArgValue<T>] looks only at [argv[i + 1]]; [following] is
    [argv[i + 1 .. argc - 1]], empty exactly when [i + 1 >= argc].  [Some v]
    stands for: returned [true], stored [v] in [dest], advanced [i]. *)
Definition value_token (following : list string) : option string :=
  match following with
  | [] => None
  | value :: _ =>
      if Ascii.eqb (arg_char value 0) "-" then None else Some value
  end.

(** The [std::is_floating_point_v<T>] branch, [T = float]. *)
Definition readArgValue_float (following : list string) : option spec_float :=
  match value_token following with
  | None => None
  | Some value =>
      match parseInt value with
      | Some v => Some (Float.of_int v)
      | None => None
      end
  end.

(** The [std::is_integral_v<T>] branch, [T = size_t]: unsigned, and not
    narrower than [int]. *)
Definition readArgValue_size_t (following : list string) : option Z :=
  match value_token following with
  | None => None
  | Some value =>
      match parseInt value with
      | None => None
      | Some v => if v <? 0 then None else Some (Int.size_t v)
      end
  end.

(** The [std::string] branch. *)
Definition readArgValue_string (following : list string) : option string :=
  value_token following.

Inductive readArgs_result : Type :=
| ArgsParsed (args : Args)
| ArgsExit (code : Z) (fmt : string) (arg : string).

Definition set_memThresholdPct (a : Args) (v : spec_float) : Args :=
  {| memThresholdPct := v; cpuThresholdPct := cpuThresholdPct a;
     timeBetweenChecksSec := timeBetweenChecksSec a;
     runCustomScript := runCustomScript a;
     notificationThrottleSec := notificationThrottleSec a |}.

Definition set_cpuThresholdPct (a : Args) (v : spec_float) : Args :=
  {| memThresholdPct := memThresholdPct a; cpuThresholdPct := v;
     timeBetweenChecksSec := timeBetweenChecksSec a;
     runCustomScript := runCustomScript a;
     notificationThrottleSec := notificationThrottleSec a |}.

Definition set_timeBetweenChecksSec (a : Args) (v : Z) : Args :=
  {| memThresholdPct := memThresholdPct a; cpuThresholdPct := cpuThresholdPct a;
     timeBetweenChecksSec := v;
     runCustomScript := runCustomScript a;
     notificationThrottleSec := notificationThrottleSec a |}.

Definition set_runCustomScript (a : Args) (v : string) : Args :=
  {| memThresholdPct := memThresholdPct a; cpuThresholdPct := cpuThresholdPct a;
     timeBetweenChecksSec := timeBetweenChecksSec a;
     runCustomScript := v;
     notificationThrottleSec := notificationThrottleSec a |}.

Definition set_notificationThrottleSec (a : Args) (v : Z) : Args :=
  {| memThresholdPct := memThresholdPct a; cpuThresholdPct := cpuThresholdPct a;
     timeBetweenChecksSec := timeBetweenChecksSec a;
     runCustomScript := runCustomScript a;
     notificationThrottleSec := v |}.

(** The flag letter of a one-letter argument: [argv[i][0] == '-'],
    [argv[i][1] != 0] and [argv[i][2] == 0]. *)
Definition one_letter_flag (arg : string) : option ascii :=
  if (Ascii.eqb (arg_char arg 0) "-" && negb (Ascii.eqb (arg_char arg 1) CLib.NUL))%bool
  then if Ascii.eqb (arg_char arg 2) CLib.NUL then Some (arg_char arg 1) else None
  else None.

Definition unknown_argument (arg : string) : readArgs_result :=
  ArgsExit 1 "Unknown argument '%s'\n" arg.

Definition invalid_value (arg : string) : readArgs_result :=
  ArgsExit 2 "Argument '%s' did not have a valid value\n" arg.

(** The [for] loop of [readArgs], entered with [i] at the head of [rest]
    ([rest] is [argv[i .. argc - 1]]).  A value that was read is skipped by
    the [++i] of [readArgValue], the flag by the [++i] of the loop. *)
Fixpoint readArgs_loop (args : Args) (rest : list string) : readArgs_result :=
  match rest with
  | [] => ArgsParsed args
  | arg :: following =>
      let continue (updated : option Args) :=
        match updated, following with
        | Some args', _ :: rest' => readArgs_loop args' rest'
        | _, _ => invalid_value arg
        end in
      match one_letter_flag arg with
      | Some "m"%char =>
          continue (option_map (set_memThresholdPct args) (readArgValue_float following))
      | Some "c"%char =>
          continue (option_map (set_cpuThresholdPct args) (readArgValue_float following))
      | Some "t"%char =>
          continue (option_map (set_timeBetweenChecksSec args) (readArgValue_size_t following))
      | Some "r"%char =>
          continue (option_map (set_runCustomScript args) (readArgValue_string following))
      | Some "n"%char =>
          continue (option_map (set_notificationThrottleSec args) (readArgValue_size_t following))
      | _ => unknown_argument arg
      end
  end.

(** [readArgs(argc, argv)]; [argv[0]] is the program name. *)
Definition readArgs (argv : list string) : readArgs_result :=
  match argv with
  | [_] => ArgsParsed default_Args
  | _ => readArgs_loop default_Args (List.tl argv)
  end.

(** ** Alert throttle *)

(** [lastSendTime] is passed by reference: the call returns the value it
    leaves there.  The sum [lastSendTime + seconds] is taken in [Z]; with a
    cooldown read from the command line (at most [INT_MAX] seconds) and a
    clock of this century it stays far below the 63 bits of the tick count. *)
Definition trySendNotification (args : Args) (lastSendTime : Z)
    (errorTitle : string) (consumptionPct : spec_float) : M Z :=
  if negb (is_empty (runCustomScript args)) then
    timeNow <- now ;;
    if lastSendTime + seconds (notificationThrottleSec args) <? timeNow then
      let command := NotifyCommand (runCustomScript args) errorTitle consumptionPct in
      resultCode <- system command ;;
      (if resultCode =? 0 then ret tt
       else printf "Notification script exited with non-zero code %d\n" [ArgInt resultCode]) ;;
      ret timeNow
    else ret lastSendTime
  else ret lastSendTime.

(** ** Column extraction and the samplers *)

Definition longestHeaderLen : Z := 8 + 1.

(** The [for] loop of [getFreePartValue] with [n] iterations to go; returns
    [(numberStart, numberLen)]. *)
Fixpoint scan_field (buffer : string) (n : nat) (i numberStart numberLen : Z) : Z * Z :=
  match n with
  | O => (numberStart, numberLen)
  | S n' =>
      let numberLen := Int.size_t (numberLen - 1) in
      if negb (Ascii.eqb (Str.char_at buffer i) " ") then (i, numberLen)
      else scan_field buffer n' (Int.size_t (i + 1)) numberStart numberLen
  end.

Definition free_cmd : string := "free -L".

(** The loop body runs [end - startOffset] times when [startOffset < end] and
    not at all otherwise. *)
Definition getFreePartValue (buffer : string) (partIndex : Z) : M Z :=
  let quarter := Int.size_t (Str.size buffer - 1) / 4 in
  let startOffset := Int.size_t (Int.size_t (quarter * partIndex) + longestHeaderLen) in
  let maxNumberLen := Int.size_t (quarter - longestHeaderLen) in
  let end_ := Z.min (Int.size_t (startOffset + maxNumberLen)) (Str.size buffer) in
  let '(numberStart, numberLen) :=
    scan_field buffer (Z.to_nat (end_ - startOffset)) startOffset startOffset maxNumberLen in
  numberPart <- lift (Str.substr buffer numberStart numberLen) ;;
  match parseInt (CLib.c_str numberPart) with
  | None =>
      printf "Failed to parse number '%s' from 'free -L' output '%s'\n"
             [ArgStr numberPart; ArgStr buffer] ;;
      ret 0
  | Some parsedNumber => ret parsedNumber
  end.

(** The buffer is passed by reference: the sampler returns it with the
    percentage. *)
Definition checkMemory (buffer : string) : M (spec_float * string) :=
  let buffer := "" in
  '(hasExecuted, buffer) <- readCommandOutput free_cmd buffer ;;
  (if hasExecuted then ret tt else printf "Could not execute 'free -L'\n" []) ;;
  usedValue <- getFreePartValue buffer 2 ;;
  freeValue <- getFreePartValue buffer 3 ;;
  let usedFraction :=
    Float.float_div (Float.of_int usedValue)
                    (Float.float_add (Float.of_int freeValue) (Float.of_int usedValue)) in
  ret (Float.to_float (Float.double_mul (Float.to_double usedFraction) (Float.double_of_int 100)),
       buffer).

(** The comparison loop of [isSubstr], [n] characters of [substring] to go. *)
Fixpoint isSubstr_loop (str substring : string) (position : Z) (n : nat) (i : Z) : bool :=
  match n with
  | O => true
  | S n' =>
      if negb (Ascii.eqb (Str.char_at str (Int.size_t (position + i)))
                         (Str.char_at substring i))
      then false
      else isSubstr_loop str substring position n' (Int.size_t (i + 1))
  end.

Definition isSubstr (str substring : string) (position : Z) : bool :=
  if Str.size str <=? Int.size_t (position + Str.size substring) then false
  else isSubstr_loop str substring position (String.length substring) 0.

Definition sar_cmd : string := "sar --dec=0 1 1 | tail -n 3".
Definition idle_marker : string := "%idle".

(** The header loop of [checkCpu] with [n] iterations to go; returns
    [(idleOffset, secondLineStart)]. *)
Fixpoint find_idle (buffer : string) (n : nat) (i : Z) (idleOffset : Z) : Z * Z :=
  match n with
  | O => (idleOffset, 0)
  | S n' =>
      let idleOffset := if isSubstr buffer idle_marker i then Int.to_int i else idleOffset in
      if Ascii.eqb (Str.char_at buffer i) CLib.newline then (idleOffset, Int.size_t (i + 1))
      else find_idle buffer n' (Int.size_t (i + 1)) idleOffset
  end.

(** [100 - *parsedNumber] is an [int] subtraction; the field has at most
    three characters, so the difference is far from the ends of [int]. *)
Definition checkCpu (buffer : string) : M (spec_float * string) :=
  let buffer := "" in
  '(hasExecuted, buffer) <- readCommandOutput sar_cmd buffer ;;
  (if hasExecuted then ret tt
   else printf "Could not execute 'sar --dec=0 1 1 | tail -n 3'\n" []) ;;
  let '(idleOffset, secondLineStart) :=
    find_idle buffer (String.length buffer) 0 (-1) in
  if idleOffset =? -1 then
    printf "Could not find idle column in 'sar --dec=0 1 1 | tail -n 3' output\n" [] ;;
    ret (Float.zero, buffer)
  else
    numberPart <- lift (Str.substr buffer (Int.size_t (secondLineStart + idleOffset + 2)) 3) ;;
    match parseInt (CLib.c_str numberPart) with
    | None =>
        printf "Failed to parse number '%s' from 'sar --dec=0 1 1 | tail -n 3' output '%s'\n"
               [ArgStr numberPart; ArgStr buffer] ;;
        ret (Float.zero, buffer)
    | Some parsedNumber => ret (Float.of_int (100 - parsedNumber), buffer)
    end.

(** ** The monitoring cycle *)

Definition ps_mem_cmd : string := "ps aux --sort=-%mem".
Definition top_mem_cmd : string := "top -b -n 1 -o =%MEM".
Definition ps_cpu_cmd : string := "ps aux --sort=-%cpu".
Definition mem_title : string := "Memory consumption is high".
Definition cpu_title : string := "CPU consumption is high".

Definition set_lastMemAlertSentTime (s : AppState) (t : Z) : AppState :=
  {| lastMemAlertSentTime := t; lastCpuAlertSentTime := lastCpuAlertSentTime s |}.

Definition set_lastCpuAlertSentTime (s : AppState) (t : Z) : AppState :=
  {| lastMemAlertSentTime := lastMemAlertSentTime s; lastCpuAlertSentTime := t |}.

(** The body of [if (memConsumptionPct >= args.memThresholdPct)] is the two
    captures followed by the throttled notification. *)
Definition memory_capture (memConsumptionPct : spec_float) : M unit :=
  timeNow <- now ;;
  couldSavePs <- saveCommandOutput ps_mem_cmd
    (ReportFile "mem_report_ps_" timeNow (Float.to_int memConsumptionPct)) ;;
  (if couldSavePs then ret tt
   else printf "Could not save mem report from ps to file\n" []) ;;
  couldSaveTop <- saveCommandOutput top_mem_cmd
    (ReportFile "mem_report_top_" timeNow (Float.to_int memConsumptionPct)) ;;
  (if couldSaveTop then ret tt
   else printf "Could not save mem report from top to file\n" []).

Definition memory_breach (args : Args) (appState : AppState)
    (memConsumptionPct : spec_float) : M AppState :=
  memory_capture memConsumptionPct ;;
  sent <- trySendNotification args (lastMemAlertSentTime appState)
            mem_title memConsumptionPct ;;
  ret (set_lastMemAlertSentTime appState sent).

(** The body of [if (cpuConsumptionPct >= args.cpuThresholdPct)]. *)
Definition cpu_capture (cpuConsumptionPct : spec_float) : M unit :=
  timeNow <- now ;;
  couldSave <- saveCommandOutput ps_cpu_cmd
    (ReportFile "cpu_report_" timeNow (Float.to_int cpuConsumptionPct)) ;;
  (if couldSave then ret tt
   else printf "Could not save cpu report to file\n" []).

Definition cpu_breach (args : Args) (appState : AppState)
    (cpuConsumptionPct : spec_float) : M AppState :=
  cpu_capture cpuConsumptionPct ;;
  sent <- trySendNotification args (lastCpuAlertSentTime appState)
            cpu_title cpuConsumptionPct ;;
  ret (set_lastCpuAlertSentTime appState sent).

(** First half of [doPeriodicCheck]: memory. *)
Definition memory_phase (args : Args) (appState : AppState) (readBuffer : string)
    : M (AppState * string) :=
  '(memConsumptionPct, readBuffer) <- checkMemory readBuffer ;;
  appState <- (if Float.ge memConsumptionPct (memThresholdPct args)
               then memory_breach args appState memConsumptionPct
               else ret appState) ;;
  ret (appState, readBuffer).

(** Second half of [doPeriodicCheck]: CPU. *)
Definition cpu_phase (args : Args) (appState : AppState) (readBuffer : string)
    : M (AppState * string) :=
  '(cpuConsumptionPct, readBuffer) <- checkCpu readBuffer ;;
  appState <- (if Float.ge cpuConsumptionPct (cpuThresholdPct args)
               then cpu_breach args appState cpuConsumptionPct
               else ret appState) ;;
  ret (appState, readBuffer).

(** [appState] and [readBuffer] are passed by reference: the cycle returns
    them with its [bool]. *)
Definition doPeriodicCheck (args : Args) (appState : AppState) (readBuffer : string)
    : M (bool * AppState * string) :=
  '(appState, readBuffer) <- memory_phase args appState readBuffer ;;
  '(appState, readBuffer) <- cpu_phase args appState readBuffer ;;
  ret (true, appState, readBuffer).

(** The first [n] iterations of the [while (true)] of [main]. *)
Fixpoint main_loop (n : nat) (args : Args) (appState : AppState) (readBuffer : string)
    : M (AppState * string) :=
  match n with
  | O => ret (appState, readBuffer)
  | S n' =>
      '(_, appState, readBuffer) <- doPeriodicCheck args appState readBuffer ;;
      sleep (timeBetweenChecksSec args) ;;
      main_loop n' args appState readBuffer
  end.

(** [main] up to its [n]-th cycle: either the exit of [readArgs], or the
    outcome of the loop started from the initial state and an empty buffer. *)
Definition main (argv : list string) (n : nat) (w : World)
    : readArgs_result * option (outcome (AppState * string) * World) :=
  match readArgs argv with
  | ArgsParsed args =>
      (ArgsParsed args, Some (main_loop n args initial_AppState "" w))
  | ArgsExit code fmt arg => (ArgsExit code fmt arg, None)
  end.

(** ** The copying loop of [readCommandOutput]

    The pipe is the text the command has still to deliver.  [fgets(s, size,
    pipe)] stores at most [size - 1] characters, stopping after a newline or
    at the end of the text, and returns a null pointer when the text ended
    before a character was read; a read error ends the text.  The loop hands
    the array over as a C string, so [outResult] grows by the characters
    before the first NUL of each chunk. *)

(** The characters [fgets] stores when it may store [n] of them, and what is
    left in the pipe. *)
Fixpoint fgets_chars (n : nat) (pipe : string) : string * string :=
  match n with
  | O => ("", pipe)
  | S n' =>
      match pipe with
      | EmptyString => ("", "")
      | String c rest =>
          if Ascii.eqb c CLib.newline then (String c "", rest)
          else let '(chunk, rest') := fgets_chars n' rest in (String c chunk, rest')
      end
  end.

(** [None] is the null pointer. *)
Definition fgets (size : nat) (pipe : string) : option (string * string) :=
  match pipe with
  | EmptyString => None
  | _ => Some (fgets_chars (size - 1) pipe)
  end.

(** [while (fgets(buffer.data(), 128, *pipe) != nullptr) outResult +=
    buffer.data();] with [fuel] iterations allowed; [None] when they are used
    up. *)
Fixpoint readCommandOutput_loop (fuel : nat) (pipe : string) (outResult : string)
    : option string :=
  match fuel with
  | O => None
  | S fuel' =>
      match fgets 128 pipe with
      | None => Some outResult
      | Some (chunk, pipe') =>
          readCommandOutput_loop fuel' pipe' (outResult ++ CLib.c_str chunk)
      end
  end.

(** ** Vocabulary of the statements *)

(** *** Numerals, in the words of the parsing contract *)

Fixpoint all_chars (p : ascii -> bool) (s : string) : bool :=
  match s with
  | EmptyString => true
  | String c r => (p c && all_chars p r)%bool
  end.

(** Positional value of a string of decimal digits. *)
Fixpoint decimal_value (digits : string) : Z :=
  match digits with
  | EmptyString => 0
  | String c r => CLib.digit_value c * 10 ^ Z.of_nat (String.length r) + decimal_value r
  end.

Definition digit_string (ds : string) : Prop :=
  ds <> EmptyString /\ all_chars CLib.isdigit ds = true.

(** A complete base-10 numeral: an optional sign and at least one digit,
    nothing before, nothing after. *)
Inductive numeral : string -> Z -> Prop :=
| numeral_unsigned ds : digit_string ds -> numeral ds (decimal_value ds)
| numeral_plus ds : digit_string ds -> numeral (String "+" ds) (decimal_value ds)
| numeral_minus ds : digit_string ds -> numeral (String "-" ds) (- decimal_value ds).

(** A numeral behind the white space [strtol] skips. *)
Definition padded_numeral (s : string) (v : Z) : Prop :=
  exists ws body,
    s = (ws ++ body)%string /\ all_chars CLib.isspace ws = true /\ numeral body v.

(** *** Reading a trace *)

(** The events a computation added. *)
Definition new_events (w w' : World) : list event :=
  skipn (List.length (trace w)) (trace w').

(** The commands whose output was saved, in order. *)
Fixpoint saved_commands (tr : list event) : list string :=
  match tr with
  | [] => []
  | EvSaveCommand cmd _ _ :: tr' => cmd :: saved_commands tr'
  | _ :: tr' => saved_commands tr'
  end.

(** The notification commands that were run, in order. *)
Fixpoint notifications (tr : list event) : list notify_command :=
  match tr with
  | [] => []
  | EvSystem cmd _ :: tr' => cmd :: notifications tr'
  | _ :: tr' => notifications tr'
  end.

(** The commands whose output was read, in order. *)
Fixpoint read_commands (tr : list event) : list string :=
  match tr with
  | [] => []
  | EvReadCommand cmd _ :: tr' => cmd :: read_commands tr'
  | _ :: tr' => read_commands tr'
  end.

Fixpoint sleeps (tr : list event) : list Z :=
  match tr with
  | [] => []
  | EvSleep s :: tr' => s :: sleeps tr'
  | _ :: tr' => sleeps tr'
  end.

(** [w'] is [w] after the events [evs]. *)
Definition extends (w w' : World) (evs : list event) : Prop :=
  env w' = env w /\ tick w' = (tick w + List.length evs)%nat /\ trace w' = (trace w ++ evs)%list.

(** A computation that never throws and whose events all satisfy [p]. *)
Definition adds_only {A : Type} (p : event -> bool) (m : M A) : Prop :=
  forall w, exists a evs,
    m w = (Returned a, snd (m w)) /\ extends w (snd (m w)) evs /\ forallb p evs = true.

(** A computation that may throw and whose events all satisfy [p]. *)
Definition adds_at_most {A : Type} (p : event -> bool) (m : M A) : Prop :=
  forall w, exists evs, extends w (snd (m w)) evs /\ forallb p evs = true.

Definition is_capture (e : event) : bool :=
  match e with
  | EvSaveCommand _ _ _ | EvSaveCrash _ _ => true
  | _ => false
  end.

Definition is_dispatch (e : event) : bool :=
  match e with EvSystem _ _ => true | _ => false end.

(** Neither a capture nor a notification. *)
Definition is_sampling (e : event) : bool :=
  negb (is_capture e || is_dispatch e).

(** What one alert kind may have done to its timestamp over the events
    [evs]: left it alone, or set it to a clock reading of [evs] after running
    the script for that kind. *)
Definition timestamp_step (args : Args) (errorTitle : string)
    (before after : Z) (evs : list event) : Prop :=
  after = before \/
  ((exists pct, In (NotifyCommand (runCustomScript args) errorTitle pct) (notifications evs)) /\
   In (EvNow after) evs).

(** *** What a capture leaves in the trace

    One clock reading, then one save per diagnostic command, each followed by
    a log line when it failed. *)
Definition logged_failure (ok : bool) (fmt : string) : list event :=
  if ok then [] else [EvPrintf fmt []].

Definition memory_capture_trace (pct : spec_float) (timeNow : Z) (ok1 ok2 : bool)
    : list event :=
  ([EvNow timeNow;
    EvSaveCommand ps_mem_cmd (ReportFile "mem_report_ps_" timeNow (Float.to_int pct)) ok1]
   ++ logged_failure ok1 "Could not save mem report from ps to file\n"
   ++ [EvSaveCommand top_mem_cmd (ReportFile "mem_report_top_" timeNow (Float.to_int pct)) ok2]
   ++ logged_failure ok2 "Could not save mem report from top to file\n")%list.

Definition cpu_capture_trace (pct : spec_float) (timeNow : Z) (ok : bool) : list event :=
  ([EvNow timeNow;
    EvSaveCommand ps_cpu_cmd (ReportFile "cpu_report_" timeNow (Float.to_int pct)) ok]
   ++ logged_failure ok "Could not save cpu report to file\n")%list.

(** What a capture that crashes leaves in the trace.  The memory capture
    crashes in its first save ([first = None]) or, the first save having
    returned [ok1], in its second ([first = Some ok1]). *)
Definition memory_capture_crash_trace (pct : spec_float) (timeNow : Z) (first : option bool)
    : list event :=
  match first with
  | None =>
      [EvNow timeNow;
       EvSaveCrash ps_mem_cmd (ReportFile "mem_report_ps_" timeNow (Float.to_int pct))]
  | Some ok1 =>
      ([EvNow timeNow;
        EvSaveCommand ps_mem_cmd (ReportFile "mem_report_ps_" timeNow (Float.to_int pct)) ok1]
       ++ logged_failure ok1 "Could not save mem report from ps to file\n"
       ++ [EvSaveCrash top_mem_cmd
             (ReportFile "mem_report_top_" timeNow (Float.to_int pct))])%list
  end.

Definition cpu_capture_crash_trace (pct : spec_float) (timeNow : Z) : list event :=
  [EvNow timeNow; EvSaveCrash ps_cpu_cmd (ReportFile "cpu_report_" timeNow (Float.to_int pct))].

(** *** Successive breaches of one kind

    [trySendNotification] is called once in each world of [ws], in order, on
    the [lastSendTime] the previous call left.  Each call is reported by the
    clock it read and by whether it ran the script. *)
Fixpoint breaches (args : Args) (errorTitle : string) (pct : spec_float)
    (lastSendTime : Z) (ws : list World) : list (Z * bool) :=
  match ws with
  | [] => []
  | w :: ws' =>
      match trySendNotification args lastSendTime errorTitle pct w with
      | (Returned sent, w') =>
          (clock (env w) (tick w),
           negb (Nat.eqb (List.length (notifications (new_events w w'))) 0))
            :: breaches args errorTitle pct sent ws'
      | (Threw _, _) => []
      end
  end.

(** The times of the calls that ran the script. *)
Definition dispatch_times (calls : list (Z * bool)) : list Z :=
  map fst (filter snd calls).

(** Every element is more than [gap] after all the elements before it. *)
Inductive spaced (gap : Z) : list Z -> Prop :=
| spaced_nil : spaced gap []
| spaced_cons t ts :
    Forall (fun t' => t + gap < t') ts -> spaced gap ts -> spaced gap (t :: ts).

(** *** Lines of a buffer *)

(** [k] is where the first line of [buffer] ends: the index of the first
    newline, or the size of the buffer when it has none. *)
Definition first_line_end (buffer : string) (k : Z) : Prop :=
  0 <= k <= Str.size buffer /\
  (forall j, 0 <= j < k -> Str.char_at buffer j <> CLib.newline) /\
  (k < Str.size buffer -> Str.char_at buffer k = CLib.newline).

Fixpoint first_line_length (s : string) : nat :=
  match s with
  | EmptyString => O
  | String c r => if Ascii.eqb c CLib.newline then O else S (first_line_length r)
  end.

(** *** Sample inputs *)

Definition new_line : string := String CLib.newline EmptyString.

Definition sar_sample : string :=
  ("12:00:01 AM     CPU     %user     %nice   %system   %iowait    %steal     %idle" ++ new_line ++
   "12:00:02 AM     all         1         0         1         0         0        35" ++ new_line ++
   "Average:        all         1         0         1         0         0        35" ++ new_line)%string.

(** A report that is written: the command prints two lines, the file opens
    and every [fputs] succeeds. *)
Definition written_report : save_answer :=
  {| popen_chunks := Some ["USER  PID %CPU %MEM COMMAND" ++ new_line;
                           "root    1  0.0  0.1 init" ++ new_line];
     fopen_file := Some (fun _ => true) |}.

(** A report whose file cannot be opened, while the command prints. *)
Definition unopened_report : save_answer :=
  {| popen_chunks := popen_chunks written_report; fopen_file := None |}.

Definition sample_env (free_output sar_output : option string) : Env :=
  {| pipe_output := fun _ cmd => if String.eqb cmd free_cmd then free_output else sar_output;
     save_result := fun _ _ _ => written_report;
     clock := fun n => seconds (2000 + Z.of_nat n);
     script_exit := fun _ _ => 0 |}.

Definition sample_world (free_output sar_output : option string) : World :=
  {| env := sample_env free_output sar_output; tick := 0; trace := [] |}.

Definition free_sample : string :=
  "SwapUse           0 CachUse     1234567  MemUse          30 MemFree          70 " ++ new_line.

(** A notification script that fails. *)
Definition failing_script_env : Env :=
  {| pipe_output := fun _ _ => None;
     save_result := fun _ _ _ => written_report;
     clock := fun n => seconds (2000 + Z.of_nat n);
     script_exit := fun _ _ => 1 |}.

Definition failing_script_world : World :=
  {| env := failing_script_env; tick := 0; trace := [] |}.

Definition sample_args : Args := set_runCustomScript default_Args "notify.sh".

Definition script_failed_message : string :=
  "Notification script exited with non-zero code %d\n".

Definition invalid_value_message : string := "Argument '%s' did not have a valid value\n".

(** The sample environment, [n] external calls into the run. *)
Definition world_at (n : nat) : World :=
  {| env := sample_env None None; tick := n; trace := [] |}.

(** Thresholds low enough for the sample report to breach, and a script. *)
Definition eager_args : Args :=
  set_memThresholdPct (set_runCustomScript default_Args "notify.sh") (Float.of_int 20).

(** The sample reports where no report file can be opened. *)
Definition unwritable_env : Env :=
  {| pipe_output :=
       fun _ cmd => if String.eqb cmd free_cmd then Some free_sample else Some sar_sample;
     save_result := fun _ _ _ => unopened_report;
     clock := fun n => seconds (2000 + Z.of_nat n);
     script_exit := fun _ _ => 0 |}.

Definition unwritable_world : World :=
  {| env := unwritable_env; tick := 0; trace := [] |}.

(** A clock that reads [n] seconds after the epoch at tick [n]. *)
Definition epoch_env : Env :=
  {| pipe_output := fun _ _ => None;
     save_result := fun _ _ _ => written_report;
     clock := fun n => seconds (Z.of_nat n);
     script_exit := fun _ _ => 0 |}.

Definition epoch_world_at (n : nat) : World :=
  {| env := epoch_env; tick := n; trace := [] |}.

Definition no_idle_message : string :=
  "Could not find idle column in 'sar --dec=0 1 1 | tail -n 3' output\n".

(** *** The percentage of [checkMemory]

    [float(used) / (float(free) + float(used))] is rounded to a [float];
    the product with the [double] 100.0 is rounded to a [double] and then,
    on return, to a [float]. *)
Definition used_percentage (used free : Z) : spec_float :=
  Float.to_float
    (Float.double_mul
       (Float.to_double
          (Float.float_div (Float.of_int used)
                           (Float.float_add (Float.of_int free) (Float.of_int used))))
       (Float.double_of_int 100)).

(** *** Command lines *)


(** What one flag does to the arguments, given the tokens after it: [None]
    for an unknown argument, [Some None] for a known flag without a valid
    value, [Some (Some a)] for the updated arguments. *)
Definition flag_update (args : Args) (arg : string) (following : list string)
    : option (option Args) :=
  match one_letter_flag arg with
  | Some "m"%char =>
      Some (option_map (set_memThresholdPct args) (readArgValue_float following))
  | Some "c"%char =>
      Some (option_map (set_cpuThresholdPct args) (readArgValue_float following))
  | Some "t"%char =>
      Some (option_map (set_timeBetweenChecksSec args) (readArgValue_size_t following))
  | Some "r"%char =>
      Some (option_map (set_runCustomScript args) (readArgValue_string following))
  | Some "n"%char =>
      Some (option_map (set_notificationThrottleSec args) (readArgValue_size_t following))
  | _ => None
  end.

(** What a parsed command line guarantees: both periods are non-negative
    [int] values and both thresholds are integers converted to [float]. *)
Definition args_in_range (a : Args) : Prop :=
  0 <= timeBetweenChecksSec a <= Int.INT_MAX /\
  0 <= notificationThrottleSec a <= Int.INT_MAX /\
  (exists n, Int.in_int_range n /\ memThresholdPct a = Float.of_int n) /\
  (exists n, Int.in_int_range n /\ cpuThresholdPct a = Float.of_int n).

(** *** Buffers and reports *)

(** No character of [s] is a decimal digit. *)
Definition digit_free (s : string) : bool :=
  all_chars (fun c => negb (CLib.isdigit c)) s.

Definition parse_failure_message : string :=
  "Failed to parse number '%s' from 'free -L' output '%s'\n".

(** A report of [sar] cut after its header line. *)
Definition sar_header_only : string :=
  "12:00:01 AM     CPU     %user     %nice   %system   %iowait    %steal     %idle" ++ new_line.

(** Neither a NaN nor an infinity. *)
Definition is_finite_float (x : spec_float) : bool :=
  match x with
  | S754_zero _ | S754_finite _ _ _ => true
  | _ => false
  end.

(** No character of [s] is a NUL. *)
Definition NUL_free (s : string) : bool :=
  all_chars (fun c => negb (Ascii.eqb c CLib.NUL)) s.

(** *** The trace of a run *)

Definition is_log (e : event) : bool :=
  match e with EvPrintf _ _ => true | _ => false end.

(** A step of a capture: a clock reading, a save or a log line. *)
Definition is_capture_step (e : event) : bool :=
  match e with
  | EvNow _ | EvSaveCommand _ _ _ | EvSaveCrash _ _ | EvPrintf _ _ => true
  | _ => false
  end.

(** What the throttle of one alert kind adds to the trace, with the
    timestamp it leaves: nothing (not called, or no script), a clock reading
    within the cooldown, or a clock reading past the cooldown followed by the
    script and, when it failed, a log line. *)
Inductive throttle_trace (args : Args) (errorTitle : string) (lastSendTime : Z)
    : Z -> list event -> Prop :=
| throttle_idle : throttle_trace args errorTitle lastSendTime lastSendTime []
| throttle_held timeNow :
    runCustomScript args <> "" ->
    timeNow <= lastSendTime + seconds (notificationThrottleSec args) ->
    throttle_trace args errorTitle lastSendTime lastSendTime [EvNow timeNow]
| throttle_sent timeNow pct resultCode :
    runCustomScript args <> "" ->
    lastSendTime + seconds (notificationThrottleSec args) < timeNow ->
    throttle_trace args errorTitle lastSendTime timeNow
      (EvNow timeNow
       :: EvSystem (NotifyCommand (runCustomScript args) errorTitle pct) resultCode
       :: (if resultCode =? 0 then []
           else [EvPrintf script_failed_message [ArgInt resultCode]])).

(** Half a cycle: the sampler reads its command and may log; when it
    returned, the steps of a capture (none without a breach) and the throttle
    follow.  The index is the timestamp left, [None] when the sampler threw
    or the capture crashed. *)
Inductive phase_trace (args : Args) (cmd errorTitle : string) (lastSendTime : Z)
    : option Z -> list event -> Prop :=
| phase_threw output steps :
    forallb is_capture_step steps = true ->
    phase_trace args cmd errorTitle lastSendTime None (EvReadCommand cmd output :: steps)
| phase_returned output steps sent notification :
    forallb is_capture_step steps = true ->
    throttle_trace args errorTitle lastSendTime sent notification ->
    phase_trace args cmd errorTitle lastSendTime (Some sent)
      (EvReadCommand cmd output :: steps ++ notification).

(** A cycle: the memory half, then the CPU half unless the memory half ended
    the process.  The index is the alert state left, [None] when a half ended
    the process. *)
Inductive cycle_trace (args : Args) (s : AppState) : option AppState -> list event -> Prop :=
| cycle_memory_threw evs :
    phase_trace args free_cmd mem_title (lastMemAlertSentTime s) None evs ->
    cycle_trace args s None evs
| cycle_cpu_threw mem evs1 evs2 :
    phase_trace args free_cmd mem_title (lastMemAlertSentTime s) (Some mem) evs1 ->
    phase_trace args sar_cmd cpu_title (lastCpuAlertSentTime s) None evs2 ->
    cycle_trace args s None (evs1 ++ evs2)
| cycle_completed mem cpu evs1 evs2 :
    phase_trace args free_cmd mem_title (lastMemAlertSentTime s) (Some mem) evs1 ->
    phase_trace args sar_cmd cpu_title (lastCpuAlertSentTime s) (Some cpu) evs2 ->
    cycle_trace args s
      (Some {| lastMemAlertSentTime := mem; lastCpuAlertSentTime := cpu |}) (evs1 ++ evs2).

(** The first [n] iterations of the loop of [main]: completed cycles, each
    followed by a sleep, up to the first cycle that ends the process. *)
Inductive loop_trace (args : Args) : nat -> AppState -> option AppState -> list event -> Prop :=
| loop_done s : loop_trace args O s (Some s) []
| loop_threw n s evs :
    cycle_trace args s None evs -> loop_trace args (S n) s None evs
| loop_step n s s1 r evs1 evs2 :
    cycle_trace args s (Some s1) evs1 -> loop_trace args n s1 r evs2 ->
    loop_trace args (S n) s r
      (evs1 ++ EvSleep (Int.to_uint (timeBetweenChecksSec args)) :: evs2).

(** The alert state a run of the loop returned. *)
Definition final_state (o : outcome (AppState * string)) : option AppState :=
  match o with
  | Returned (s, _) => Some s
  | Threw _ => None
  end.

(** The clock readings at which the script was run for [errorTitle]: each
    run of the script is reported with the last clock reading before it
    ([last] when there is none). *)
Fixpoint dispatch_clock (errorTitle : string) (last : Z) (tr : list event) : list Z :=
  match tr with
  | [] => []
  | EvNow t :: tr' => dispatch_clock errorTitle t tr'
  | EvSystem (NotifyCommand _ title _) _ :: tr' =>
      if String.eqb title errorTitle then last :: dispatch_clock errorTitle last tr'
      else dispatch_clock errorTitle last tr'
  | _ :: tr' => dispatch_clock errorTitle last tr'
  end.

(** * Properties *)

(** ** The integer parser *)

Section Parsing.

Import CLib.

Lemma isdigit_not_space c : isdigit c = true -> isspace c = false.
Proof.
  unfold isdigit, isspace. intros H.
  apply andb_true_iff in H. destruct H as [H1 H2].
  apply N.leb_le in H1.
  apply orb_false_iff. split.
  - apply N.eqb_neq. lia.
  - apply andb_false_iff. right. apply N.leb_gt. lia.
Qed.

Lemma isdigit_not_sign c :
  isdigit c = true -> Ascii.eqb c "-" = false /\ Ascii.eqb c "+" = false.
Proof.
  unfold isdigit. intros H.
  split; apply Ascii.eqb_neq; intros ->; vm_compute in H; discriminate.
Qed.

Lemma digit_value_range c : isdigit c = true -> 0 <= digit_value c <= 9.
Proof.
  unfold isdigit, digit_value. intros H.
  apply andb_true_iff in H. destruct H as [H1 H2].
  apply N.leb_le in H1. apply N.leb_le in H2. lia.
Qed.

Lemma decimal_value_nonneg ds : all_chars isdigit ds = true -> 0 <= decimal_value ds.
Proof.
  induction ds as [|c r IH]; simpl; intros H; [lia|].
  apply andb_true_iff in H. destruct H as [Hc Hr].
  pose proof (digit_value_range c Hc). specialize (IH Hr).
  assert (0 <= 10 ^ Z.of_nat (String.length r)) by (apply Z.pow_nonneg; lia).
  nia.
Qed.

Lemma skip_space_split s :
  exists ws, s = ws ++ skip_space s /\ all_chars isspace ws = true.
Proof.
  induction s as [|c r IH]; simpl.
  - exists ""; auto.
  - destruct (isspace c) eqn:Hc.
    + destruct IH as [ws [E A]]. exists (String c ws). simpl.
      rewrite Hc, A. split; [congruence | reflexivity].
    + exists "". auto.
Qed.

Lemma skip_space_app ws body :
  all_chars isspace ws = true -> skip_space body = body ->
  skip_space (ws ++ body) = body.
Proof.
  induction ws as [|c r IH]; simpl; intros H Hb; [exact Hb|].
  apply andb_true_iff in H. destruct H as [Hc Hr]. rewrite Hc. auto.
Qed.

Lemma read_digits_all ds acc :
  all_chars isdigit ds = true ->
  read_digits acc ds = (acc * 10 ^ Z.of_nat (String.length ds) + decimal_value ds, "").
Proof.
  revert acc.
  induction ds as [|c r IH]; cbn [all_chars read_digits decimal_value String.length];
    intros acc H.
  - f_equal. simpl. lia.
  - apply andb_true_iff in H. destruct H as [Hc Hr]. rewrite Hc, (IH _ Hr).
    f_equal. rewrite Nat2Z.inj_succ, Z.pow_succ_r by lia. ring.
Qed.

Lemma read_digits_split s acc :
  exists ds,
    s = ds ++ snd (read_digits acc s) /\ all_chars isdigit ds = true /\
    fst (read_digits acc s) = acc * 10 ^ Z.of_nat (String.length ds) + decimal_value ds.
Proof.
  revert acc. induction s as [|c r IH]; cbn [read_digits]; intros acc.
  - exists "". simpl. repeat split. lia.
  - destruct (isdigit c) eqn:Hc.
    + destruct (IH (10 * acc + digit_value c)) as [ds [E [A V]]].
      exists (String c ds).
      cbn [all_chars decimal_value String.length append]. rewrite Hc, A.
      repeat split.
      * congruence.
      * rewrite V, Nat2Z.inj_succ, Z.pow_succ_r by lia. ring.
    + exists "". simpl. repeat split. lia.
Qed.

Lemma append_empty_r s : s ++ "" = s.
Proof. induction s; simpl; congruence. Qed.


Lemma digit_string_inv ds :
  digit_string ds ->
  exists c r, ds = String c r /\ isdigit c = true /\ all_chars isdigit ds = true.
Proof.
  intros [Hne Hd]. destruct ds as [|c r]; [congruence|].
  exists c, r. simpl in Hd. apply andb_true_iff in Hd. destruct Hd as [Hc Hr].
  simpl. rewrite Hc, Hr. auto.
Qed.

Lemma accept_no_conversion str : accept str (no_conversion str) = None.
Proof. unfold accept, no_conversion. simpl. destruct str; reflexivity. Qed.

Lemma accept_convert_digits neg ds str v :
  accept str (convert_digits neg ds str) = Some v <->
  str <> "" /\ digit_string ds /\
  v = (if neg then - decimal_value ds else decimal_value ds) /\ Int.in_int_range v.
Proof.
  unfold convert_digits. destruct ds as [|c r] eqn:Eds.
  - rewrite accept_no_conversion. split; [discriminate|].
    intros (_ & [Hne _] & _). congruence.
  - destruct (isdigit c) eqn:Hc.
    2:{ rewrite accept_no_conversion. split; [discriminate|].
        intros (_ & [_ Hd] & _). simpl in Hd. rewrite Hc in Hd. discriminate. }
    rewrite <- Eds.
    destruct (read_digits_split ds 0) as [pre (Epre & Apre & Vpre)].
    destruct (read_digits 0 ds) as [magnitude rest] eqn:Erd. simpl in Epre, Vpre.
    assert (Hmag : 0 <= decimal_value pre) by (apply decimal_value_nonneg; exact Apre).
    split.
    + intros H.
      assert (Hrest : rest = "" /\ str <> "").
      { unfold accept in H.
        repeat match type of H with
               | (if ?b then None else _) = Some _ => destruct b eqn:?; [discriminate|]
               end.
        match goal with
        | Hb : (is_empty str || _)%bool = false |- _ =>
            apply orb_false_iff in Hb; destruct Hb as [Hs He]
        end.
        apply negb_false_iff in He.
        split.
        - repeat match type of He with
                 | context [if ?b then _ else _] => destruct b
                 end; simpl in He; destruct rest; try discriminate; reflexivity.
        - destruct str; [discriminate | congruence]. }
      destruct Hrest as [-> Hstr]. rewrite append_empty_r in Epre. subst pre.
      assert (Hds : digit_string ds) by (split; [congruence | exact Apre]).
      unfold accept in H. unfold Int.in_int_range.
      unfold Int.LONG_MAX, Int.LONG_MIN, Int.INT_MAX, Int.INT_MIN, ERANGE in *.
      destruct neg;
        repeat match type of H with
               | context [if ?b then _ else _] => destruct b eqn:?; simpl in H
               end; try discriminate;
        injection H as <-;
        (split; [exact Hstr|]); (split; [exact Hds|]); (split; [congruence|]);
        simpl in *;
        repeat match goal with
               | Hb : (_ || _)%bool = false |- _ =>
                   apply orb_false_iff in Hb; destruct Hb
               | Hb : (_ <? _) = false |- _ => apply Z.ltb_ge in Hb
               end; lia.
    + intros (Hstr & Hds & -> & Hrange).
      destruct Hds as [_ Hd]. rewrite (read_digits_all ds 0 Hd) in Erd.
      injection Erd as Em Er. subst rest. clear Em.
      rewrite append_empty_r in Epre. subst pre. subst magnitude.
      unfold Int.in_int_range, Int.INT_MAX, Int.INT_MIN in Hrange.
      unfold accept, Int.LONG_MAX, Int.LONG_MIN, Int.INT_MAX, Int.INT_MIN, ERANGE.
      destruct str; [congruence|].
      destruct neg; simpl;
        repeat match goal with
               | |- context [?a <? ?b] =>
                   destruct (Z.ltb_spec a b); try lia; simpl
               | |- context [?a =? ?b] =>
                   destruct (Z.eqb_spec a b); try lia; simpl
               end; reflexivity.
Qed.


Lemma parseInt_accept str : parseInt str = accept str (strtol str).
Proof. reflexivity. Qed.

Lemma skip_space_numeral body v : numeral body v -> skip_space body = body.
Proof.
  intros H. destruct H as [ds Hds | ds Hds | ds Hds]; try reflexivity.
  destruct (digit_string_inv ds Hds) as (c & r & -> & Hc & _).
  simpl. rewrite (isdigit_not_space c Hc). reflexivity.
Qed.

(** C2, as the code has it. [parseInt] returns [v] exactly when the string is
    made of the white space [strtol] skips (possibly none), then a complete
    base-10 numeral, an optional sign followed by at least one digit with
    nothing after it, whose value [v] fits a signed 32-bit integer.  Every
    other string is rejected: the empty string, a sign alone, a string with
    a character that is not part of the numeral after the leading white
    space, a value out of range. *)
Theorem parseInt_padded_numeral s v :
  parseInt s = Some v <-> padded_numeral s v /\ Int.in_int_range v.
Proof.
  rewrite parseInt_accept. unfold strtol. split.
  - destruct (skip_space_split s) as [ws [E A]].
    destruct (skip_space s) as [|c r] eqn:Es1.
    + rewrite accept_no_conversion. discriminate.
    + destruct (Ascii.eqb c "-") eqn:Hm; [|destruct (Ascii.eqb c "+") eqn:Hp].
      * apply Ascii.eqb_eq in Hm. subst c. intros H.
        apply accept_convert_digits in H. destruct H as (_ & Hds & -> & Hr).
        split; [|exact Hr]. exists ws, (String "-" r).
        repeat split; auto. apply numeral_minus. exact Hds.
      * apply Ascii.eqb_eq in Hp. subst c. intros H.
        apply accept_convert_digits in H. destruct H as (_ & Hds & -> & Hr).
        split; [|exact Hr]. exists ws, (String "+" r).
        repeat split; auto. apply numeral_plus. exact Hds.
      * intros H.
        apply accept_convert_digits in H. destruct H as (_ & Hds & -> & Hr).
        split; [|exact Hr]. exists ws, (String c r).
        repeat split; auto. apply numeral_unsigned. exact Hds.
  - intros [(ws & body & -> & A & Hn) Hr].
    rewrite (skip_space_app ws body A (skip_space_numeral body v Hn)).
    assert (Hne : ws ++ body <> "").
    { destruct Hn as [ds [Hne _] | ds _ | ds _];
        destruct ws; simpl; try discriminate. exact Hne. }
    destruct Hn as [ds Hds | ds Hds | ds Hds].
    + destruct (digit_string_inv ds Hds) as (c & r & E & Hc & _).
      destruct (isdigit_not_sign c Hc) as [Hm Hp].
      subst ds. cbv iota. rewrite Hm, Hp.
      apply accept_convert_digits. auto.
    + change (Ascii.eqb "+" "-") with false. change (Ascii.eqb "+" "+") with true.
      cbv iota. apply accept_convert_digits. auto.
    + change (Ascii.eqb "-" "-") with true.
      cbv iota. apply accept_convert_digits. auto.
Qed.

Lemma not_numeral_leading_space r v : ~ numeral (String " " r) v.
Proof.
  intros H. inversion H as [ds [_ Hd] E1 E2| |]; subst.
  simpl in Hd. discriminate.
Qed.

End Parsing.

(** ** Strings, [isSubstr] and the header search *)

Section Strings.

Lemma size_nonneg s : 0 <= Str.size s.
Proof. unfold Str.size. lia. Qed.

Lemma size_t_small z : 0 <= z < Int.SIZE_MODULUS -> Int.size_t z = z.
Proof. intros H. unfold Int.size_t. apply Z.mod_small. exact H. Qed.

Lemma to_int_small z : Int.INT_MIN <= z <= Int.INT_MAX -> Int.to_int z = z.
Proof.
  unfold Int.to_int, Int.INT_MIN, Int.INT_MAX. intros H.
  rewrite Z.mod_small by lia. lia.
Qed.

Lemma get_some_iff s (n : nat) : (exists c, String.get n s = Some c) <-> (n < String.length s)%nat.
Proof.
  revert n. induction s as [|a r IH]; intros n; simpl.
  - split; [intros [c H]; discriminate | lia].
  - destruct n as [|n'].
    + split; [lia | eauto].
    + rewrite IH. lia.
Qed.

Lemma get_none_iff s (n : nat) : String.get n s = None <-> (String.length s <= n)%nat.
Proof.
  destruct (String.get n s) eqn:E.
  - assert (n < String.length s)%nat by (apply get_some_iff; eauto).
    split; [discriminate | lia].
  - split; [|reflexivity]. intros _.
    destruct (Nat.lt_ge_cases n (String.length s)) as [Hlt|Hge]; [|exact Hge].
    apply get_some_iff in Hlt. destruct Hlt as [c Hc]. congruence.
Qed.

(** In range, [char_at] is [String.get]. *)
Lemma char_at_get s (n : nat) :
  (n < String.length s)%nat -> String.get n s = Some (Str.char_at s (Z.of_nat n)).
Proof.
  intros H. unfold Str.char_at, Str.size.
  replace ((0 <=? Z.of_nat n) && (Z.of_nat n <? Z.of_nat (String.length s)))%bool with true.
  - rewrite Nat2Z.id. apply get_some_iff in H. destruct H as [c ->]. reflexivity.
  - symmetry. apply andb_true_iff. split; [apply Z.leb_le | apply Z.ltb_lt]; lia.
Qed.

Lemma substring_length s (n m : nat) :
  (n + m <= String.length s)%nat -> String.length (String.substring n m s) = m.
Proof.
  revert n m. induction s as [|a r IH]; intros n m H; simpl in *.
  - destruct n, m; simpl in *; try lia; reflexivity.
  - destruct n as [|n'].
    + destruct m as [|m']; simpl; [reflexivity|]. rewrite IH by lia. reflexivity.
    + apply IH. lia.
Qed.

(** Two strings agree on a window exactly when they agree character by
    character. *)
Lemma substring_eq_iff s t (p : nat) :
  (p + String.length t <= String.length s)%nat ->
  String.substring p (String.length t) s = t <->
  forall j : nat, (j < String.length t)%nat ->
                  Str.char_at s (Z.of_nat (p + j)) = Str.char_at t (Z.of_nat j).
Proof.
  intros Hlen. split.
  - intros E j Hj.
    assert (G : String.get j (String.substring p (String.length t) s) = String.get j t)
      by (rewrite E; reflexivity).
    rewrite substring_correct1 in G by exact Hj.
    rewrite (char_at_get t j Hj) in G.
    replace (j + p)%nat with (p + j)%nat in G by lia.
    rewrite (char_at_get s (p + j)) in G by lia.
    congruence.
  - intros H. apply get_correct. intros n.
    destruct (Nat.lt_ge_cases n (String.length t)) as [Hlt|Hge].
    + rewrite substring_correct1 by exact Hlt.
      replace (n + p)%nat with (p + n)%nat by lia.
      rewrite (char_at_get s (p + n)) by lia.
      rewrite (char_at_get t n Hlt). f_equal. apply H. exact Hlt.
    + rewrite substring_correct2 by exact Hge.
      symmetry. apply get_none_iff. exact Hge.
Qed.

Lemma char_at_head a r : Str.char_at (String a r) 0 = a.
Proof.
  unfold Str.char_at, Str.size. cbn [String.length].
  destruct (Z.ltb_spec 0 (Z.of_nat (S (String.length r)))); [reflexivity | lia].
Qed.

Lemma char_at_tail a r j : 0 <= j -> Str.char_at (String a r) (j + 1) = Str.char_at r j.
Proof.
  intros Hj. unfold Str.char_at, Str.size. cbn [String.length].
  replace (Z.to_nat (j + 1)) with (S (Z.to_nat j)) by lia. cbn [String.get].
  destruct (Z.leb_spec 0 (j + 1)); [|lia].
  destruct (Z.leb_spec 0 j); [|lia].
  destruct (Z.ltb_spec (j + 1) (Z.of_nat (S (String.length r))));
    destruct (Z.ltb_spec j (Z.of_nat (String.length r))); try lia; reflexivity.
Qed.

Lemma first_line_end_length s : first_line_end s (Z.of_nat (first_line_length s)).
Proof.
  induction s as [|a r IH]; cbn [first_line_length].
  - unfold first_line_end, Str.size. simpl. repeat split; lia.
  - destruct (Ascii.eqb_spec a CLib.newline) as [E|NE].
    + unfold first_line_end, Str.size. cbn [String.length Z.of_nat].
      repeat split; try lia. intros _. rewrite char_at_head. exact E.
    + destruct IH as (Hk & Hbefore & Hat). unfold first_line_end, Str.size in *.
      cbn [String.length]. repeat split; try lia.
      * intros j Hj. destruct (Z.eq_dec j 0) as [->|Hne].
        -- rewrite char_at_head. exact NE.
        -- replace j with (j - 1 + 1) by lia. rewrite char_at_tail by lia.
           apply Hbefore. lia.
      * intros Hlt. replace (Z.of_nat (S (first_line_length r)))
          with (Z.of_nat (first_line_length r) + 1) by lia.
        rewrite char_at_tail by lia. apply Hat. lia.
Qed.

End Strings.

Section Substring.

Lemma isSubstr_loop_true_iff s t p (n : nat) (i : nat) :
  0 <= p -> p + Str.size t < Str.size s -> Str.size s < Int.SIZE_MODULUS ->
  (i + n = String.length t)%nat ->
  isSubstr_loop s t p n (Z.of_nat i) = true <->
  forall j : nat, (i <= j < String.length t)%nat ->
                  Str.char_at s (p + Z.of_nat j) = Str.char_at t (Z.of_nat j).
Proof.
  intros Hp Hlt Hs. unfold Str.size in *. revert i.
  induction n as [|n IH]; intros i Hi; cbn [isSubstr_loop].
  - split; [|reflexivity]. intros _ j Hj. lia.
  - rewrite (size_t_small (p + Z.of_nat i)) by lia.
    rewrite (size_t_small (Z.of_nat i + 1)) by lia.
    destruct (Ascii.eqb_spec (Str.char_at s (p + Z.of_nat i)) (Str.char_at t (Z.of_nat i)))
      as [E|NE]; cbn [negb].
    + replace (Z.of_nat i + 1) with (Z.of_nat (S i)) by lia.
      rewrite IH by lia. split.
      * intros H j Hj. destruct (Nat.eq_dec j i) as [->|Hne]; [exact E|].
        apply H. lia.
      * intros H j Hj. apply H. lia.
    + split; [discriminate|]. intros H. exfalso. apply NE. apply H. lia.
Qed.

(** [isSubstr] finds [t] at [p] exactly when [t] is there and at least one
    more character follows it. *)
Lemma isSubstr_true_iff s t (p : nat) :
  Str.size s < Int.SIZE_MODULUS -> Z.of_nat p + Str.size t < Int.SIZE_MODULUS ->
  isSubstr s t (Z.of_nat p) = true <->
  Z.of_nat p + Str.size t < Str.size s /\ String.substring p (String.length t) s = t.
Proof.
  intros Hs Hpt. unfold isSubstr.
  pose proof (size_nonneg t) as Ht.
  destruct (Z.lt_ge_cases (Z.of_nat p + Str.size t) (Str.size s)) as [Hlt|Hge].
  - rewrite size_t_small by lia.
    destruct (Z.leb_spec (Str.size s) (Z.of_nat p + Str.size t)) as [H|_]; [lia|].
    rewrite (isSubstr_loop_true_iff s t (Z.of_nat p) _ 0%nat) by (unfold Str.size in *; lia).
    rewrite substring_eq_iff by (unfold Str.size in *; lia).
    split.
    + intros H. split; [exact Hlt|]. intros j Hj.
      rewrite Nat2Z.inj_add. apply H. lia.
    + intros [_ H] j Hj. rewrite <- Nat2Z.inj_add. apply H. lia.
  - split; [|lia]. intros H. exfalso.
    rewrite size_t_small in H by lia.
    destruct (Z.leb_spec (Str.size s) (Z.of_nat p + Str.size t)); [discriminate | lia].
Qed.

Lemma idle_marker_size : Str.size idle_marker = 5.
Proof. reflexivity. Qed.

(** The header loop: where the first line ends, and the last place on it at
    which [isSubstr] saw the marker. *)
Lemma find_idle_inv buffer k :
  Str.size buffer <= Int.INT_MAX -> first_line_end buffer k ->
  forall (n i : nat) off0,
    (i + n = String.length buffer)%nat -> Z.of_nat i <= k ->
    let '(off, sls) := find_idle buffer n (Z.of_nat i) off0 in
    sls = (if k <? Str.size buffer then k + 1 else 0) /\
    ((off = off0 /\
      forall j, Z.of_nat i <= j <= k -> isSubstr buffer idle_marker j = false) \/
     (Z.of_nat i <= off <= k /\ isSubstr buffer idle_marker off = true /\
      forall j, off < j <= k -> isSubstr buffer idle_marker j = false)).
Proof.
  intros Hb (Hk & Hbefore & Hat). unfold Int.INT_MAX in Hb.
  assert (Hend : isSubstr buffer idle_marker (Str.size buffer) = false).
  { unfold isSubstr. rewrite idle_marker_size.
    rewrite size_t_small by (unfold Int.SIZE_MODULUS; pose proof (size_nonneg buffer); lia).
    destruct (Z.leb_spec (Str.size buffer) (Str.size buffer + 5)); [reflexivity | lia]. }
  induction n as [|n IH]; intros i off0 Hi Hik; cbn [find_idle].
  - assert (k = Str.size buffer) by (unfold Str.size in *; lia). subst k.
    rewrite Z.ltb_irrefl. split; [reflexivity|]. left. split; [reflexivity|].
    intros j Hj. replace j with (Str.size buffer) by (unfold Str.size in *; lia).
    exact Hend.
  - assert (Hi' : Z.of_nat i < Str.size buffer) by (unfold Str.size; lia).
    rewrite (to_int_small (Z.of_nat i)) by (unfold Int.INT_MIN, Int.INT_MAX; lia).
    destruct (Ascii.eqb_spec (Str.char_at buffer (Z.of_nat i)) CLib.newline) as [Enl|Nnl].
    + assert (k = Z.of_nat i).
      { destruct (Z.eq_dec k (Z.of_nat i)) as [E|NE]; [exact E|].
        exfalso. apply (Hbefore (Z.of_nat i)); [lia | exact Enl]. }
      subst k. rewrite size_t_small by (unfold Int.SIZE_MODULUS; lia).
      destruct (Z.ltb_spec (Z.of_nat i) (Str.size buffer)) as [_|]; [|lia].
      split; [reflexivity|].
      destruct (isSubstr buffer idle_marker (Z.of_nat i)) eqn:Em.
      * right. split; [lia|]. split; [exact Em|]. intros j Hj. lia.
      * left. split; [reflexivity|]. intros j Hj.
        replace j with (Z.of_nat i) by lia. exact Em.
    + assert (Hlt : Z.of_nat i < k).
      { destruct (Z.eq_dec k (Z.of_nat i)) as [E|NE]; [|lia].
        exfalso. apply Nnl. rewrite <- E. apply Hat. lia. }
      rewrite (size_t_small (Z.of_nat i + 1)) by (unfold Int.SIZE_MODULUS; lia).
      replace (Z.of_nat i + 1) with (Z.of_nat (S i)) by lia.
      specialize (IH (S i)
                     (if isSubstr buffer idle_marker (Z.of_nat i) then Z.of_nat i else off0)).
      destruct (find_idle buffer n (Z.of_nat (S i)) _) as [off sls].
      destruct IH as [Hs Hoff]; [lia | lia |].
      split; [exact Hs|].
      destruct (isSubstr buffer idle_marker (Z.of_nat i)) eqn:Em.
      * right. destruct Hoff as [[-> Hno] | (Hr & Hm & Hno)].
        -- split; [lia|]. split; [exact Em|]. intros j Hj. apply Hno. lia.
        -- split; [lia|]. split; [exact Hm|]. exact Hno.
      * destruct Hoff as [[-> Hno] | (Hr & Hm & Hno)].
        -- left. split; [reflexivity|]. intros j Hj.
           destruct (Z.eq_dec j (Z.of_nat i)) as [->|NE]; [exact Em|]. apply Hno. lia.
        -- right. split; [lia|]. split; [exact Hm|]. exact Hno.
Qed.


Lemma substring_clip s (n m : nat) :
  String.substring n (Nat.min m (String.length s - n)) s = String.substring n m s.
Proof.
  revert n m. induction s as [|a r IH]; intros n m.
  - destruct n, m; reflexivity.
  - destruct n as [|n'].
    + destruct m as [|m']; [reflexivity|].
      cbn [String.length Nat.sub Nat.min String.substring]. f_equal.
      rewrite <- (IH 0%nat m'). rewrite Nat.sub_0_r. reflexivity.
    + cbn [String.length Nat.sub String.substring]. apply IH.
Qed.

(** In range, [substr] is [String.substring]. *)
Lemma substr_in_range s (pos len : nat) :
  (pos <= String.length s)%nat ->
  Str.substr s (Z.of_nat pos) (Z.of_nat len) = Returned (String.substring pos len s).
Proof.
  intros H. unfold Str.substr, Str.size.
  destruct (Z.ltb_spec (Z.of_nat (String.length s)) (Z.of_nat pos)) as [Hc|_]; [lia|].
  f_equal. rewrite Nat2Z.id.
  replace (Z.to_nat (Z.min (Z.of_nat len) (Z.of_nat (String.length s) - Z.of_nat pos)))
    with (Nat.min len (String.length s - pos)) by lia.
  apply substring_clip.
Qed.

Lemma idle_marker_no_newline (j : nat) :
  (j < 5)%nat -> Str.char_at idle_marker (Z.of_nat j) <> CLib.newline.
Proof.
  intros H. do 5 (destruct j as [|j]; [vm_compute; discriminate|]). lia.
Qed.

(** A marker that starts on the first line ends on it. *)
Lemma marker_within_first_line buffer k (p : nat) :
  Str.size buffer <= Int.INT_MAX -> first_line_end buffer k ->
  Z.of_nat p <= k -> isSubstr buffer idle_marker (Z.of_nat p) = true ->
  Z.of_nat p + 5 <= k /\ String.substring p 5 buffer = idle_marker.
Proof.
  intros Hb (Hk & Hbefore & Hat) Hpk Hm. unfold Int.INT_MAX in Hb.
  pose proof (size_nonneg buffer) as Hs.
  apply isSubstr_true_iff in Hm;
    [| unfold Int.SIZE_MODULUS; lia | rewrite idle_marker_size; unfold Int.SIZE_MODULUS; lia].
  rewrite idle_marker_size in Hm. destruct Hm as [Hlt Hsub].
  change (String.length idle_marker) with 5%nat in Hsub.
  split; [|exact Hsub].
  destruct (Z.lt_ge_cases k (Z.of_nat p + 5)) as [Hin|]; [|lia].
  exfalso.
  assert (Hk' : k < Str.size buffer) by lia.
  specialize (Hat Hk').
  pose proof (proj1 (substring_eq_iff buffer idle_marker p
                       ltac:(change (String.length idle_marker) with 5%nat;
                             unfold Str.size in *; lia)) Hsub) as Hchars.
  specialize (Hchars (Z.to_nat (k - Z.of_nat p))
                     ltac:(change (String.length idle_marker) with 5%nat; lia)).
  replace (Z.of_nat (p + Z.to_nat (k - Z.of_nat p))) with k in Hchars by lia.
  apply (idle_marker_no_newline (Z.to_nat (k - Z.of_nat p))); [lia|].
  congruence.
Qed.

End Substring.

Section CpuSampler.

Variable w : World.
Variable buffer : string.
Hypothesis sar_prints : pipe_output (env w) (tick w) sar_cmd = Some buffer.
Hypothesis buffer_small : Str.size buffer <= Int.INT_MAX.

Local Abbreviation w1 := (emit (EvReadCommand sar_cmd (Some buffer)) w).

Lemma checkCpu_unfold previous :
  checkCpu previous w =
  let '(idleOffset, secondLineStart) := find_idle buffer (String.length buffer) 0 (-1) in
  if idleOffset =? -1 then
    (Returned (Float.zero, buffer), emit (EvPrintf no_idle_message []) w1)
  else
    match Str.substr buffer (Int.size_t (secondLineStart + idleOffset + 2)) 3 with
    | Threw e => (Threw e, w1)
    | Returned numberPart =>
        match parseInt (CLib.c_str numberPart) with
        | None =>
            (Returned (Float.zero, buffer),
             emit (EvPrintf
                     "Failed to parse number '%s' from 'sar --dec=0 1 1 | tail -n 3' output '%s'\n"
                     [ArgStr numberPart; ArgStr buffer]) w1)
        | Some parsedNumber => (Returned (Float.of_int (100 - parsedNumber), buffer), w1)
        end
    end.
Proof.
  unfold checkCpu, bind, readCommandOutput. rewrite sar_prints.
  cbn [append].
  unfold ret at 1.
  destruct (find_idle buffer (String.length buffer) 0 (-1)) as [off sls].
  destruct (off =? -1); [reflexivity|].
  unfold lift. destruct (Str.substr buffer _ 3); [|reflexivity].
  destruct (parseInt _); reflexivity.
Qed.

Lemma checkCpu_marker_found previous (k c : nat) v :
  first_line_end buffer (Z.of_nat k) -> (k < String.length buffer)%nat ->
  (c + 5 <= k)%nat -> String.substring c 5 buffer = idle_marker ->
  (forall j : nat, (c < j)%nat -> (j + 5 <= k)%nat ->
                   String.substring j 5 buffer <> idle_marker) ->
  (k + 1 + c + 2 <= String.length buffer)%nat ->
  parseInt (CLib.c_str (String.substring (k + 1 + c + 2) 3 buffer)) = Some v ->
  checkCpu previous w = (Returned (Float.of_int (100 - v), buffer), w1).
Proof.
  intros Hk Hnl Hck Hsub Hlast Hfield Hparse.
  rewrite checkCpu_unfold.
  pose proof (find_idle_inv buffer (Z.of_nat k) buffer_small Hk
                            (String.length buffer) 0%nat (-1)) as Hinv.
  cbn [Z.of_nat] in Hinv.
  destruct (find_idle buffer (String.length buffer) 0 (-1)) as [off sls].
  destruct Hinv as [Hsls Hoff]; [lia | lia |].
  unfold Int.INT_MAX in buffer_small. unfold Str.size in *.
  assert (Hc : isSubstr buffer idle_marker (Z.of_nat c) = true).
  { apply isSubstr_true_iff.
    - unfold Str.size, Int.SIZE_MODULUS. lia.
    - rewrite idle_marker_size. unfold Int.SIZE_MODULUS. lia.
    - rewrite idle_marker_size. unfold Str.size. split; [lia | exact Hsub]. }
  assert (Eoff : off = Z.of_nat c).
  { destruct Hoff as [[_ Hno] | (Hr & Hm & Hno)].
    - rewrite Hno in Hc by lia. discriminate.
    - destruct (Z.lt_trichotomy off (Z.of_nat c)) as [Hlt | [E | Hgt]]; [|exact E|].
      + rewrite Hno in Hc by lia. discriminate.
      + exfalso.
        replace off with (Z.of_nat (Z.to_nat off)) in Hm by lia.
        destruct (marker_within_first_line buffer (Z.of_nat k) (Z.to_nat off)) as [H5 Hs];
          [unfold Int.INT_MAX, Str.size; lia | exact Hk | lia | exact Hm |].
        apply (Hlast (Z.to_nat off)); [lia | lia | exact Hs]. }
  subst off.
  destruct (Z.eqb_spec (Z.of_nat c) (-1)) as [E|_]; [lia|].
  destruct (Z.ltb_spec (Z.of_nat k) (Z.of_nat (String.length buffer))) as [_|]; [|lia].
  subst sls.
  rewrite size_t_small by (unfold Int.SIZE_MODULUS; lia).
  replace (Z.of_nat k + 1 + Z.of_nat c + 2) with (Z.of_nat (k + 1 + c + 2)) by lia.
  pose proof (substr_in_range buffer (k + 1 + c + 2) 3 Hfield) as Hfld.
  change (Z.of_nat 3) with 3 in Hfld. rewrite Hfld, Hparse. reflexivity.
Qed.

Lemma checkCpu_marker_absent previous (k : nat) :
  first_line_end buffer (Z.of_nat k) ->
  (forall j : nat, (j + 5 <= k)%nat -> String.substring j 5 buffer <> idle_marker) ->
  checkCpu previous w =
  (Returned (Float.zero, buffer), emit (EvPrintf no_idle_message []) w1).
Proof.
  intros Hk Hnone.
  rewrite checkCpu_unfold.
  pose proof (find_idle_inv buffer (Z.of_nat k) buffer_small Hk
                            (String.length buffer) 0%nat (-1)) as Hinv.
  cbn [Z.of_nat] in Hinv.
  destruct (find_idle buffer (String.length buffer) 0 (-1)) as [off sls].
  destruct Hinv as [_ Hoff]; [lia | lia |].
  destruct Hoff as [[-> _] | (Hr & Hm & _)]; [reflexivity|].
  exfalso.
  replace off with (Z.of_nat (Z.to_nat off)) in Hm by lia.
  destruct (marker_within_first_line buffer (Z.of_nat k) (Z.to_nat off)) as [H5 Hs];
    [exact buffer_small | exact Hk | lia | exact Hm |].
  apply (Hnone (Z.to_nat off)); [lia | exact Hs].
Qed.

Lemma find_idle_found_strict :
  let off := fst (find_idle buffer (String.length buffer) 0 (-1)) in
  off <> -1 ->
  0 <= off /\ off + Str.size idle_marker < Str.size buffer /\
  String.substring (Z.to_nat off) 5 buffer = idle_marker.
Proof.
  pose proof (first_line_end_length buffer) as Hk.
  pose proof (find_idle_inv buffer _ buffer_small Hk (String.length buffer) 0%nat (-1)) as Hinv.
  cbn [Z.of_nat] in Hinv.
  destruct (find_idle buffer (String.length buffer) 0 (-1)) as [off sls].
  destruct Hinv as [_ Hoff]; [lia | lia |]. cbn [fst].
  intros Hne. destruct Hoff as [[-> _] | (Hr & Hm & _)]; [congruence|].
  replace off with (Z.of_nat (Z.to_nat off)) in Hm by lia.
  unfold Int.INT_MAX in buffer_small. pose proof (size_nonneg buffer).
  apply isSubstr_true_iff in Hm;
    [| unfold Int.SIZE_MODULUS; lia
     | rewrite idle_marker_size; destruct Hk as [Hk _]; unfold Int.SIZE_MODULUS; lia].
  destruct Hm as [Hlt Hs]. split; [lia|]. split; [lia | exact Hs].
Qed.

Lemma checkCpu_marker_at_end previous :
  (forall j : nat, String.substring j 5 buffer = idle_marker ->
                   (j + 5 = String.length buffer)%nat) ->
  checkCpu previous w =
  (Returned (Float.zero, buffer), emit (EvPrintf no_idle_message []) w1).
Proof.
  intros Honly. rewrite checkCpu_unfold.
  pose proof find_idle_found_strict as Hf. cbv zeta in Hf.
  destruct (find_idle buffer (String.length buffer) 0 (-1)) as [off sls].
  cbn [fst] in Hf.
  destruct (Z.eqb_spec off (-1)) as [E|NE]; [reflexivity|].
  exfalso. destruct (Hf NE) as (H0 & Hlt & Hs).
  specialize (Honly _ Hs). rewrite idle_marker_size in Hlt. unfold Str.size in Hlt. lia.
Qed.

End CpuSampler.

(** ** Worlds and traces *)

Section Worlds.

Lemma extends_refl w : extends w w [].
Proof. unfold extends. rewrite app_nil_r. repeat split. simpl. lia. Qed.

Lemma extends_emit w e : extends w (emit e w) [e].
Proof. unfold extends, emit. simpl. repeat split. lia. Qed.

Lemma extends_trans w1 w2 w3 evs evs' :
  extends w1 w2 evs -> extends w2 w3 evs' -> extends w1 w3 (evs ++ evs').
Proof.
  unfold extends. intros (E1 & T1 & Tr1) (E2 & T2 & Tr2).
  rewrite E2, E1, T2, T1, Tr2, Tr1, length_app, app_assoc. repeat split. lia.
Qed.

Lemma new_events_extends w w' evs : extends w w' evs -> new_events w w' = evs.
Proof.
  intros (_ & _ & Tr). unfold new_events. rewrite Tr.
  rewrite skipn_app, skipn_all, Nat.sub_diag. reflexivity.
Qed.

Lemma saved_commands_app a b :
  saved_commands (a ++ b) = (saved_commands a ++ saved_commands b)%list.
Proof.
  induction a as [|e a IH]; [reflexivity|].
  destruct e; simpl; rewrite ?IH; reflexivity.
Qed.

Lemma notifications_app a b :
  notifications (a ++ b) = (notifications a ++ notifications b)%list.
Proof.
  induction a as [|e a IH]; [reflexivity|].
  destruct e; simpl; rewrite ?IH; reflexivity.
Qed.

Lemma read_commands_app a b :
  read_commands (a ++ b) = (read_commands a ++ read_commands b)%list.
Proof.
  induction a as [|e a IH]; [reflexivity|].
  destruct e; simpl; rewrite ?IH; reflexivity.
Qed.

Lemma sampling_no_capture evs :
  forallb is_sampling evs = true -> saved_commands evs = [] /\ notifications evs = [].
Proof.
  induction evs as [|e evs IH]; [auto|]. simpl. intros H.
  apply andb_true_iff in H. destruct H as [He Hr]. destruct (IH Hr) as [-> ->].
  destruct e; simpl in He; try discriminate; auto.
Qed.

End Worlds.

Section Monad.

Context {A B : Type}.

Lemma adds_at_most_bind p (m : M A) (f : A -> M B) :
  adds_at_most p m -> (forall a, adds_at_most p (f a)) -> adds_at_most p (bind m f).
Proof.
  intros Hm Hf w. unfold bind.
  destruct (Hm w) as (evs & Hx & Hp).
  destruct (m w) as [[a|e] w1] eqn:Em; cbn [snd] in *.
  - destruct (Hf a w1) as (evs' & Hx' & Hp').
    exists (evs ++ evs')%list. split.
    + eapply extends_trans; eauto.
    + rewrite forallb_app, Hp, Hp'. reflexivity.
  - exists evs. auto.
Qed.

Lemma adds_only_bind p (m : M A) (f : A -> M B) :
  adds_only p m -> (forall a, adds_only p (f a)) -> adds_only p (bind m f).
Proof.
  intros Hm Hf w. unfold bind.
  destruct (Hm w) as (a & evs & Hr & Hx & Hp).
  rewrite Hr. destruct (Hf a (snd (m w))) as (b & evs' & Hr' & Hx' & Hp').
  exists b, (evs ++ evs')%list. split; [|split].
  - rewrite Hr' at 1. reflexivity.
  - eapply extends_trans; eauto.
  - rewrite forallb_app, Hp, Hp'. reflexivity.
Qed.

Lemma adds_only_at_most p (m : M A) : adds_only p m -> adds_at_most p m.
Proof. intros H w. destruct (H w) as (a & evs & _ & Hx & Hp). eauto. Qed.

End Monad.

Section Primitives.

Lemma adds_only_ret {A} p (a : A) : adds_only p (ret a).
Proof.
  intros w. exists a, []. split; [reflexivity | split; [apply extends_refl | reflexivity]].
Qed.

Lemma adds_only_printf p fmt args :
  p (EvPrintf fmt args) = true -> adds_only p (printf fmt args).
Proof.
  intros H w. exists tt, [EvPrintf fmt args]. split; [reflexivity | split; [apply extends_emit | simpl; rewrite H; reflexivity]].
Qed.

Lemma adds_only_now p : (forall t, p (EvNow t) = true) -> adds_only p now.
Proof.
  intros H w. exists (clock (env w) (tick w)), [EvNow (clock (env w) (tick w))].
  split; [reflexivity | split; [apply extends_emit | simpl; rewrite H; reflexivity]].
Qed.

Lemma adds_only_system p cmd :
  (forall rc, p (EvSystem cmd rc) = true) -> adds_only p (system cmd).
Proof.
  intros H w. eexists _, [_].
  split; [reflexivity | split; [apply extends_emit | simpl; rewrite H; reflexivity]].
Qed.

Lemma adds_only_sleep p s :
  (forall n, p (EvSleep n) = true) -> adds_only p (sleep s).
Proof.
  intros H w. eexists _, [_].
  split; [reflexivity | split; [apply extends_emit | simpl; rewrite H; reflexivity]].
Qed.

Lemma adds_only_readCommandOutput p cmd out :
  (forall r, p (EvReadCommand cmd r) = true) -> adds_only p (readCommandOutput cmd out).
Proof.
  intros H w. unfold readCommandOutput.
  destruct (pipe_output (env w) (tick w) cmd) eqn:E;
    eexists _, [_];
    (split; [reflexivity | split; [apply extends_emit | simpl; rewrite H; reflexivity]]).
Qed.

Lemma adds_at_most_lift {A} p (o : outcome A) : adds_at_most p (lift o).
Proof. intros w. exists []. simpl. split; [apply extends_refl | reflexivity]. Qed.

End Primitives.

Section Throttle.

Variable args : Args.
Variable errorTitle : string.
Variable pct : spec_float.
Hypothesis script_set : runCustomScript args <> "".

Local Abbreviation cooldown := (seconds (notificationThrottleSec args)).
Local Abbreviation command := (NotifyCommand (runCustomScript args) errorTitle pct).

Lemma trySendNotification_run lastSendTime w :
  let timeNow := clock (env w) (tick w) in
  let w1 := emit (EvNow timeNow) w in
  let rc := script_exit (env w) (S (tick w)) command in
  let w2 := emit (EvSystem command rc) w1 in
  trySendNotification args lastSendTime errorTitle pct w =
  if lastSendTime + cooldown <? timeNow then
    (Returned timeNow,
     if rc =? 0 then w2 else emit (EvPrintf script_failed_message [ArgInt rc]) w2)
  else (Returned lastSendTime, w1).
Proof.
  assert (Hne : is_empty (runCustomScript args) = false)
    by (destruct (runCustomScript args); [congruence | reflexivity]).
  unfold trySendNotification. rewrite Hne. cbn [negb].
  unfold bind, now. cbv zeta.
  destruct (lastSendTime + cooldown <? clock (env w) (tick w)); [|reflexivity].
  unfold system. cbn [env tick emit].
  destruct (script_exit (env w) (S (tick w)) command =? 0); reflexivity.
Qed.

Lemma trySendNotification_events lastSendTime w :
  let timeNow := clock (env w) (tick w) in
  let permitted := lastSendTime + cooldown <? timeNow in
  exists w',
    trySendNotification args lastSendTime errorTitle pct w =
      (Returned (if permitted then timeNow else lastSendTime), w') /\
    notifications (new_events w w') = (if permitted then [command] else []) /\
    saved_commands (new_events w w') = [] /\
    (permitted = true -> In (EvNow timeNow) (new_events w w')).
Proof.
  cbv zeta. rewrite trySendNotification_run. cbv zeta.
  destruct (lastSendTime + cooldown <? clock (env w) (tick w)).
  - eexists. split; [reflexivity|].
    destruct (script_exit (env w) (S (tick w)) command =? 0).
    + erewrite new_events_extends
        by (eapply extends_trans; [apply extends_emit | apply extends_emit]).
      simpl. auto.
    + erewrite new_events_extends
        by (eapply extends_trans;
            [eapply extends_trans; [apply extends_emit | apply extends_emit]
            | apply extends_emit]).
      simpl. auto.
  - eexists. split; [reflexivity|].
    erewrite new_events_extends by apply extends_emit. simpl.
    repeat split; auto; try discriminate.
Qed.

Hypothesis cooldown_nonneg : 0 <= notificationThrottleSec args.

Lemma cooldown_nonneg' : 0 <= cooldown.
Proof. unfold seconds, ticks_per_second. lia. Qed.

(** Every dispatch of a run is later than [lastSendTime + cooldown], and the
    dispatches are spaced by more than the cooldown. *)
Lemma breaches_spaced ws : forall lastSendTime,
  Forall (fun t => lastSendTime + cooldown < t)
         (dispatch_times (breaches args errorTitle pct lastSendTime ws)) /\
  spaced cooldown (dispatch_times (breaches args errorTitle pct lastSendTime ws)).
Proof.
  pose proof cooldown_nonneg' as Hc.
  induction ws as [|w ws IH]; intros lastSendTime; cbn [breaches].
  - split; constructor.
  - destruct (trySendNotification_events lastSendTime w) as (w' & Hrun & Hn & _).
    cbv zeta in Hrun, Hn. rewrite Hrun, Hn.
    destruct (Z.ltb_spec (lastSendTime + cooldown) (clock (env w) (tick w))) as [Hlt|Hge].
    + destruct (IH (clock (env w) (tick w))) as [Hall Hsp].
      unfold dispatch_times in *. cbn [List.length Nat.eqb negb filter snd map fst].
      split.
      * constructor; [exact Hlt|].
        eapply Forall_impl; [|exact Hall]. cbv beta. intros t Ht. lia.
      * constructor; assumption.
    + unfold dispatch_times in *. cbn [List.length Nat.eqb negb filter snd].
      apply IH.
Qed.

End Throttle.

Section Samplers.

Local Ltac quiet_step :=
  first
    [ apply adds_only_at_most, adds_only_ret
    | apply adds_only_at_most, adds_only_printf; reflexivity
    | apply adds_only_at_most, adds_only_readCommandOutput; reflexivity
    | apply adds_at_most_lift
    | apply adds_at_most_bind; [|intros ?] ].

Lemma getFreePartValue_sampling buffer partIndex :
  adds_at_most is_sampling (getFreePartValue buffer partIndex).
Proof.
  unfold getFreePartValue. cbv zeta. destruct (scan_field _ _ _ _ _) as [numberStart numberLen].
  quiet_step; [quiet_step|].
  destruct (parseInt _); [quiet_step|].
  quiet_step; quiet_step.
Qed.

Lemma checkMemory_sampling buffer : adds_at_most is_sampling (checkMemory buffer).
Proof.
  unfold checkMemory. quiet_step; [quiet_step|].
  destruct a as [hasExecuted text].
  quiet_step; [destruct hasExecuted; quiet_step|].
  quiet_step; [apply getFreePartValue_sampling|].
  quiet_step; [apply getFreePartValue_sampling|].
  quiet_step.
Qed.

Lemma checkCpu_sampling buffer : adds_at_most is_sampling (checkCpu buffer).
Proof.
  unfold checkCpu. quiet_step; [quiet_step|].
  destruct a as [hasExecuted text].
  quiet_step; [destruct hasExecuted; quiet_step|].
  destruct (find_idle _ _ _ _) as [idleOffset secondLineStart].
  destruct (idleOffset =? -1).
  - quiet_step; quiet_step.
  - quiet_step; [quiet_step|].
    destruct (parseInt _); [quiet_step|].
    quiet_step; quiet_step.
Qed.

(** What a sampler adds to the trace holds no capture and no notification. *)
Lemma sampling_events {A} (m : M A) w :
  adds_at_most is_sampling m ->
  exists evs, extends w (snd (m w)) evs /\ saved_commands evs = [] /\ notifications evs = [].
Proof.
  intros H. destruct (H w) as (evs & Hx & Hp).
  exists evs. split; [exact Hx|]. apply sampling_no_capture. exact Hp.
Qed.

End Samplers.

Section Captures.

Local Ltac emitted :=
  unfold extends; cbn [env tick trace emit];
  (split; [reflexivity|]);
  (split; [|rewrite <- ?app_assoc; reflexivity]);
  cbn; lia.

Lemma saveCommandOutput_loop_crash chunks outFile e : forall written,
  saveCommandOutput_loop chunks outFile written = Threw e ->
  e = fputs_null_stream /\ outFile = None /\ chunks <> [].
Proof.
  induction chunks as [|c chunks IH]; intros written; cbn [saveCommandOutput_loop];
    [discriminate|].
  destruct outFile as [fputs_ok|].
  - destruct (fputs_ok written); [|discriminate]. intros H.
    destruct (IH _ H) as (_ & Hnone & _). discriminate.
  - intros H. injection H as <-. repeat split. discriminate.
Qed.

(** A call of [saveCommandOutput] returns, or crashes in [fputs]. *)
Lemma saveCommandOutput_cases cmd file w :
  (exists ok, saveCommandOutput cmd file w = (Returned ok, emit (EvSaveCommand cmd file ok) w)) \/
  saveCommandOutput cmd file w = (Threw fputs_null_stream, emit (EvSaveCrash cmd file) w).
Proof.
  unfold saveCommandOutput. cbv zeta.
  destruct (popen_chunks _) as [chunks|]; [|left; exists false; reflexivity].
  destruct (saveCommandOutput_loop chunks _ 0) as [ok|e] eqn:E.
  - left. exists ok. reflexivity.
  - right. destruct (saveCommandOutput_loop_crash _ _ _ _ E) as [-> _]. reflexivity.
Qed.

(** It crashes when the command prints and the file could not be opened. *)
Lemma saveCommandOutput_unopened cmd file w chunk chunks :
  popen_chunks (save_result (env w) (tick w) cmd file) = Some (chunk :: chunks) ->
  fopen_file (save_result (env w) (tick w) cmd file) = None ->
  saveCommandOutput cmd file w = (Threw fputs_null_stream, emit (EvSaveCrash cmd file) w).
Proof. intros Hp Hf. unfold saveCommandOutput. cbv zeta. rewrite Hp, Hf. reflexivity. Qed.

Local Ltac save_step ok E :=
  match goal with
  | |- context [saveCommandOutput ?c ?f ?w0] =>
      destruct (saveCommandOutput_cases c f w0) as [[ok E]|E]; rewrite E
  end.

Lemma memory_capture_events pct w :
  match memory_capture pct w with
  | (Returned _, w') =>
      exists timeNow ok1 ok2, extends w w' (memory_capture_trace pct timeNow ok1 ok2)
  | (Threw e, w') =>
      e = fputs_null_stream /\
      exists timeNow first, extends w w' (memory_capture_crash_trace pct timeNow first)
  end.
Proof.
  unfold memory_capture, bind, now. cbv zeta.
  save_step ok1 E1.
  2:{ split; [reflexivity|]. exists (clock (env w) (tick w)), None. emitted. }
  destruct ok1.
  - unfold ret at 1. save_step ok2 E2.
    + destruct ok2; unfold ret, printf;
        [exists (clock (env w) (tick w)), true, true
        |exists (clock (env w) (tick w)), true, false]; emitted.
    + split; [reflexivity|]. exists (clock (env w) (tick w)), (Some true). emitted.
  - unfold printf at 1. save_step ok2 E2.
    + destruct ok2; unfold ret, printf;
        [exists (clock (env w) (tick w)), false, true
        |exists (clock (env w) (tick w)), false, false]; emitted.
    + split; [reflexivity|]. exists (clock (env w) (tick w)), (Some false). emitted.
Qed.

Lemma cpu_capture_events pct w :
  match cpu_capture pct w with
  | (Returned _, w') => exists timeNow ok, extends w w' (cpu_capture_trace pct timeNow ok)
  | (Threw e, w') =>
      e = fputs_null_stream /\
      exists timeNow, extends w w' (cpu_capture_crash_trace pct timeNow)
  end.
Proof.
  unfold cpu_capture, bind, now. cbv zeta.
  save_step ok E.
  - destruct ok; unfold ret, printf;
      [exists (clock (env w) (tick w)), true | exists (clock (env w) (tick w)), false]; emitted.
  - split; [reflexivity|]. exists (clock (env w) (tick w)). emitted.
Qed.

Lemma memory_capture_trace_saves pct timeNow ok1 ok2 :
  saved_commands (memory_capture_trace pct timeNow ok1 ok2) = [ps_mem_cmd; top_mem_cmd] /\
  notifications (memory_capture_trace pct timeNow ok1 ok2) = [].
Proof. destruct ok1, ok2; split; reflexivity. Qed.

Lemma cpu_capture_trace_saves pct timeNow ok :
  saved_commands (cpu_capture_trace pct timeNow ok) = [ps_cpu_cmd] /\
  notifications (cpu_capture_trace pct timeNow ok) = [].
Proof. destruct ok; split; reflexivity. Qed.

End Captures.

Section Cycle.

Variable args : Args.

Lemma trySendNotification_any lastSendTime errorTitle pct w :
  exists sent w' evs,
    trySendNotification args lastSendTime errorTitle pct w = (Returned sent, w') /\
    extends w w' evs /\ saved_commands evs = [] /\
    timestamp_step args errorTitle lastSendTime sent evs.
Proof.
  destruct (string_dec (runCustomScript args) "") as [E|NE].
  - exists lastSendTime, w, []. unfold trySendNotification. rewrite E. cbn [is_empty negb].
    split; [reflexivity|]. split; [apply extends_refl|]. split; [reflexivity|].
    left. reflexivity.
  - destruct (trySendNotification_events args errorTitle pct NE lastSendTime w)
      as (w' & Hrun & Hn & Hs & Hnow).
    cbv zeta in *.
    assert (Hx : exists evs, extends w w' evs).
    { rewrite (trySendNotification_run args errorTitle pct NE) in Hrun. cbv zeta in Hrun.
      repeat match type of Hrun with
             | context [if ?b then _ else _] => destruct b
             end; injection Hrun as <-; eexists;
        unfold extends; cbn [env tick trace emit];
        (split; [reflexivity|]);
        (split; [|rewrite <- ?app_assoc; reflexivity]); cbn; lia. }
    destruct Hx as [evs Hx]. rewrite (new_events_extends _ _ _ Hx) in *.
    eexists _, w', evs. split; [exact Hrun|]. split; [exact Hx|]. split; [exact Hs|].
    destruct (lastSendTime + seconds (notificationThrottleSec args) <? clock (env w) (tick w)).
    + right. split; [exists pct; rewrite Hn; left; reflexivity | auto].
    + left. reflexivity.
Qed.

Lemma timestamp_step_weaken title before after evs0 evs :
  notifications evs0 = [] ->
  timestamp_step args title before after evs ->
  timestamp_step args title before after (evs0 ++ evs).
Proof.
  intros H0 [->|[[p Hp] Hnow]]; [left; reflexivity|]. right. split.
  - exists p. rewrite notifications_app, H0. exact Hp.
  - apply in_or_app. right. exact Hnow.
Qed.

(** A breach is its capture followed, when the capture returned, by the
    throttle on the timestamp of its kind. *)
Lemma memory_breach_run appState pct w :
  match memory_capture pct w with
  | (Returned _, w1) =>
      exists sent w2,
        trySendNotification args (lastMemAlertSentTime appState) mem_title pct w1
          = (Returned sent, w2) /\
        memory_breach args appState pct w
          = (Returned (set_lastMemAlertSentTime appState sent), w2)
  | (Threw e, w1) => memory_breach args appState pct w = (Threw e, w1)
  end.
Proof.
  unfold memory_breach, bind. destruct (memory_capture pct w) as [[[]|e] w1]; [|reflexivity].
  destruct (trySendNotification_any (lastMemAlertSentTime appState) mem_title pct w1)
    as (sent & w2 & evs & Ht & _).
  exists sent, w2. rewrite Ht. split; reflexivity.
Qed.

Lemma cpu_breach_run appState pct w :
  match cpu_capture pct w with
  | (Returned _, w1) =>
      exists sent w2,
        trySendNotification args (lastCpuAlertSentTime appState) cpu_title pct w1
          = (Returned sent, w2) /\
        cpu_breach args appState pct w
          = (Returned (set_lastCpuAlertSentTime appState sent), w2)
  | (Threw e, w1) => cpu_breach args appState pct w = (Threw e, w1)
  end.
Proof.
  unfold cpu_breach, bind. destruct (cpu_capture pct w) as [[[]|e] w1]; [|reflexivity].
  destruct (trySendNotification_any (lastCpuAlertSentTime appState) cpu_title pct w1)
    as (sent & w2 & evs & Ht & _).
  exists sent, w2. rewrite Ht. split; reflexivity.
Qed.

Lemma memory_breach_events appState pct w appState' w' :
  memory_breach args appState pct w = (Returned appState', w') ->
  exists evs,
    extends w w' evs /\
    saved_commands evs = [ps_mem_cmd; top_mem_cmd] /\
    lastCpuAlertSentTime appState' = lastCpuAlertSentTime appState /\
    timestamp_step args mem_title
      (lastMemAlertSentTime appState) (lastMemAlertSentTime appState') evs.
Proof.
  intros Hrun. pose proof (memory_capture_events pct w) as Hc.
  unfold memory_breach, bind in Hrun.
  destruct (memory_capture pct w) as [[[]|e] w1]; [|discriminate].
  destruct Hc as (timeNow & ok1 & ok2 & Hx1).
  destruct (memory_capture_trace_saves pct timeNow ok1 ok2) as [Hs1 Hn1].
  destruct (trySendNotification_any (lastMemAlertSentTime appState) mem_title pct w1)
    as (sent & w2 & evs2 & Ht & Hx2 & Hs2 & Hstep).
  rewrite Ht in Hrun. injection Hrun as <- <-.
  exists (memory_capture_trace pct timeNow ok1 ok2 ++ evs2)%list.
  split; [eapply extends_trans; eassumption|].
  split; [rewrite saved_commands_app, Hs1, Hs2; reflexivity|].
  split; [reflexivity|]. cbn [set_lastMemAlertSentTime lastMemAlertSentTime].
  apply timestamp_step_weaken; assumption.
Qed.

Lemma cpu_breach_events appState pct w appState' w' :
  cpu_breach args appState pct w = (Returned appState', w') ->
  exists evs,
    extends w w' evs /\
    saved_commands evs = [ps_cpu_cmd] /\
    lastMemAlertSentTime appState' = lastMemAlertSentTime appState /\
    timestamp_step args cpu_title
      (lastCpuAlertSentTime appState) (lastCpuAlertSentTime appState') evs.
Proof.
  intros Hrun. pose proof (cpu_capture_events pct w) as Hc.
  unfold cpu_breach, bind in Hrun.
  destruct (cpu_capture pct w) as [[[]|e] w1]; [|discriminate].
  destruct Hc as (timeNow & ok & Hx1).
  destruct (cpu_capture_trace_saves pct timeNow ok) as [Hs1 Hn1].
  destruct (trySendNotification_any (lastCpuAlertSentTime appState) cpu_title pct w1)
    as (sent & w2 & evs2 & Ht & Hx2 & Hs2 & Hstep).
  rewrite Ht in Hrun. injection Hrun as <- <-.
  exists (cpu_capture_trace pct timeNow ok ++ evs2)%list.
  split; [eapply extends_trans; eassumption|].
  split; [rewrite saved_commands_app, Hs1, Hs2; reflexivity|].
  split; [reflexivity|]. cbn [set_lastCpuAlertSentTime lastCpuAlertSentTime].
  apply timestamp_step_weaken; assumption.
Qed.

(** The memory half of a cycle that returned. *)
Lemma memory_phase_events appState readBuffer w appState' buffer' w' :
  memory_phase args appState readBuffer w = (Returned (appState', buffer'), w') ->
  exists evs,
    extends w w' evs /\
    lastCpuAlertSentTime appState' = lastCpuAlertSentTime appState /\
    timestamp_step args mem_title
      (lastMemAlertSentTime appState) (lastMemAlertSentTime appState') evs.
Proof.
  intros Hrun.
  destruct (sampling_events (checkMemory readBuffer) w (checkMemory_sampling readBuffer))
    as (evs0 & Hx0 & Hs0 & Hn0).
  unfold memory_phase, bind in Hrun.
  destruct (checkMemory readBuffer w) as [[[pct buffer]|e] w1]; [|discriminate].
  cbn [snd] in Hx0.
  destruct (Float.ge pct (memThresholdPct args)).
  - destruct (memory_breach args appState pct w1) as [[s1|e] w2] eqn:Hb; [|discriminate].
    injection Hrun as <- _ <-.
    destruct (memory_breach_events _ _ _ _ _ Hb) as (evs & Hx & _ & Hcpu & Hstep).
    exists (evs0 ++ evs)%list. split; [eapply extends_trans; eassumption|].
    split; [exact Hcpu|]. apply timestamp_step_weaken; assumption.
  - injection Hrun as <- _ <-. exists evs0. split; [exact Hx0|].
    split; [reflexivity|]. left. reflexivity.
Qed.

(** The CPU half of a cycle that returned. *)
Lemma cpu_phase_events appState readBuffer w appState' buffer' w' :
  cpu_phase args appState readBuffer w = (Returned (appState', buffer'), w') ->
  exists evs,
    extends w w' evs /\
    lastMemAlertSentTime appState' = lastMemAlertSentTime appState /\
    timestamp_step args cpu_title
      (lastCpuAlertSentTime appState) (lastCpuAlertSentTime appState') evs.
Proof.
  intros Hrun.
  destruct (sampling_events (checkCpu readBuffer) w (checkCpu_sampling readBuffer))
    as (evs0 & Hx0 & Hs0 & Hn0).
  unfold cpu_phase, bind in Hrun.
  destruct (checkCpu readBuffer w) as [[[pct buffer]|e] w1]; [|discriminate].
  cbn [snd] in Hx0.
  destruct (Float.ge pct (cpuThresholdPct args)).
  - destruct (cpu_breach args appState pct w1) as [[s1|e] w2] eqn:Hb; [|discriminate].
    injection Hrun as <- _ <-.
    destruct (cpu_breach_events _ _ _ _ _ Hb) as (evs & Hx & _ & Hmem & Hstep).
    exists (evs0 ++ evs)%list. split; [eapply extends_trans; eassumption|].
    split; [exact Hmem|]. apply timestamp_step_weaken; assumption.
  - injection Hrun as <- _ <-. exists evs0. split; [exact Hx0|].
    split; [reflexivity|]. left. reflexivity.
Qed.

End Cycle.

(** ** The command line *)

Section CommandLine.

Lemma readArgValue_float_some following v :
  readArgValue_float following = Some v <->
  exists value rest n,
    following = value :: rest /\ arg_char value 0 <> "-"%char /\
    parseInt value = Some n /\ v = Float.of_int n.
Proof.
  unfold readArgValue_float, value_token. destruct following as [|value rest].
  - split; [discriminate|]. intros (? & ? & ? & E & _). discriminate.
  - destruct (Ascii.eqb_spec (arg_char value 0) "-") as [E|NE].
    + split; [discriminate|]. intros (? & ? & ? & E' & Hc & _).
      injection E' as <- <-. contradiction.
    + destruct (parseInt value) as [n|] eqn:Ep.
      * split.
        -- intros H. injection H as <-. exists value, rest, n. auto.
        -- intros (? & ? & n' & E' & _ & Hp & ->). injection E' as <- <-.
           congruence.
      * split; [discriminate|]. intros (? & ? & n' & E' & _ & Hp & _).
        injection E' as <- <-. congruence.
Qed.

Lemma mem_flag_step args following :
  readArgs_loop args ("-m" :: following) =
  match readArgValue_float following, following with
  | Some v, _ :: rest => readArgs_loop (set_memThresholdPct args v) rest
  | _, _ => ArgsExit 2 invalid_value_message "-m"
  end.
Proof.
  cbn [readArgs_loop]. change (one_letter_flag "-m") with (Some "m"%char). cbv iota.
  destruct (readArgValue_float following); [|reflexivity].
  destruct following; reflexivity.
Qed.

Lemma cpu_flag_step args following :
  readArgs_loop args ("-c" :: following) =
  match readArgValue_float following, following with
  | Some v, _ :: rest => readArgs_loop (set_cpuThresholdPct args v) rest
  | _, _ => ArgsExit 2 invalid_value_message "-c"
  end.
Proof.
  cbn [readArgs_loop]. change (one_letter_flag "-c") with (Some "c"%char). cbv iota.
  destruct (readArgValue_float following); [|reflexivity].
  destruct following; reflexivity.
Qed.

(** C10. The threshold flags [-m] and [-c] read their value with the base-10
    integer parser: a value is accepted exactly when it does not start with
    ['-'] and [parseInt] accepts it, and the threshold becomes that integer;
    a missing value, a value starting with ['-'] and a value [parseInt]
    rejects, such as ["70.5"], end the process with exit code 2. *)
Theorem threshold_flags_take_integers (args : Args) (rest : list string) :
  (forall value,
     arg_char value 0 = "-"%char \/ parseInt value = None ->
     readArgs_loop args ("-m" :: value :: rest) = ArgsExit 2 invalid_value_message "-m" /\
     readArgs_loop args ("-c" :: value :: rest) = ArgsExit 2 invalid_value_message "-c") /\
  (forall value n,
     arg_char value 0 <> "-"%char -> parseInt value = Some n ->
     readArgs_loop args ("-m" :: value :: rest) =
       readArgs_loop (set_memThresholdPct args (Float.of_int n)) rest /\
     readArgs_loop args ("-c" :: value :: rest) =
       readArgs_loop (set_cpuThresholdPct args (Float.of_int n)) rest) /\
  readArgs_loop args ["-m"] = ArgsExit 2 invalid_value_message "-m" /\
  readArgs_loop args ["-c"] = ArgsExit 2 invalid_value_message "-c" /\
  readArgs ["resource_alert"; "-m"; "70.5"] = ArgsExit 2 invalid_value_message "-m" /\
  readArgs ["resource_alert"; "-c"; "-5"] = ArgsExit 2 invalid_value_message "-c".
Proof.
  split; [|split; [|repeat split; reflexivity]].
  - intros value H. rewrite mem_flag_step, cpu_flag_step.
    assert (E : readArgValue_float (value :: rest) = None).
    { destruct (readArgValue_float (value :: rest)) as [v|] eqn:E; [|reflexivity].
      apply readArgValue_float_some in E.
      destruct E as (value' & rest' & n & E' & Hc & Hp & _). injection E' as <- <-.
      destruct H; [contradiction | congruence]. }
    rewrite E. split; reflexivity.
  - intros value n Hc Hp. rewrite mem_flag_step, cpu_flag_step.
    assert (E : readArgValue_float (value :: rest) = Some (Float.of_int n)).
    { apply readArgValue_float_some. exists value, rest, n. auto. }
    rewrite E. split; reflexivity.
Qed.

Lemma threshold_flags_take_integers_witness :
  readArgs_loop default_Args ["-m"; "70.5"; "-t"; "5"] = ArgsExit 2 invalid_value_message "-m" /\
  readArgs_loop default_Args ["-m"; "80"; "-t"; "5"] =
    readArgs_loop (set_memThresholdPct default_Args (Float.of_int 80)) ["-t"; "5"].
Proof.
  split.
  - apply (proj1 (threshold_flags_take_integers default_Args ["-t"; "5"]) "70.5").
    right. reflexivity.
  - apply (proj1 (proj2 (threshold_flags_take_integers default_Args ["-t"; "5"])) "80" 80).
    + vm_compute. discriminate.
    + reflexivity.
Defined.

End CommandLine.

(** ** The claims on the samplers *)

Section MemorySampler.

Lemma getFreePartValue_empty partIndex w :
  partIndex = 2 \/ partIndex = 3 ->
  getFreePartValue "" partIndex w = (Threw std_out_of_range, w).
Proof. intros [-> | ->]; reflexivity. Qed.

Lemma checkMemory_without_output previous w :
  pipe_output (env w) (tick w) free_cmd = None ->
  checkMemory previous w =
  (Threw std_out_of_range,
   emit (EvPrintf "Could not execute 'free -L'\n" []) (emit (EvReadCommand free_cmd None) w)).
Proof.
  intros H. unfold checkMemory, bind, readCommandOutput. rewrite H.
  unfold printf at 1. rewrite getFreePartValue_empty by auto. reflexivity.
Qed.

(** C1. Fixed-column extraction does not survive every buffer: on the empty
    buffer [buffer.size() - 1] wraps, the start offset lies far beyond the end
    of the buffer and [substr] throws [std::out_of_range], for the used block
    and for the free block alike.  Nothing is logged and no 0 is returned, and
    the memory sampler, which reaches the extraction with an empty buffer when
    [free -L] could not be run or printed nothing, ends the same way. *)
Theorem getFreePartValue_throws_on_empty_buffer (w : World) :
  getFreePartValue "" 2 w = (Threw std_out_of_range, w) /\
  getFreePartValue "" 3 w = (Threw std_out_of_range, w) /\
  fst (checkMemory "" (sample_world None None)) = Threw std_out_of_range /\
  fst (checkMemory "" (sample_world (Some "") None)) = Threw std_out_of_range.
Proof. repeat split; reflexivity. Qed.

(** A buffer of at most nine characters has no room for a header, and the
    extraction of the used block throws on it whatever it holds. *)
Lemma getFreePartValue_short_buffer buffer w :
  Str.size buffer <= 9 ->
  getFreePartValue buffer 2 w = (Threw std_out_of_range, w).
Proof.
  intros H. unfold Str.size in H.
  do 10 (destruct buffer as [|? buffer]; [reflexivity|]).
  cbn [String.length] in H. lia.
Qed.

Lemma scan_field_in_buffer buffer (n : nat) : forall i numberStart numberLen,
  0 <= numberStart <= Str.size buffer -> 0 <= i -> i + Z.of_nat n <= Str.size buffer ->
  Str.size buffer <= Int.INT_MAX ->
  0 <= fst (scan_field buffer n i numberStart numberLen) <= Str.size buffer.
Proof.
  induction n as [|n IH]; intros i numberStart numberLen Hs Hi Hn Hb; cbn [scan_field].
  - exact Hs.
  - destruct (negb (Ascii.eqb (Str.char_at buffer i) " ")).
    + cbn [fst]. lia.
    + unfold Int.INT_MAX in Hb.
      rewrite (size_t_small (i + 1)) by (unfold Int.SIZE_MODULUS; lia).
      apply IH; [exact Hs | lia | lia | unfold Int.INT_MAX; lia].
Qed.

(** Away from the short buffers the extraction behaves as intended: on a
    buffer of at least 33 characters every block index from 0 to 3 gives
    either the parsed number, or a log line and 0. *)
Lemma getFreePartValue_returns_on_long_buffer buffer partIndex w :
  33 <= Str.size buffer <= Int.INT_MAX -> 0 <= partIndex <= 3 ->
  exists numberPart,
    (exists v, parseInt (CLib.c_str numberPart) = Some v /\
               getFreePartValue buffer partIndex w = (Returned v, w)) \/
    (parseInt (CLib.c_str numberPart) = None /\
     getFreePartValue buffer partIndex w =
     (Returned 0,
      emit (EvPrintf "Failed to parse number '%s' from 'free -L' output '%s'\n"
                     [ArgStr numberPart; ArgStr buffer]) w)).
Proof.
  intros [Hlo Hhi] Hidx. unfold Int.INT_MAX in Hhi.
  unfold getFreePartValue. cbv zeta. unfold longestHeaderLen.
  rewrite (size_t_small (Str.size buffer - 1)) by (unfold Int.SIZE_MODULUS; lia).
  set (quarter := (Str.size buffer - 1) / 4).
  assert (Hq : 8 <= quarter /\ 4 * quarter <= Str.size buffer - 1).
  { unfold quarter. split.
    - apply Z.div_le_lower_bound; lia.
    - apply Z.mul_div_le. lia. }
  assert (Hprod : 0 <= quarter * partIndex <= 3 * quarter) by nia.
  rewrite (size_t_small (quarter * partIndex)) by (unfold Int.SIZE_MODULUS; lia).
  rewrite (size_t_small (quarter * partIndex + (8 + 1))) by (unfold Int.SIZE_MODULUS; lia).
  set (startOffset := quarter * partIndex + (8 + 1)).
  assert (Hstart : 0 <= startOffset <= Str.size buffer) by (unfold startOffset; lia).
  set (maxNumberLen := Int.size_t (quarter - (8 + 1))).
  set (end_ := Z.min (Int.size_t (startOffset + maxNumberLen)) (Str.size buffer)).
  assert (Hend : end_ <= Str.size buffer) by (unfold end_; lia).
  pose proof (scan_field_in_buffer buffer (Z.to_nat (end_ - startOffset))
                                   startOffset startOffset maxNumberLen
                                   Hstart ltac:(lia) ltac:(lia)
                                   ltac:(unfold Int.INT_MAX; lia)) as Hscan.
  destruct (scan_field buffer (Z.to_nat (end_ - startOffset)) startOffset startOffset
                       maxNumberLen) as [numberStart numberLen].
  cbn [fst] in Hscan.
  unfold bind, lift, Str.substr.
  destruct (Z.ltb_spec (Str.size buffer) numberStart) as [Hc|_]; [lia|].
  match goal with
  | |- context [parseInt (CLib.c_str ?part)] => exists part; destruct (parseInt (CLib.c_str part))
  end.
  - left. eexists. split; reflexivity.
  - right. split; reflexivity.
Qed.

Lemma checkMemory_run previous w buffer used free w2 w3 :
  pipe_output (env w) (tick w) free_cmd = Some buffer ->
  getFreePartValue buffer 2 (emit (EvReadCommand free_cmd (Some buffer)) w) = (Returned used, w2) ->
  getFreePartValue buffer 3 w2 = (Returned free, w3) ->
  checkMemory previous w = (Returned (used_percentage used free, buffer), w3).
Proof.
  intros Hp H2 H3. unfold checkMemory, bind, readCommandOutput. rewrite Hp.
  cbn [append]. unfold ret at 1. rewrite H2, H3. reflexivity.
Qed.

(** C6, as the code has it. The memory sampler extracts the used value at block
    index 2 and the free value at block index 3 with the fixed-column
    strategy and returns the single-precision rounding of
    [100.0 * (float(used) / (float(free) + float(used)))], where the quotient
    has already been rounded to single precision.  For used = 30 and
    free = 70 that is 15728641 * 2^-19 = 30.0000019..., the [float] next
    above 30.0 = 15728640 * 2^-19; for used = 50 and free = 50 it is 50.0
    exactly. *)
Theorem checkMemory_used_percentage :
  (forall previous w buffer used free w2 w3,
     pipe_output (env w) (tick w) free_cmd = Some buffer ->
     getFreePartValue buffer 2 (emit (EvReadCommand free_cmd (Some buffer)) w)
       = (Returned used, w2) ->
     getFreePartValue buffer 3 w2 = (Returned free, w3) ->
     checkMemory previous w = (Returned (used_percentage used free, buffer), w3)) /\
  (forall w, getFreePartValue free_sample 2 w = (Returned 30, w) /\
             getFreePartValue free_sample 3 w = (Returned 70, w)) /\
  used_percentage 30 70 = S754_finite false 15728641 (-19) /\
  Float.of_int 30 = S754_finite false 15728640 (-19) /\
  SFcompare (used_percentage 30 70) (Float.of_int 30) = Some Gt /\
  used_percentage 50 50 = Float.of_int 50.
Proof.
  split; [exact checkMemory_run|].
  split; [intros w; split; reflexivity|].
  repeat split; vm_compute; reflexivity.
Qed.

Lemma checkMemory_used_percentage_witness :
  checkMemory "" (sample_world (Some free_sample) None) =
  (Returned (used_percentage 30 70, free_sample),
   emit (EvReadCommand free_cmd (Some free_sample)) (sample_world (Some free_sample) None)).
Proof.
  apply (proj1 checkMemory_used_percentage) with (w2 := emit (EvReadCommand free_cmd (Some free_sample)) (sample_world (Some free_sample) None)).
  - reflexivity.
  - reflexivity.
  - reflexivity.
Defined.

(** C6, as stated, fails: on a report whose used block reads 30 and whose
    free block reads 70 the sampler does not return 30.0 but a larger
    [float]. *)
Lemma used_percentage_30_70_is_not_30 :
  let w := sample_world (Some free_sample) None in
  fst (getFreePartValue free_sample 2 w) = Returned 30 /\
  fst (getFreePartValue free_sample 3 w) = Returned 70 /\
  (exists pct, fst (checkMemory "" w) = Returned (pct, free_sample) /\
               pct <> Float.of_int 30 /\
               SFcompare pct (Float.of_int 30) = Some Gt).
Proof.
  cbv zeta. split; [reflexivity|]. split; [reflexivity|].
  exists (S754_finite false 15728641 (-19)).
  split; [vm_compute; reflexivity|]. split; [vm_compute; discriminate | reflexivity].
Qed.

End MemorySampler.


Section CpuClaims.

(** C5. The CPU sampler finds the last ["%idle"] on the first line of what
    [sar] printed, say at column [c]; it parses the three characters at
    column [c + 2] of the second line and returns 100 minus that number.
    When the first line holds no ["%idle"] it logs that the idle column was
    not found and returns 0.  A field reading [" 35"] gives 65.0, which is
    8519680 * 2^-17. *)
Theorem cpu_sampler_reads_idle_column (w : World) (buffer previous : string) (k : nat) :
  pipe_output (env w) (tick w) sar_cmd = Some buffer ->
  Str.size buffer <= Int.INT_MAX ->
  first_line_end buffer (Z.of_nat k) ->
  let w1 := emit (EvReadCommand sar_cmd (Some buffer)) w in
  (forall (c : nat) (v : Z),
     (k < String.length buffer)%nat ->
     (c + 5 <= k)%nat -> String.substring c 5 buffer = idle_marker ->
     (forall j : nat, (c < j)%nat -> (j + 5 <= k)%nat ->
                      String.substring j 5 buffer <> idle_marker) ->
     (k + 1 + c + 2 <= String.length buffer)%nat ->
     parseInt (CLib.c_str (String.substring (k + 1 + c + 2) 3 buffer)) = Some v ->
     checkCpu previous w = (Returned (Float.of_int (100 - v), buffer), w1)) /\
  (forall c : nat,
     (k < String.length buffer)%nat ->
     (c + 5 <= k)%nat -> String.substring c 5 buffer = idle_marker ->
     (forall j : nat, (c < j)%nat -> (j + 5 <= k)%nat ->
                      String.substring j 5 buffer <> idle_marker) ->
     (k + 1 + c + 2 <= String.length buffer)%nat ->
     String.substring (k + 1 + c + 2) 3 buffer = " 35" ->
     checkCpu previous w = (Returned (S754_finite false 8519680 (-17), buffer), w1)) /\
  ((forall j : nat, (j + 5 <= k)%nat -> String.substring j 5 buffer <> idle_marker) ->
   checkCpu previous w =
   (Returned (Float.zero, buffer), emit (EvPrintf no_idle_message []) w1)).
Proof.
  intros Hp Hb Hk w1. split; [|split].
  - intros c v Hnl Hck Hsub Hlast Hfield Hparse.
    exact (checkCpu_marker_found w buffer Hp Hb previous k c v
                                 Hk Hnl Hck Hsub Hlast Hfield Hparse).
  - intros c Hnl Hck Hsub Hlast Hfield H35.
    change (S754_finite false 8519680 (-17)) with (Float.of_int (100 - 35)).
    apply (checkCpu_marker_found w buffer Hp Hb previous k c 35
                                 Hk Hnl Hck Hsub Hlast Hfield).
    rewrite H35. reflexivity.
  - intros Hnone.
    exact (checkCpu_marker_absent w buffer Hp Hb previous k Hk Hnone).
Qed.

Lemma cpu_sampler_reads_idle_column_witness :
  checkCpu "" (sample_world None (Some sar_sample)) =
  (Returned (S754_finite false 8519680 (-17), sar_sample),
   emit (EvReadCommand sar_cmd (Some sar_sample)) (sample_world None (Some sar_sample))).
Proof.
  refine (proj1 (proj2 (cpu_sampler_reads_idle_column
                          (sample_world None (Some sar_sample)) sar_sample "" 79
                          eq_refl _ _)) 74%nat _ _ _ _ _ _).
  - vm_compute. discriminate.
  - exact (first_line_end_length sar_sample).
  - vm_compute. lia.
  - lia.
  - reflexivity.
  - intros j H1 H2. lia.
  - vm_compute. lia.
  - reflexivity.
Defined.

(** C9. [isSubstr] answers [false] whenever the substring would end exactly
    at the end of the string.  Hence the header search of the CPU sampler
    reports a ["%idle"] only where at least one character follows it, and a
    buffer whose only ["%idle"] is its last five characters is treated as
    having no idle column. *)
Theorem isSubstr_needs_a_following_character :
  (forall s t p,
     0 <= p -> Str.size s < Int.SIZE_MODULUS -> p + Str.size t = Str.size s ->
     isSubstr s t p = false) /\
  (forall buffer,
     Str.size buffer <= Int.INT_MAX ->
     let idleOffset := fst (find_idle buffer (String.length buffer) 0 (-1)) in
     idleOffset <> -1 ->
     0 <= idleOffset /\ idleOffset + Str.size idle_marker < Str.size buffer /\
     String.substring (Z.to_nat idleOffset) 5 buffer = idle_marker) /\
  (forall w buffer previous,
     pipe_output (env w) (tick w) sar_cmd = Some buffer ->
     Str.size buffer <= Int.INT_MAX ->
     (forall j : nat, String.substring j 5 buffer = idle_marker ->
                      (j + 5 = String.length buffer)%nat) ->
     checkCpu previous w =
     (Returned (Float.zero, buffer),
      emit (EvPrintf no_idle_message []) (emit (EvReadCommand sar_cmd (Some buffer)) w))).
Proof.
  split; [|split].
  - intros s t p Hp Hs Hsum. unfold isSubstr.
    pose proof (size_nonneg t) as Ht.
    rewrite size_t_small by lia. rewrite Hsum. rewrite Z.leb_refl. reflexivity.
  - intros buffer Hb. exact (find_idle_found_strict buffer Hb).
  - intros w buffer previous Hp Hb Honly.
    exact (checkCpu_marker_at_end w buffer Hp Hb previous Honly).
Qed.

Lemma isSubstr_needs_a_following_character_witness :
  isSubstr "  %idle" "%idle" 2 = false /\
  checkCpu "" (sample_world None (Some "  %idle")) =
  (Returned (Float.zero, "  %idle"),
   emit (EvPrintf no_idle_message [])
        (emit (EvReadCommand sar_cmd (Some "  %idle")) (sample_world None (Some "  %idle")))).
Proof.
  split.
  - apply (proj1 isSubstr_needs_a_following_character).
    + lia.
    + vm_compute. reflexivity.
    + reflexivity.
  - apply (proj2 (proj2 isSubstr_needs_a_following_character)).
    + reflexivity.
    + vm_compute. discriminate.
    + intros j H.
      do 3 (destruct j as [|j]; [try reflexivity; vm_compute in H; discriminate|]).
      do 5 (destruct j as [|j]; [vm_compute in H; discriminate|]).
      vm_compute in H. discriminate.
Defined.

End CpuClaims.

(** ** The claims on the alert state and the cycle *)

Section AlertStateClaims.

Lemma pair_from_fst {A B : Type} (p : A * B) (a : A) : fst p = a -> p = (a, snd p).
Proof. intros <-. destruct p. reflexivity. Defined.

Lemma timestamp_step_trans args title a b c evs1 evs2 :
  timestamp_step args title a b evs1 -> timestamp_step args title b c evs2 ->
  timestamp_step args title a c (evs1 ++ evs2).
Proof.
  intros H1 [->|[[p Hp] Hnow]].
  - destruct H1 as [->|[[p Hp] Hnow]]; [left; reflexivity|]. right. split.
    + exists p. rewrite notifications_app. apply in_or_app. left. exact Hp.
    + apply in_or_app. left. exact Hnow.
  - right. split.
    + exists p. rewrite notifications_app. apply in_or_app. right. exact Hp.
    + apply in_or_app. right. exact Hnow.
Qed.

Lemma timestamp_step_same args title a evs : timestamp_step args title a a evs.
Proof. left. reflexivity. Qed.

(** Over a cycle that returns, each timestamp is left alone or set by a
    notification of its own kind. *)
Lemma doPeriodicCheck_timestamps args appState readBuffer w r appState' buffer' w' :
  doPeriodicCheck args appState readBuffer w = (Returned (r, appState', buffer'), w') ->
  exists evs,
    extends w w' evs /\
    timestamp_step args mem_title
      (lastMemAlertSentTime appState) (lastMemAlertSentTime appState') evs /\
    timestamp_step args cpu_title
      (lastCpuAlertSentTime appState) (lastCpuAlertSentTime appState') evs.
Proof.
  intros Hrun. unfold doPeriodicCheck, bind in Hrun.
  destruct (memory_phase args appState readBuffer w) as [[[appState1 buffer1]|e] w1] eqn:Em;
    [|discriminate].
  destruct (cpu_phase args appState1 buffer1 w1) as [[[appState2 buffer2]|e] w2] eqn:Ec;
    [|discriminate].
  injection Hrun as _ <- _ <-.
  destruct (memory_phase_events _ _ _ _ _ _ _ Em) as (evs1 & Hx1 & Hcpu1 & Hstep1).
  destruct (cpu_phase_events _ _ _ _ _ _ _ Ec) as (evs2 & Hx2 & Hmem2 & Hstep2).
  exists (evs1 ++ evs2)%list. split; [eapply extends_trans; eassumption|]. split.
  - eapply timestamp_step_trans; [exact Hstep1|]. rewrite Hmem2.
    apply timestamp_step_same.
  - eapply timestamp_step_trans; [|exact Hstep2]. rewrite Hcpu1.
    apply timestamp_step_same.
Qed.

Lemma main_loop_timestamps args n : forall appState readBuffer w appState' buffer' w',
  main_loop n args appState readBuffer w = (Returned (appState', buffer'), w') ->
  exists evs,
    extends w w' evs /\
    timestamp_step args mem_title
      (lastMemAlertSentTime appState) (lastMemAlertSentTime appState') evs /\
    timestamp_step args cpu_title
      (lastCpuAlertSentTime appState) (lastCpuAlertSentTime appState') evs.
Proof.
  induction n as [|n IH]; intros appState readBuffer w appState' buffer' w' Hrun.
  - cbn [main_loop] in Hrun. unfold ret in Hrun. injection Hrun as <- _ <-.
    exists []. split; [apply extends_refl|]. split; apply timestamp_step_same.
  - cbn [main_loop] in Hrun. unfold bind at 1 in Hrun.
    destruct (doPeriodicCheck args appState readBuffer w) as [[[[r appState1] buffer1]|e] w1]
      eqn:Hcycle; [|discriminate].
    destruct (doPeriodicCheck_timestamps _ _ _ _ _ _ _ _ Hcycle) as (evs1 & Hx1 & Hm1 & Hc1).
    unfold bind at 1, sleep at 1 in Hrun.
    destruct (IH _ _ _ _ _ _ Hrun) as (evs2 & Hx2 & Hm2 & Hc2).
    pose proof (extends_emit w1 (EvSleep (Int.to_uint (timeBetweenChecksSec args)))) as Hxs.
    exists (evs1 ++ ([EvSleep (Int.to_uint (timeBetweenChecksSec args))] ++ evs2))%list.
    split; [eapply extends_trans; [exact Hx1 | eapply extends_trans; eassumption]|].
    split.
    + eapply timestamp_step_trans; [exact Hm1|].
      eapply timestamp_step_trans; [apply timestamp_step_same | exact Hm2].
    + eapply timestamp_step_trans; [exact Hc1|].
      eapply timestamp_step_trans; [apply timestamp_step_same | exact Hc2].
Qed.

(** C8, as the code has it. Both timestamps of the alert state start at the
    epoch.  Over any number of cycles a timestamp either keeps its value or
    holds a clock reading of those cycles, taken when the notification script
    was run for its kind: nothing but the throttle, after it has run the
    script, changes the alert state.  The exit code of the script plays no
    part. *)
Theorem alert_state_changes_only_on_dispatch :
  lastMemAlertSentTime initial_AppState = 0 /\
  lastCpuAlertSentTime initial_AppState = 0 /\
  (forall args n appState readBuffer w appState' buffer' w',
     main_loop n args appState readBuffer w = (Returned (appState', buffer'), w') ->
     timestamp_step args mem_title
       (lastMemAlertSentTime appState) (lastMemAlertSentTime appState')
       (new_events w w') /\
     timestamp_step args cpu_title
       (lastCpuAlertSentTime appState) (lastCpuAlertSentTime appState')
       (new_events w w')) /\
  (forall args lastSendTime errorTitle pct w,
     exists sent w',
       trySendNotification args lastSendTime errorTitle pct w = (Returned sent, w') /\
       timestamp_step args errorTitle lastSendTime sent (new_events w w')).
Proof.
  split; [reflexivity|]. split; [reflexivity|]. split.
  - intros args n appState readBuffer w appState' buffer' w' Hrun.
    destruct (main_loop_timestamps args n _ _ _ _ _ _ Hrun) as (evs & Hx & Hm & Hc).
    rewrite (new_events_extends _ _ _ Hx). split; assumption.
  - intros args lastSendTime errorTitle pct w.
    destruct (trySendNotification_any args lastSendTime errorTitle pct w)
      as (sent & w' & evs & Ht & Hx & _ & Hstep).
    exists sent, w'. rewrite (new_events_extends _ _ _ Hx). split; assumption.
Qed.

Lemma alert_state_changes_only_on_dispatch_witness :
  let w := sample_world (Some free_sample) (Some sar_sample) in
  let w' := snd (main_loop 2 eager_args initial_AppState "" w) in
  timestamp_step eager_args mem_title 0 (seconds 2004) (new_events w w') /\
  timestamp_step eager_args cpu_title 0 0 (new_events w w').
Proof.
  cbv zeta.
  refine (proj1 (proj2 (proj2 alert_state_changes_only_on_dispatch))
                eager_args 2%nat initial_AppState ""
                (sample_world (Some free_sample) (Some sar_sample))
                {| lastMemAlertSentTime := seconds 2004; lastCpuAlertSentTime := 0 |}
                sar_sample _ (pair_from_fst _ _ _)).
  vm_compute. reflexivity.
Defined.

(** C8, as stated, fails: the script exits with code 1, the failure is
    logged, and the timestamp is stored all the same. *)
Lemma timestamp_stored_after_failed_dispatch :
  let w := failing_script_world in
  exists w',
    trySendNotification sample_args (lastMemAlertSentTime initial_AppState)
                        mem_title (Float.of_int 85) w
      = (Returned (seconds 2000), w') /\
    seconds 2000 <> lastMemAlertSentTime initial_AppState /\
    new_events w w' =
      [EvNow (seconds 2000);
       EvSystem (NotifyCommand "notify.sh" mem_title (Float.of_int 85)) 1;
       EvPrintf script_failed_message [ArgInt 1]].
Proof.
  cbv zeta.
  exists (snd (trySendNotification sample_args (lastMemAlertSentTime initial_AppState)
                                   mem_title (Float.of_int 85) failing_script_world)).
  split; [apply pair_from_fst; vm_compute; reflexivity|].
  split; [vm_compute; discriminate|].
  vm_compute. reflexivity.
Qed.

End AlertStateClaims.

Section CycleAbort.

Lemma doPeriodicCheck_without_free_output args appState readBuffer w :
  pipe_output (env w) (tick w) free_cmd = None ->
  doPeriodicCheck args appState readBuffer w =
  (Threw std_out_of_range,
   emit (EvPrintf "Could not execute 'free -L'\n" []) (emit (EvReadCommand free_cmd None) w)).
Proof.
  intros H. unfold doPeriodicCheck, memory_phase, bind.
  rewrite (checkMemory_without_output readBuffer w H). reflexivity.
Qed.

Lemma main_loop_without_free_output args n appState readBuffer w :
  pipe_output (env w) (tick w) free_cmd = None ->
  main_loop (S n) args appState readBuffer w =
  (Threw std_out_of_range,
   emit (EvPrintf "Could not execute 'free -L'\n" []) (emit (EvReadCommand free_cmd None) w)).
Proof.
  intros H. cbn [main_loop]. unfold bind at 1.
  rewrite (doPeriodicCheck_without_free_output args appState readBuffer w H). reflexivity.
Qed.

(** C7. The phases of a cycle are not independent when the memory phase
    fails.  In a world where [free -L] cannot be run while [sar] answers
    normally, the cycle logs the failure, throws [std::out_of_range] out of
    the memory sampler and ends there: [sar] is never read, nothing is
    captured, no notification is attempted and the loop does not sleep,
    although the CPU sampler on its own returns 65.0 in that very world. *)
Theorem cycle_aborts_when_free_fails (args : Args) (appState : AppState)
    (readBuffer : string) (n : nat) :
  let w := sample_world None (Some sar_sample) in
  let aborted :=
    (Threw std_out_of_range,
     emit (EvPrintf "Could not execute 'free -L'\n" []) (emit (EvReadCommand free_cmd None) w)) in
  doPeriodicCheck args appState readBuffer w = aborted /\
  main_loop (S n) args appState readBuffer w =
    (Threw std_out_of_range, snd (doPeriodicCheck args appState readBuffer w)) /\
  read_commands (trace (snd (main_loop (S n) args appState readBuffer w))) = [free_cmd] /\
  sleeps (trace (snd (main_loop (S n) args appState readBuffer w))) = [] /\
  fst (checkCpu readBuffer w) = Returned (S754_finite false 8519680 (-17), sar_sample).
Proof.
  cbv zeta.
  rewrite (main_loop_without_free_output args n appState readBuffer
             (sample_world None (Some sar_sample)) eq_refl).
  rewrite (doPeriodicCheck_without_free_output args appState readBuffer
             (sample_world None (Some sar_sample)) eq_refl).
  repeat split; vm_compute; reflexivity.
Qed.

End CycleAbort.

Section ParserClaims.

Lemma parseInt_padded_numeral_witness : parseInt "-42" = Some (-42).
Proof.
  apply (proj2 (parseInt_padded_numeral "-42" (-42))). split.
  - exists "", "-42". split; [reflexivity|]. split; [reflexivity|].
    apply (numeral_minus "42"). split; [discriminate | reflexivity].
  - vm_compute. split; discriminate.
Defined.

(** C2, as stated, fails: [" 35"] is no complete numeral, it starts with a
    character that is neither a sign nor a digit, and [parseInt] returns 35
    for it. *)
Lemma parseInt_accepts_leading_space :
  parseInt " 35" = Some 35 /\
  (forall v, ~ numeral " 35" v) /\
  ~ (forall s v, parseInt s = Some v <-> numeral s v /\ Int.in_int_range v).
Proof.
  split; [reflexivity|]. split.
  - intros v. apply not_numeral_leading_space.
  - intros H. destruct (proj1 (H " 35" 35) eq_refl) as [Hn _].
    exact (not_numeral_leading_space _ _ Hn).
Qed.

End ParserClaims.

(** ** More on the command line *)

Section CommandLineMore.

Lemma one_letter_flag_some arg c :
  one_letter_flag arg = Some c <-> CLib.c_str arg = String "-" (String c "").
Proof.
  unfold one_letter_flag, arg_char.
  destruct arg as [|a [|b [|d r]]]; cbn [String.get CLib.c_str].
  - split; discriminate.
  - change (Ascii.eqb CLib.NUL CLib.NUL) with true. rewrite andb_false_r.
    destruct (Ascii.eqb a CLib.NUL); split; discriminate.
  - change (Ascii.eqb CLib.NUL CLib.NUL) with true. cbv iota.
    destruct (Ascii.eqb_spec a "-") as [->|Na]; cbn [andb].
    + change (Ascii.eqb "-" CLib.NUL) with false. cbv iota.
      destruct (Ascii.eqb_spec b CLib.NUL) as [->|Nb]; cbn [negb].
      * split; discriminate.
      * split; intros H; injection H as <-; reflexivity.
    + destruct (Ascii.eqb a CLib.NUL); [split; discriminate|].
      destruct (Ascii.eqb b CLib.NUL);
        (split; [discriminate | intros E; injection E as E1; congruence]).
  - destruct (Ascii.eqb_spec a "-") as [->|Na]; cbn [andb].
    + change (Ascii.eqb "-" CLib.NUL) with false. cbv iota.
      destruct (Ascii.eqb_spec b CLib.NUL) as [->|Nb]; cbn [negb].
      * split; discriminate.
      * destruct (Ascii.eqb_spec d CLib.NUL) as [->|Nd].
        -- split; intros H; injection H as <-; reflexivity.
        -- split; discriminate.
    + destruct (Ascii.eqb a CLib.NUL); [split; discriminate|].
      destruct (Ascii.eqb b CLib.NUL);
        (split; [discriminate | intros E; injection E as E1; congruence]).
Qed.

Lemma readArgs_loop_step args arg following :
  readArgs_loop args (arg :: following) =
  match flag_update args arg following with
  | None => unknown_argument arg
  | Some None => invalid_value arg
  | Some (Some args') =>
      match following with
      | _ :: rest => readArgs_loop args' rest
      | [] => invalid_value arg
      end
  end.
Proof.
  cbn [readArgs_loop]. unfold flag_update.
  destruct (one_letter_flag arg) as [c|]; [|reflexivity].
  destruct c as [[] [] [] [] [] [] [] []]; try reflexivity;
    match goal with
    | |- context [option_map ?f ?o] => destruct o; reflexivity
    end.
Qed.

Lemma value_token_head v rest rest' : value_token (v :: rest) = value_token (v :: rest').
Proof. reflexivity. Qed.

Lemma flag_update_head args arg v rest rest' :
  flag_update args arg (v :: rest) = flag_update args arg (v :: rest').
Proof. reflexivity. Qed.

Lemma flag_update_nil args arg : flag_update args arg [] = None \/ flag_update args arg [] = Some None.
Proof.
  unfold flag_update. destruct (one_letter_flag arg) as [c|]; [|auto].
  destruct c as [[] [] [] [] [] [] [] []]; auto.
Qed.

(** X1. Command lines compose: once a prefix of the arguments has been read
    without an exit, reading the whole line is reading the rest from the
    arguments the prefix left; in particular a later flag overrides an
    earlier one. *)
Theorem readArgs_loop_app (pre : list string) :
  forall args args' post,
    readArgs_loop args pre = ArgsParsed args' ->
    readArgs_loop args (pre ++ post) = readArgs_loop args' post.
Proof.
  assert (Hn : forall (n : nat) pre, (List.length pre <= n)%nat ->
               forall args args' post,
                 readArgs_loop args pre = ArgsParsed args' ->
                 readArgs_loop args (pre ++ post) = readArgs_loop args' post).
  { clear pre. induction n as [|n IH]; intros pre Hlen args args' post H.
    - destruct pre; [|cbn in Hlen; lia]. cbn in H. injection H as <-. reflexivity.
    - destruct pre as [|arg following].
      + cbn in H. injection H as <-. reflexivity.
      + cbn [app]. rewrite readArgs_loop_step in *.
        destruct following as [|v rest].
        * destruct (flag_update_nil args arg) as [E|E]; rewrite E in H; discriminate.
        * cbn [app]. rewrite (flag_update_head args arg v (rest ++ post) rest).
          destruct (flag_update args arg (v :: rest)) as [[updated|]|]; try discriminate.
          apply IH; [cbn in Hlen; lia | exact H]. }
  exact (Hn (List.length pre) pre (Nat.le_refl _)).
Qed.

Lemma readArgs_loop_app_witness :
  readArgs_loop default_Args (["-m"; "50"; "-t"; "5"] ++ ["-m"; "60"]) =
  readArgs_loop (set_timeBetweenChecksSec (set_memThresholdPct default_Args (Float.of_int 50)) 5)
                ["-m"; "60"].
Proof.
  apply (readArgs_loop_app ["-m"; "50"; "-t"; "5"]). reflexivity.
Defined.

Lemma readArgs_is_loop argv : readArgs argv = readArgs_loop default_Args (List.tl argv).
Proof. destruct argv as [|prog [|a rest]]; reflexivity. Qed.

(** A property of the arguments that every flag of the line keeps is kept
    by the whole loop. *)
Lemma readArgs_loop_preserves (P : Args -> Prop) (rest : list string) :
  (forall a arg following updated,
     In arg rest -> P a -> flag_update a arg following = Some (Some updated) -> P updated) ->
  forall a a', P a -> readArgs_loop a rest = ArgsParsed a' -> P a'.
Proof.
  assert (Hn : forall (n : nat) rest0, (List.length rest0 <= n)%nat ->
               (forall a arg following updated,
                  In arg rest0 -> P a ->
                  flag_update a arg following = Some (Some updated) -> P updated) ->
               forall a a', P a -> readArgs_loop a rest0 = ArgsParsed a' -> P a').
  { induction n as [|n IH]; intros rest0 Hlen Hkeep a a' Ha H.
    - destruct rest0; [|cbn in Hlen; lia]. cbn in H. injection H as <-. exact Ha.
    - destruct rest0 as [|arg following].
      + cbn in H. injection H as <-. exact Ha.
      + rewrite readArgs_loop_step in H.
        destruct (flag_update a arg following) as [[updated|]|] eqn:E; try discriminate.
        destruct following as [|v rest1]; [discriminate|].
        apply (IH rest1 ltac:(cbn in Hlen; lia)) with (a := updated); [| |exact H].
        * intros a0 arg0 following0 updated0 Hin. apply Hkeep. right. right. exact Hin.
        * exact (Hkeep _ _ _ _ (or_introl eq_refl) Ha E). }
  exact (Hn _ rest (Nat.le_refl _)).
Qed.




Lemma parseInt_in_range s v : parseInt s = Some v -> Int.in_int_range v.
Proof.
  unfold parseInt, accept, Int.in_int_range. intros H.
  repeat match type of H with
         | (if ?b then None else _) = Some _ => destruct b eqn:?; [discriminate|]
         end.
  injection H as <-.
  repeat match goal with
         | Hb : (_ || _)%bool = false |- _ => apply orb_false_iff in Hb; destruct Hb
         | Hb : (_ <? _) = false |- _ => apply Z.ltb_ge in Hb
         end.
  lia.
Qed.

Lemma readArgValue_float_in_range following v :
  readArgValue_float following = Some v ->
  exists n, Int.in_int_range n /\ v = Float.of_int n.
Proof.
  unfold readArgValue_float. destruct (value_token following) as [value|]; [|discriminate].
  destruct (parseInt value) as [n|] eqn:E; [|discriminate].
  intros H. injection H as <-. exists n. split; [exact (parseInt_in_range _ _ E) | reflexivity].
Qed.

Lemma readArgValue_size_t_in_range following v :
  readArgValue_size_t following = Some v -> 0 <= v <= Int.INT_MAX.
Proof.
  unfold readArgValue_size_t. destruct (value_token following) as [value|]; [|discriminate].
  destruct (parseInt value) as [n|] eqn:E; [|discriminate].
  destruct (Z.ltb_spec n 0) as [|Hn]; [discriminate|].
  intros H. injection H as <-. pose proof (parseInt_in_range _ _ E) as Hr.
  unfold Int.in_int_range, Int.INT_MAX, Int.INT_MIN in *.
  unfold Int.size_t, Int.SIZE_MODULUS. rewrite Z.mod_small; lia.
Qed.

Lemma flag_update_in_range args arg following updated :
  args_in_range args -> flag_update args arg following = Some (Some updated) ->
  args_in_range updated.
Proof.
  intros (Ht & Hn & Hm & Hc). unfold flag_update.
  destruct (one_letter_flag arg) as [c|]; [|discriminate].
  destruct c as [[] [] [] [] [] [] [] []]; try discriminate;
    match goal with
    | |- Some (option_map _ ?o) = _ -> _ => destruct o as [v|] eqn:E; [|discriminate]
    end;
    intros H; injection H as <-; unfold args_in_range; cbn;
    first [ apply readArgValue_float_in_range in E
          | apply readArgValue_size_t_in_range in E
          | idtac ]; auto.
Qed.

Lemma default_Args_in_range : args_in_range default_Args.
Proof.
  unfold args_in_range, default_Args, Int.in_int_range, Int.INT_MAX, Int.INT_MIN.
  cbn [timeBetweenChecksSec notificationThrottleSec memThresholdPct cpuThresholdPct].
  split; [lia|]. split; [lia|].
  split; exists 70; (split; [lia | reflexivity]).
Qed.

Lemma flag_update_keeps_script a arg following updated :
  CLib.c_str arg <> "-r" -> flag_update a arg following = Some (Some updated) ->
  runCustomScript updated = runCustomScript a.
Proof.
  intros Hr. unfold flag_update.
  destruct (one_letter_flag arg) as [c|] eqn:E; [|discriminate].
  apply one_letter_flag_some in E.
  destruct c as [[] [] [] [] [] [] [] []]; try discriminate;
    try (exfalso; apply Hr; exact E);
    match goal with
    | |- Some (option_map _ ?o) = _ -> _ => destruct o as [v|]; [|discriminate]
    end;
    intros H; injection H as <-; reflexivity.
Qed.

(** X3. Whatever the command line, the arguments [readArgs] hands to the
    loop are in range: the two periods are between 0 and [INT_MAX] seconds
    and each threshold is an integer converted to [float], so it is never a
    NaN.  The range \[0, 100) the source documents for the thresholds is not
    enforced. *)
Theorem readArgs_in_range (argv : list string) (args : Args) :
  readArgs argv = ArgsParsed args -> args_in_range args.
Proof.
  rewrite readArgs_is_loop.
  apply (readArgs_loop_preserves args_in_range); [|exact default_Args_in_range].
  intros a arg following updated _. apply flag_update_in_range.
Qed.

Lemma readArgs_in_range_witness :
  args_in_range (set_notificationThrottleSec
                   (set_memThresholdPct default_Args (Float.of_int 150)) 0).
Proof.
  apply (readArgs_in_range ["resource_alert"; "-m"; "150"; "-n"; "0"]). reflexivity.
Defined.

End CommandLineMore.

(** ** More on strings and fixed-column extraction *)

Section StringsMore.

Lemma length_append a b : String.length (a ++ b) = (String.length a + String.length b)%nat.
Proof. induction a as [|c a IH]; cbn; [reflexivity | rewrite IH; reflexivity]. Qed.

Lemma append_assoc a b c : (a ++ b) ++ c = a ++ b ++ c.
Proof. induction a as [|x a IH]; cbn; [reflexivity | rewrite IH; reflexivity]. Qed.

Lemma size_append a b : Str.size (a ++ b) = Str.size a + Str.size b.
Proof. unfold Str.size. rewrite length_append. lia. Qed.

Lemma substring_append_skip a b (m : nat) :
  String.substring (String.length a) m (a ++ b) = String.substring 0 m b.
Proof. induction a as [|x a IH]; cbn; [reflexivity | exact IH]. Qed.

Lemma substring_prefix b c : String.substring 0 (String.length b) (b ++ c) = b.
Proof. induction b as [|x b IH]; cbn; [destruct c; reflexivity | rewrite IH; reflexivity]. Qed.

(** The window that covers [b] inside [a ++ b ++ c] is [b]. *)
Lemma substring_middle a b c :
  String.substring (String.length a) (String.length b) (a ++ b ++ c) = b.
Proof. rewrite substring_append_skip. apply substring_prefix. Qed.

Lemma substring_split s (p m : nat) :
  (p + m <= String.length s)%nat ->
  s = String.substring 0 p s ++ String.substring p m s
        ++ String.substring (p + m) (String.length s - (p + m)) s.
Proof.
  revert p m. induction s as [|x s IH]; intros p m H.
  - cbn in H. assert (p = 0%nat) by lia. assert (m = 0%nat) by lia. subst. reflexivity.
  - destruct p as [|p].
    + destruct m as [|m].
      * cbn. f_equal. cbn in IH. specialize (IH 0%nat 0%nat ltac:(lia)).
        cbn in IH. rewrite Nat.sub_0_r in IH.
        destruct s; [reflexivity|]. cbn in IH. exact IH.
      * cbn [String.substring append Nat.add String.length Nat.sub]. f_equal.
        cbn in H. specialize (IH 0%nat m ltac:(lia)).
        assert (E0 : String.substring 0 0 s = "") by (destruct s; reflexivity).
        rewrite E0 in IH. cbn [append Nat.add] in IH. exact IH.
    + cbn [String.substring append Nat.add String.length Nat.sub]. f_equal.
      cbn in H. exact (IH p m ltac:(lia)).
Qed.

Lemma char_at_append_r a b j :
  0 <= j -> Str.char_at (a ++ b) (Str.size a + j) = Str.char_at b j.
Proof.
  intros Hj. unfold Str.char_at. rewrite size_append. unfold Str.size.
  replace (Z.to_nat (Z.of_nat (String.length a) + j))
    with (Z.to_nat j + String.length a)%nat by lia.
  rewrite <- append_correct2.
  destruct (Z.leb_spec 0 (Z.of_nat (String.length a) + j)); [|lia].
  destruct (Z.leb_spec 0 j); [|lia]. cbn [andb].
  destruct (Z.ltb_spec (Z.of_nat (String.length a) + j)
                       (Z.of_nat (String.length a) + Z.of_nat (String.length b)));
    destruct (Z.ltb_spec j (Z.of_nat (String.length b))); try lia; reflexivity.
Qed.

Lemma char_at_append_l a b j :
  0 <= j < Str.size a -> Str.char_at (a ++ b) j = Str.char_at a j.
Proof.
  intros Hj. unfold Str.char_at. rewrite size_append. unfold Str.size in *.
  rewrite <- append_correct1 by lia.
  destruct (Z.leb_spec 0 j); [|lia]. cbn [andb].
  destruct (Z.ltb_spec j (Z.of_nat (String.length a) + Z.of_nat (String.length b)));
    destruct (Z.ltb_spec j (Z.of_nat (String.length a))); try lia; reflexivity.
Qed.

Lemma all_chars_char_at p s j :
  all_chars p s = true -> 0 <= j < Str.size s -> p (Str.char_at s j) = true.
Proof.
  revert j. induction s as [|c r IH]; intros j H Hj.
  - unfold Str.size in Hj. cbn in Hj. lia.
  - cbn in H. apply andb_true_iff in H. destruct H as [Hc Hr].
    destruct (Z.eq_dec j 0) as [->|Hne].
    + rewrite char_at_head. exact Hc.
    + replace j with (j - 1 + 1) by lia. rewrite char_at_tail by lia.
      apply IH; [exact Hr|]. unfold Str.size in *. cbn [String.length] in Hj. lia.
Qed.

End StringsMore.

Section SubstrMore.

(** X4. As long as [position + substring.size()] does not wrap around,
    [isSubstr] answers [true] exactly when the string is some [pre], then the
    substring, then a non-empty remainder, with [pre] of the length asked
    for: an occurrence is recognised everywhere except where it ends the
    string. *)
Theorem isSubstr_occurrence (s t : string) (p : nat) :
  Str.size s < Int.SIZE_MODULUS ->
  Z.of_nat p + Str.size t < Int.SIZE_MODULUS ->
  (isSubstr s t (Z.of_nat p) = true <->
   exists pre post,
     s = pre ++ t ++ post /\ String.length pre = p /\ post <> "").
Proof.
  intros Hs Hpt. rewrite (isSubstr_true_iff s t p Hs Hpt). unfold Str.size.
  split.
  - intros [Hlt Hsub].
    exists (String.substring 0 p s),
           (String.substring (p + String.length t)
                             (String.length s - (p + String.length t)) s).
    split; [|split].
    + pose proof (substring_split s p (String.length t) ltac:(lia)) as Hsplit.
      rewrite Hsub in Hsplit. exact Hsplit.
    + apply substring_length. lia.
    + intros E.
      assert (Hl : String.length (String.substring (p + String.length t)
                                    (String.length s - (p + String.length t)) s)
                   = (String.length s - (p + String.length t))%nat)
        by (apply substring_length; lia).
      rewrite E in Hl. cbn in Hl. lia.
  - intros (pre & post & -> & <- & Hpost).
    split.
    + rewrite !length_append. destruct post; [congruence|]. cbn [String.length]. lia.
    + apply substring_middle.
Qed.

Lemma isSubstr_occurrence_witness :
  isSubstr "CPU %idle x" "%idle" 4 = true.
Proof.
  apply (proj2 (isSubstr_occurrence "CPU %idle x" "%idle" 4
                                    ltac:(vm_compute; reflexivity)
                                    ltac:(vm_compute; reflexivity))).
  exists "CPU ", " x". split; [reflexivity|]. split; [reflexivity | discriminate].
Defined.

End SubstrMore.

Section ExtractionMore.

Lemma quarter_bounds size : 1 <= size -> 0 <= (size - 1) / 4 /\ 4 * ((size - 1) / 4) <= size - 1.
Proof.
  intros H. split; [apply Z.div_pos; lia | apply Z.mul_div_le; lia].
Qed.

Lemma getFreePartValue_unfold buffer partIndex w :
  1 <= Str.size buffer <= Int.INT_MAX -> 0 <= partIndex <= 3 ->
  let startOffset := (Str.size buffer - 1) / 4 * partIndex + 9 in
  getFreePartValue buffer partIndex w =
  let maxNumberLen := Int.size_t ((Str.size buffer - 1) / 4 - 9) in
  let end_ := Z.min (Int.size_t (startOffset + maxNumberLen)) (Str.size buffer) in
  match scan_field buffer (Z.to_nat (end_ - startOffset))
                   startOffset startOffset maxNumberLen with
  | (numberStart, numberLen) =>
      match Str.substr buffer numberStart numberLen with
      | Threw e => (Threw e, w)
      | Returned numberPart =>
          match parseInt (CLib.c_str numberPart) with
          | None =>
              (Returned 0,
               emit (EvPrintf "Failed to parse number '%s' from 'free -L' output '%s'\n"
                              [ArgStr numberPart; ArgStr buffer]) w)
          | Some parsedNumber => (Returned parsedNumber, w)
          end
      end
  end.
Proof.
  intros [Hlo Hhi] Hidx startOffset. unfold Int.INT_MAX in Hhi.
  destruct (quarter_bounds _ Hlo) as [Hq0 Hq4].
  unfold getFreePartValue. cbv zeta. unfold longestHeaderLen.
  rewrite (size_t_small (Str.size buffer - 1)) by (unfold Int.SIZE_MODULUS; lia).
  rewrite (size_t_small ((Str.size buffer - 1) / 4 * partIndex))
    by (unfold Int.SIZE_MODULUS; nia).
  rewrite (size_t_small ((Str.size buffer - 1) / 4 * partIndex + (8 + 1)))
    by (unfold Int.SIZE_MODULUS; nia).
  change (8 + 1) with 9. fold startOffset.
  destruct (scan_field _ _ _ _ _) as [numberStart numberLen].
  unfold bind, lift. destruct (Str.substr buffer numberStart numberLen); [|reflexivity].
  destruct (parseInt _); reflexivity.
Qed.



Lemma scan_field_skips buffer (m : nat) : forall (n : nat) i numberStart numberLen,
  0 <= i -> i + Z.of_nat m < Str.size buffer -> Str.size buffer <= Int.INT_MAX ->
  (forall j, 0 <= j < Z.of_nat m -> Str.char_at buffer (i + j) = " "%char) ->
  Str.char_at buffer (i + Z.of_nat m) <> " "%char ->
  (m < n)%nat -> Z.of_nat m + 1 <= numberLen < Int.SIZE_MODULUS ->
  scan_field buffer n i numberStart numberLen = (i + Z.of_nat m, numberLen - Z.of_nat m - 1).
Proof.
  induction m as [|m IH]; intros n i numberStart numberLen Hi Hlt Hb Hsp Hns Hn Hlen;
    (destruct n as [|n]; [lia|]); cbn [scan_field];
    rewrite (size_t_small (numberLen - 1)) by lia.
  - cbn [Z.of_nat] in *. replace (i + 0) with i in * by lia.
    destruct (Ascii.eqb_spec (Str.char_at buffer i) " ") as [E|_]; [contradiction|].
    cbn [negb]. f_equal; lia.
  - pose proof (Hsp 0 ltac:(lia)) as H0. replace (i + 0) with i in H0 by lia.
    rewrite H0. change (Ascii.eqb " " " ") with true. cbn [negb].
    unfold Int.INT_MAX in Hb.
    rewrite (size_t_small (i + 1)) by (unfold Int.SIZE_MODULUS; lia).
    rewrite (IH n (i + 1) numberStart (numberLen - 1)); try lia.
    + f_equal; lia.
    + unfold Int.INT_MAX. lia.
    + intros j Hj. replace (i + 1 + j) with (i + (j + 1)) by lia. apply Hsp. lia.
    + replace (i + 1 + Z.of_nat m) with (i + Z.of_nat (S m)) by lia. exact Hns.
Qed.

Lemma isdigit_not_NUL c : CLib.isdigit c = true -> Ascii.eqb c CLib.NUL = false.
Proof.
  intros H. apply Ascii.eqb_neq. intros ->. vm_compute in H. discriminate.
Qed.

Lemma c_str_digits ds : all_chars CLib.isdigit ds = true -> CLib.c_str ds = ds.
Proof.
  induction ds as [|c r IH]; cbn; [reflexivity|]. intros H.
  apply andb_true_iff in H. destruct H as [Hc Hr].
  rewrite (isdigit_not_NUL c Hc), (IH Hr). reflexivity.
Qed.

Lemma parseInt_digit_string ds :
  digit_string ds -> Int.in_int_range (decimal_value ds) ->
  parseInt ds = Some (decimal_value ds).
Proof.
  intros Hds Hr. rewrite parseInt_accept. unfold CLib.strtol.
  destruct (digit_string_inv ds Hds) as (c & r & E & Hc & _).
  assert (Hsk : CLib.skip_space ds = ds)
    by (rewrite E; cbn; rewrite (isdigit_not_space c Hc); reflexivity).
  rewrite Hsk. destruct (isdigit_not_sign c Hc) as [Hm Hp].
  destruct Hds as [Hne Hall]. subst ds. cbv iota. rewrite Hm, Hp.
  apply accept_convert_digits. split; [exact Hne|]. split; [split; assumption|]. auto.
Qed.

(** X6. Fixed-column extraction reads a well-formed block exactly.  When the
    field of block [partIndex], the [(size - 1) / 4 - 9] characters from
    offset [(size - 1) / 4 * partIndex + 9], is padding spaces, then a string
    of digits whose value fits an [int], then one last character, the
    extraction returns the value of the digits and logs nothing; the last
    character of the field is never part of the number. *)
Theorem getFreePartValue_reads_block
    (buffer pre pad digits post : string) (last : ascii) (partIndex : Z) (w : World) :
  buffer = pre ++ pad ++ digits ++ String last post ->
  Str.size buffer <= Int.INT_MAX -> 0 <= partIndex <= 3 ->
  Str.size pre = (Str.size buffer - 1) / 4 * partIndex + 9 ->
  Str.size pad + Str.size digits + 1 = (Str.size buffer - 1) / 4 - 9 ->
  all_chars (fun c => Ascii.eqb c " ") pad = true ->
  digit_string digits -> Int.in_int_range (decimal_value digits) ->
  getFreePartValue buffer partIndex w = (Returned (decimal_value digits), w).
Proof.
  intros Hbuf Hhi Hidx Hpre Hfield Hpad Hds Hrange.
  destruct (digit_string_inv digits Hds) as (d & ds' & Ed & Hd & Hall).
  assert (Hsize : Str.size buffer
                  = Str.size pre + Str.size pad + Str.size digits + 1 + Str.size post).
  { rewrite Hbuf, !size_append. unfold Str.size. cbn [String.length]. lia. }
  pose proof (size_nonneg pre) as Hp0. pose proof (size_nonneg pad) as Hpad0.
  pose proof (size_nonneg post) as Hpost0.
  assert (Hdig1 : 1 <= Str.size digits)
    by (rewrite Ed; unfold Str.size; cbn [String.length]; lia).
  rewrite (getFreePartValue_unfold buffer partIndex w ltac:(lia) Hidx). cbv zeta.
  rewrite <- Hpre, <- Hfield. unfold Int.INT_MAX in Hhi.
  rewrite (size_t_small (Str.size pad + Str.size digits + 1))
    by (unfold Int.SIZE_MODULUS; lia).
  rewrite (size_t_small (Str.size pre + (Str.size pad + Str.size digits + 1)))
    by (unfold Int.SIZE_MODULUS; lia).
  rewrite Z.min_l by lia.
  replace (Z.to_nat (Str.size pre + (Str.size pad + Str.size digits + 1) - Str.size pre))
    with (String.length pad + String.length digits + 1)%nat by (unfold Str.size; lia).
  rewrite (scan_field_skips buffer (String.length pad)).
  - replace (Str.size pad + Str.size digits + 1 - Z.of_nat (String.length pad) - 1)
      with (Z.of_nat (String.length digits)) by (unfold Str.size; lia).
    replace (Str.size pre + Z.of_nat (String.length pad))
      with (Z.of_nat (String.length (pre ++ pad)))
      by (rewrite length_append; unfold Str.size; lia).
    rewrite substr_in_range
      by (rewrite Hbuf, !length_append; lia).
    rewrite Hbuf at 1. rewrite <- append_assoc. rewrite substring_middle.
    rewrite (c_str_digits digits Hall), (parseInt_digit_string digits Hds Hrange).
    reflexivity.
  - lia.
  - unfold Str.size in *. lia.
  - unfold Int.INT_MAX. lia.
  - intros j Hj. rewrite Hbuf. rewrite char_at_append_r by lia.
    rewrite char_at_append_l by (unfold Str.size; lia).
    apply Ascii.eqb_eq.
    apply (all_chars_char_at (fun c => Ascii.eqb c " ") pad j Hpad).
    unfold Str.size. lia.
  - rewrite Hbuf. rewrite char_at_append_r by lia.
    replace (Z.of_nat (String.length pad)) with (Str.size pad + 0) by (unfold Str.size; lia).
    rewrite char_at_append_r by lia.
    rewrite char_at_append_l by lia.
    rewrite Ed, char_at_head. intros ->. vm_compute in Hd. discriminate.
  - lia.
  - unfold Str.size, Int.SIZE_MODULUS in *. lia.
Qed.

Lemma getFreePartValue_reads_block_witness :
  getFreePartValue free_sample 2 (sample_world None None)
    = (Returned 30, sample_world None None).
Proof.
  apply (getFreePartValue_reads_block
           free_sample "SwapUse           0 CachUse     1234567  MemUse  "
           "        " "30" ("MemFree          70 " ++ new_line) " " 2).
  - reflexivity.
  - vm_compute. discriminate.
  - lia.
  - reflexivity.
  - reflexivity.
  - reflexivity.
  - split; [discriminate | reflexivity].
  - vm_compute. split; discriminate.
Defined.

End ExtractionMore.

(** ** More on the samplers *)

Section DigitFree.

Import CLib.

Lemma all_chars_append p a b :
  all_chars p (a ++ b) = (all_chars p a && all_chars p b)%bool.
Proof.
  induction a as [|c a IH]; cbn; [reflexivity|]. rewrite IH, andb_assoc. reflexivity.
Qed.

Lemma all_chars_substring p s (n m : nat) :
  all_chars p s = true -> all_chars p (String.substring n m s) = true.
Proof.
  revert n m. induction s as [|c r IH]; intros n m H.
  - destruct n, m; reflexivity.
  - cbn in H. apply andb_true_iff in H. destruct H as [Hc Hr].
    destruct n as [|n]; cbn.
    + destruct m as [|m]; [reflexivity|]. cbn. rewrite Hc. exact (IH 0%nat m Hr).
    + exact (IH n m Hr).
Qed.

Lemma all_chars_c_str p s : all_chars p s = true -> all_chars p (c_str s) = true.
Proof.
  induction s as [|c r IH]; cbn; [reflexivity|]. intros H.
  apply andb_true_iff in H. destruct H as [Hc Hr].
  destruct (Ascii.eqb c NUL); [reflexivity|]. cbn. rewrite Hc. exact (IH Hr).
Qed.

(** What [parseInt] accepts, read off [strtol]: skipped white space, then a
    numeral. *)
Lemma parseInt_shape s v :
  parseInt s = Some v ->
  exists ws body, s = ws ++ body /\ all_chars isspace ws = true /\ numeral body v.
Proof.
  rewrite parseInt_accept. unfold strtol.
  destruct (skip_space_split s) as [ws [E A]].
  destruct (skip_space s) as [|c r] eqn:Es1.
  - rewrite accept_no_conversion. discriminate.
  - destruct (Ascii.eqb_spec c "-") as [->|Nm]; [|destruct (Ascii.eqb_spec c "+") as [->|Np]];
      intros H; apply accept_convert_digits in H; destruct H as (_ & Hds & -> & _);
      exists ws; eexists; (split; [exact E|]); (split; [exact A|]).
    + apply numeral_minus. exact Hds.
    + apply numeral_plus. exact Hds.
    + apply numeral_unsigned. exact Hds.
Qed.

Lemma numeral_has_digit body v : numeral body v -> digit_free body = false.
Proof.
  unfold digit_free.
  intros [ds Hds | ds Hds | ds Hds];
    destruct (digit_string_inv ds Hds) as (c & r & -> & Hc & _); cbn; rewrite Hc; reflexivity.
Qed.

Lemma parseInt_digit_free s : digit_free s = true -> parseInt s = None.
Proof.
  intros H. destruct (parseInt s) as [v|] eqn:E; [|reflexivity].
  destruct (parseInt_shape s v E) as (ws & body & -> & _ & Hn).
  unfold digit_free in H. rewrite all_chars_append in H.
  apply andb_true_iff in H. destruct H as [_ Hb].
  pose proof (numeral_has_digit body v Hn) as Hd. unfold digit_free in Hd. congruence.
Qed.

End DigitFree.

Section MemoryMore.

(** On a buffer that holds the start offset, the extraction parses a window
    of the buffer. *)
Lemma getFreePartValue_window buffer partIndex w :
  1 <= Str.size buffer <= Int.INT_MAX -> 0 <= partIndex <= 3 ->
  (Str.size buffer - 1) / 4 * partIndex + 9 <= Str.size buffer ->
  exists (a b : nat),
    getFreePartValue buffer partIndex w =
    match parseInt (CLib.c_str (String.substring a b buffer)) with
    | Some v => (Returned v, w)
    | None =>
        (Returned 0,
         emit (EvPrintf parse_failure_message
                        [ArgStr (String.substring a b buffer); ArgStr buffer]) w)
    end.
Proof.
  intros [Hlo Hhi] Hidx Hin.
  rewrite (getFreePartValue_unfold buffer partIndex w (conj Hlo Hhi) Hidx). cbv zeta.
  unfold Int.INT_MAX in Hhi. destruct (quarter_bounds _ Hlo) as [Hq0 Hq4].
  set (startOffset := (Str.size buffer - 1) / 4 * partIndex + 9) in *.
  assert (Hstart0 : 9 <= startOffset) by (unfold startOffset; nia).
  set (maxNumberLen := Int.size_t ((Str.size buffer - 1) / 4 - 9)).
  set (end_ := Z.min (Int.size_t (startOffset + maxNumberLen)) (Str.size buffer)).
  assert (Hend : end_ <= Str.size buffer) by (unfold end_; lia).
  pose proof (scan_field_in_buffer buffer (Z.to_nat (end_ - startOffset))
                                   startOffset startOffset maxNumberLen
                                   ltac:(lia) ltac:(lia) ltac:(lia)
                                   ltac:(unfold Int.INT_MAX; lia)) as Hscan.
  destruct (scan_field buffer (Z.to_nat (end_ - startOffset)) startOffset startOffset
                       maxNumberLen) as [numberStart numberLen].
  cbn [fst] in Hscan. unfold Str.substr.
  destruct (Z.ltb_spec (Str.size buffer) numberStart) as [Hc|_]; [lia|].
  eexists _, _. reflexivity.
Qed.

Lemma ge_nan thr : Float.ge S754_nan thr = false.
Proof. destruct thr; reflexivity. Qed.

(** X7. A memory report without a single digit does not alert.  On such a
    buffer of at least 33 characters both extractions fail: each logs the
    text it could not parse and yields 0, the percentage is the NaN of 0/0,
    which is below every threshold, and the memory half of the cycle ends
    with the alert state untouched, nothing saved and nothing notified. *)
Theorem memory_phase_without_digits (args : Args) (appState : AppState)
    (previous buffer : string) (w : World) :
  pipe_output (env w) (tick w) free_cmd = Some buffer ->
  33 <= Str.size buffer <= Int.INT_MAX ->
  digit_free buffer = true ->
  exists (used_text free_text : string) w',
    checkMemory previous w = (Returned (S754_nan, buffer), w') /\
    memory_phase args appState previous w = (Returned (appState, buffer), w') /\
    new_events w w' =
      [EvReadCommand free_cmd (Some buffer);
       EvPrintf parse_failure_message [ArgStr used_text; ArgStr buffer];
       EvPrintf parse_failure_message [ArgStr free_text; ArgStr buffer]].
Proof.
  intros Hp [Hlo Hhi] Hfree. unfold Int.INT_MAX in Hhi.
  assert (Hq : 8 <= (Str.size buffer - 1) / 4) by (apply Z.div_le_lower_bound; lia).
  destruct (quarter_bounds (Str.size buffer) ltac:(lia)) as [_ Hq4].
  set (w1 := emit (EvReadCommand free_cmd (Some buffer)) w).
  destruct (getFreePartValue_window buffer 2 w1 ltac:(unfold Int.INT_MAX; lia)
                                    ltac:(lia) ltac:(lia)) as (a2 & b2 & E2).
  rewrite parseInt_digit_free in E2
    by (apply all_chars_c_str, all_chars_substring; exact Hfree).
  set (w2 := emit (EvPrintf parse_failure_message
                            [ArgStr (String.substring a2 b2 buffer); ArgStr buffer]) w1) in *.
  destruct (getFreePartValue_window buffer 3 w2 ltac:(unfold Int.INT_MAX; lia)
                                    ltac:(lia) ltac:(lia)) as (a3 & b3 & E3).
  rewrite parseInt_digit_free in E3
    by (apply all_chars_c_str, all_chars_substring; exact Hfree).
  pose proof (checkMemory_run previous w buffer 0 0 _ _ Hp E2 E3) as Hrun.
  change (used_percentage 0 0) with S754_nan in Hrun.
  eexists _, _, _. split; [exact Hrun|]. split.
  - unfold memory_phase, bind. rewrite Hrun, ge_nan. reflexivity.
  - unfold new_events, w2, w1, emit. cbn [trace].
    rewrite <- !app_assoc. rewrite skipn_app, skipn_all, Nat.sub_diag. reflexivity.
Qed.

Lemma memory_phase_without_digits_witness :
  exists used_text free_text w',
    checkMemory "" (sample_world (Some "free: command not found, nothing to report") None)
      = (Returned (S754_nan, "free: command not found, nothing to report"), w') /\
    memory_phase default_Args initial_AppState ""
                 (sample_world (Some "free: command not found, nothing to report") None)
      = (Returned (initial_AppState, "free: command not found, nothing to report"), w') /\
    new_events (sample_world (Some "free: command not found, nothing to report") None) w' =
      [EvReadCommand free_cmd (Some "free: command not found, nothing to report");
       EvPrintf parse_failure_message
                [ArgStr used_text; ArgStr "free: command not found, nothing to report"];
       EvPrintf parse_failure_message
                [ArgStr free_text; ArgStr "free: command not found, nothing to report"]].
Proof.
  apply (memory_phase_without_digits default_Args initial_AppState "").
  - reflexivity.
  - vm_compute. split; discriminate.
  - reflexivity.
Defined.

End MemoryMore.

Section CpuMore.

Variable w : World.
Variable buffer : string.
Hypothesis sar_prints : pipe_output (env w) (tick w) sar_cmd = Some buffer.
Hypothesis buffer_small : Str.size buffer <= Int.INT_MAX.

(** The header search on a buffer whose first line ends at [k] and holds its
    last ["%idle"] at column [c]. *)
Lemma find_idle_located (k c : nat) :
  first_line_end buffer (Z.of_nat k) -> (k < String.length buffer)%nat ->
  (c + 5 <= k)%nat -> String.substring c 5 buffer = idle_marker ->
  (forall j : nat, (c < j)%nat -> (j + 5 <= k)%nat ->
                   String.substring j 5 buffer <> idle_marker) ->
  find_idle buffer (String.length buffer) 0 (-1) = (Z.of_nat c, Z.of_nat k + 1).
Proof.
  intros Hk Hnl Hck Hsub Hlast.
  pose proof (find_idle_inv buffer (Z.of_nat k) buffer_small Hk
                            (String.length buffer) 0%nat (-1)) as Hinv.
  cbn [Z.of_nat] in Hinv.
  destruct (find_idle buffer (String.length buffer) 0 (-1)) as [off sls].
  destruct Hinv as [Hsls Hoff]; [lia | lia |].
  unfold Int.INT_MAX in buffer_small. unfold Str.size in *.
  assert (Hc : isSubstr buffer idle_marker (Z.of_nat c) = true).
  { apply isSubstr_true_iff.
    - unfold Str.size, Int.SIZE_MODULUS. lia.
    - rewrite idle_marker_size. unfold Int.SIZE_MODULUS. lia.
    - rewrite idle_marker_size. unfold Str.size. split; [lia | exact Hsub]. }
  destruct (Z.ltb_spec (Z.of_nat k) (Z.of_nat (String.length buffer))) as [_|]; [|lia].
  f_equal; [|exact Hsls].
  destruct Hoff as [[_ Hno] | (Hr & Hm & Hno)].
  - rewrite Hno in Hc by lia. discriminate.
  - destruct (Z.lt_trichotomy off (Z.of_nat c)) as [Hlt | [E | Hgt]]; [|exact E|].
    + rewrite Hno in Hc by lia. discriminate.
    + exfalso.
      replace off with (Z.of_nat (Z.to_nat off)) in Hm by lia.
      destruct (marker_within_first_line buffer (Z.of_nat k) (Z.to_nat off)) as [H5 Hs];
        [unfold Int.INT_MAX, Str.size; lia | exact Hk | lia | exact Hm |].
      apply (Hlast (Z.to_nat off)); [lia | lia | exact Hs].
Qed.

(** X8. The CPU sampler throws on a report whose data line is too short.
    When the first line holds ["%idle"] at column [c] and what follows the
    first newline has fewer than [c + 2] characters, for instance when [sar]
    printed its header and nothing else, [substr] is asked for a position
    beyond the buffer and throws [std::out_of_range]; nothing is logged and
    no 0 is returned. *)
Theorem checkCpu_throws_on_short_second_line (previous : string) (k c : nat) :
  first_line_end buffer (Z.of_nat k) -> (k < String.length buffer)%nat ->
  (c + 5 <= k)%nat -> String.substring c 5 buffer = idle_marker ->
  (forall j : nat, (c < j)%nat -> (j + 5 <= k)%nat ->
                   String.substring j 5 buffer <> idle_marker) ->
  (String.length buffer < k + 1 + c + 2)%nat ->
  checkCpu previous w =
  (Threw std_out_of_range, emit (EvReadCommand sar_cmd (Some buffer)) w).
Proof.
  intros Hk Hnl Hck Hsub Hlast Hshort.
  rewrite (checkCpu_unfold w buffer sar_prints previous).
  rewrite (find_idle_located k c Hk Hnl Hck Hsub Hlast).
  destruct (Z.eqb_spec (Z.of_nat c) (-1)) as [E|_]; [lia|].
  unfold Int.INT_MAX in buffer_small. unfold Str.size in buffer_small.
  rewrite size_t_small by (unfold Int.SIZE_MODULUS; lia).
  unfold Str.substr, Str.size.
  destruct (Z.ltb_spec (Z.of_nat (String.length buffer)) (Z.of_nat k + 1 + Z.of_nat c + 2))
    as [_|Hc]; [reflexivity | lia].
Qed.

End CpuMore.

Section CpuMoreWitness.

Lemma checkCpu_throws_on_short_second_line_witness :
  checkCpu "" (sample_world None (Some sar_header_only)) =
  (Threw std_out_of_range,
   emit (EvReadCommand sar_cmd (Some sar_header_only))
        (sample_world None (Some sar_header_only))).
Proof.
  refine (checkCpu_throws_on_short_second_line
            (sample_world None (Some sar_header_only)) sar_header_only
            eq_refl _ "" 79 74 _ _ _ _ _ _).
  - vm_compute. discriminate.
  - exact (first_line_end_length sar_header_only).
  - vm_compute. lia.
  - lia.
  - reflexivity.
  - intros j H1 H2. lia.
  - vm_compute. lia.
Defined.

End CpuMoreWitness.

Section CpuRange.

Import CLib.

Lemma decimal_value_bound ds :
  all_chars isdigit ds = true ->
  0 <= decimal_value ds < 10 ^ Z.of_nat (String.length ds).
Proof.
  induction ds as [|c r IH]; cbn [all_chars decimal_value String.length]; intros H.
  - cbn. lia.
  - apply andb_true_iff in H. destruct H as [Hc Hr]. specialize (IH Hr).
    pose proof (digit_value_range c Hc).
    rewrite Nat2Z.inj_succ, Z.pow_succ_r by lia. nia.
Qed.

Lemma pow10_le (a b : nat) : (a <= b)%nat -> 10 ^ Z.of_nat a <= 10 ^ Z.of_nat b.
Proof. intros H. apply Z.pow_le_mono_r; lia. Qed.

(** A field of at most three characters holds a number from -99 to 999. *)
Lemma parseInt_three_chars s v :
  parseInt s = Some v -> (String.length s <= 3)%nat -> -99 <= v <= 999.
Proof.
  intros H Hlen. destruct (parseInt_shape s v H) as (ws & body & -> & _ & Hn).
  rewrite length_append in Hlen.
  destruct Hn as [ds [_ Hd] | ds [_ Hd] | ds [_ Hd]];
    pose proof (decimal_value_bound ds Hd) as Hb; cbn [String.length] in Hlen.
  - pose proof (pow10_le (String.length ds) 3 ltac:(lia)) as Hp.
    change (10 ^ Z.of_nat 3) with 1000 in Hp. lia.
  - pose proof (pow10_le (String.length ds) 2 ltac:(lia)) as Hp.
    change (10 ^ Z.of_nat 2) with 100 in Hp. lia.
  - pose proof (pow10_le (String.length ds) 2 ltac:(lia)) as Hp.
    change (10 ^ Z.of_nat 2) with 100 in Hp. lia.
Qed.

Lemma c_str_length s : (String.length (c_str s) <= String.length s)%nat.
Proof.
  induction s as [|c r IH]; cbn; [lia|]. destruct (Ascii.eqb c NUL); cbn; lia.
Qed.

Lemma substring_length_le s (n m : nat) : (String.length (String.substring n m s) <= m)%nat.
Proof.
  revert n m. induction s as [|c r IH]; intros n m.
  - destruct n, m; cbn; lia.
  - destruct n as [|n]; cbn.
    + destruct m as [|m]; cbn; [lia|]. specialize (IH 0%nat m). lia.
    + apply IH.
Qed.

Lemma of_int_finite_in_range n :
  -899 <= n <= 199 -> is_finite_float (Float.of_int n) = true.
Proof.
  intros H.
  assert (Hall : forallb (fun k => is_finite_float (Float.of_int (Z.of_nat k - 899)))
                         (seq 0 1099) = true) by (vm_compute; reflexivity).
  rewrite forallb_forall in Hall.
  specialize (Hall (Z.to_nat (n + 899)) ltac:(apply in_seq; lia)).
  replace (Z.of_nat (Z.to_nat (n + 899)) - 899) with n in Hall by lia. exact Hall.
Qed.

(** X9. Whatever [sar] printed, the CPU sampler either throws or returns a
    finite percentage: 0 when it could not find or parse the idle column, or
    100 minus a number from -99 to 999, the most a field of three characters
    can hold.  The [int] subtraction [100 - idle] therefore cannot overflow
    and the result is never a NaN, but it may be negative or above 100. *)
Theorem checkCpu_result_range (previous : string) (w : World) :
  match checkCpu previous w with
  | (Threw e, _) => e = std_out_of_range
  | (Returned (pct, _), _) =>
      is_finite_float pct = true /\
      (pct = Float.zero \/ exists idle, -99 <= idle <= 999 /\ pct = Float.of_int (100 - idle))
  end.
Proof.
  unfold checkCpu, bind, readCommandOutput.
  set (w1 := emit _ w).
  assert (Hbody : forall (executed : bool) text (w2 : World),
    match
      (let '(idleOffset, secondLineStart) := find_idle text (String.length text) 0 (-1) in
       if idleOffset =? -1 then
         printf "Could not find idle column in 'sar --dec=0 1 1 | tail -n 3' output\n" [] ;;
         ret (Float.zero, text)
       else
         numberPart <- lift (Str.substr text (Int.size_t (secondLineStart + idleOffset + 2)) 3) ;;
         match parseInt (c_str numberPart) with
         | None =>
             printf "Failed to parse number '%s' from 'sar --dec=0 1 1 | tail -n 3' output '%s'\n"
                    [ArgStr numberPart; ArgStr text] ;;
             ret (Float.zero, text)
         | Some parsedNumber => ret (Float.of_int (100 - parsedNumber), text)
         end) w2
    with
    | (Threw e, _) => e = std_out_of_range
    | (Returned (pct, _), _) =>
        is_finite_float pct = true /\
        (pct = Float.zero \/
         exists idle, -99 <= idle <= 999 /\ pct = Float.of_int (100 - idle))
    end).
  { intros _ text w2.
    destruct (find_idle text (String.length text) 0 (-1)) as [idleOffset secondLineStart].
    destruct (idleOffset =? -1); [cbn; auto|].
    unfold bind, lift, Str.substr.
    destruct (Str.size text <? Int.size_t (secondLineStart + idleOffset + 2));
      [reflexivity|].
    match goal with
    | |- context [parseInt (c_str ?part)] =>
        destruct (parseInt (c_str part)) as [v|] eqn:Ep;
        [pose proof (parseInt_three_chars _ _ Ep
                       ltac:(etransitivity; [apply c_str_length|];
                             etransitivity; [apply substring_length_le|]; lia)) as Hv|]
    end.
    - cbn [ret fst snd]. unfold ret. split; [apply of_int_finite_in_range; lia|]. right. exists v. auto.
    - cbn. auto. }
  destruct (pipe_output (env w) (tick w) sar_cmd) as [text|].
  - cbn [append]. unfold ret at 1. apply (Hbody true).
  - unfold printf at 1. apply (Hbody false).
Qed.

End CpuRange.

(** ** The trace of the loop *)

Section RunTrace.

Local Ltac log_step :=
  first
    [ apply adds_only_at_most, adds_only_ret
    | apply adds_only_at_most, adds_only_printf; reflexivity
    | apply adds_at_most_lift
    | apply adds_at_most_bind; [|intros ?] ].

Lemma getFreePartValue_logs buffer partIndex :
  adds_at_most is_log (getFreePartValue buffer partIndex).
Proof.
  unfold getFreePartValue. cbv zeta. destruct (scan_field _ _ _ _ _) as [numberStart numberLen].
  log_step; [log_step|].
  destruct (parseInt _); [log_step|].
  log_step; log_step.
Qed.

Lemma read_then_logs {A} cmd (f : bool * string -> M A) w :
  (forall a, adds_at_most is_log (f a)) ->
  exists output logs,
    extends w (snd (bind (readCommandOutput cmd "") f w)) (EvReadCommand cmd output :: logs) /\
    forallb is_log logs = true.
Proof.
  intros Hf. unfold bind, readCommandOutput. cbv zeta.
  exists (pipe_output (env w) (tick w) cmd).
  destruct (pipe_output (env w) (tick w) cmd) as [text|].
  - destruct (Hf (true, ("" ++ text)%string) (emit (EvReadCommand cmd (Some text)) w))
      as (logs & Hx & Hl).
    exists logs. split; [|exact Hl].
    exact (extends_trans _ _ _ _ _ (extends_emit w _) Hx).
  - destruct (Hf (false, "") (emit (EvReadCommand cmd None) w)) as (logs & Hx & Hl).
    exists logs. split; [|exact Hl].
    exact (extends_trans _ _ _ _ _ (extends_emit w _) Hx).
Qed.

Lemma checkMemory_trace buffer w :
  exists output logs,
    extends w (snd (checkMemory buffer w)) (EvReadCommand free_cmd output :: logs) /\
    forallb is_log logs = true.
Proof.
  unfold checkMemory. cbv zeta. apply read_then_logs. intros [hasExecuted text].
  log_step; [destruct hasExecuted; log_step|].
  log_step; [apply getFreePartValue_logs|].
  log_step; [apply getFreePartValue_logs|].
  log_step.
Qed.

Lemma checkCpu_trace buffer w :
  exists output logs,
    extends w (snd (checkCpu buffer w)) (EvReadCommand sar_cmd output :: logs) /\
    forallb is_log logs = true.
Proof.
  unfold checkCpu. cbv zeta. apply read_then_logs. intros [hasExecuted text].
  log_step; [destruct hasExecuted; log_step|].
  destruct (find_idle _ _ _ _) as [idleOffset secondLineStart].
  destruct (idleOffset =? -1).
  - log_step; log_step.
  - log_step; [log_step|].
    destruct (parseInt _); [log_step|].
    log_step; log_step.
Qed.

Lemma logs_are_capture_steps logs :
  forallb is_log logs = true -> forallb is_capture_step logs = true.
Proof.
  induction logs as [|e logs IH]; [reflexivity|]. cbn [forallb]. intros H.
  apply andb_true_iff in H. destruct H as [He Hl]. rewrite (IH Hl), andb_true_r.
  destruct e; try discriminate; reflexivity.
Qed.

Lemma trySendNotification_trace args lastSendTime errorTitle pct w :
  exists sent w' evs,
    trySendNotification args lastSendTime errorTitle pct w = (Returned sent, w') /\
    extends w w' evs /\ throttle_trace args errorTitle lastSendTime sent evs.
Proof.
  destruct (string_dec (runCustomScript args) "") as [E|NE].
  - exists lastSendTime, w, []. unfold trySendNotification. rewrite E. cbn [is_empty negb].
    split; [reflexivity|]. split; [apply extends_refl | constructor].
  - rewrite (trySendNotification_run args errorTitle pct NE). cbv zeta.
    destruct (Z.ltb_spec (lastSendTime + seconds (notificationThrottleSec args))
                         (clock (env w) (tick w))) as [Hlt|Hge].
    + eexists _, _, _. split; [reflexivity|]. split.
      2:{ apply (throttle_sent args errorTitle lastSendTime _ pct
                   (script_exit (env w) (S (tick w))
                      (NotifyCommand (runCustomScript args) errorTitle pct)) NE Hlt). }
      destruct (script_exit _ _ _ =? 0).
      * exact (extends_trans _ _ _ _ _ (extends_emit w _) (extends_emit _ _)).
      * exact (extends_trans _ _ _ _ _ (extends_emit w _)
                 (extends_trans _ _ _ _ _ (extends_emit _ _) (extends_emit _ _))).
    + eexists _, _, _. split; [reflexivity|]. split; [apply extends_emit|].
      apply throttle_held; [exact NE | lia].
Qed.

Lemma memory_capture_steps pct timeNow ok1 ok2 :
  forallb is_capture_step (memory_capture_trace pct timeNow ok1 ok2) = true.
Proof. destruct ok1, ok2; reflexivity. Qed.

Lemma cpu_capture_steps pct timeNow ok :
  forallb is_capture_step (cpu_capture_trace pct timeNow ok) = true.
Proof. destruct ok; reflexivity. Qed.

Lemma memory_capture_crash_steps pct timeNow first :
  forallb is_capture_step (memory_capture_crash_trace pct timeNow first) = true.
Proof. destruct first as [[]|]; reflexivity. Qed.

Lemma memory_phase_trace args s readBuffer w :
  exists evs r,
    extends w (snd (memory_phase args s readBuffer w)) evs /\
    phase_trace args free_cmd mem_title (lastMemAlertSentTime s) r evs /\
    match fst (memory_phase args s readBuffer w) with
    | Returned (s', _) =>
        r = Some (lastMemAlertSentTime s') /\
        lastCpuAlertSentTime s' = lastCpuAlertSentTime s
    | Threw _ => r = None
    end.
Proof.
  destruct (checkMemory_trace readBuffer w) as (output & logs & Hx & Hl).
  unfold memory_phase, bind.
  destruct (checkMemory readBuffer w) as [[[pct buffer]|e] w1]; cbn [snd] in Hx.
  2:{ exists (EvReadCommand free_cmd output :: logs), None.
      split; [exact Hx|]. split; [|reflexivity].
      constructor. apply logs_are_capture_steps. exact Hl. }
  destruct (Float.ge pct (memThresholdPct args)).
  - pose proof (memory_capture_events pct w1) as Hc.
    unfold memory_breach, bind.
    destruct (memory_capture pct w1) as [[[]|e] w2].
    + destruct Hc as (timeNow & ok1 & ok2 & Hx1).
      destruct (trySendNotification_trace args (lastMemAlertSentTime s) mem_title pct w2)
        as (sent & w3 & thr & Ht & Hx2 & Hthr).
      rewrite Ht. cbn [ret fst snd].
      exists (EvReadCommand free_cmd output
              :: (logs ++ memory_capture_trace pct timeNow ok1 ok2) ++ thr)%list, (Some sent).
      split.
      * pose proof (extends_trans _ _ _ _ _ Hx (extends_trans _ _ _ _ _ Hx1 Hx2)) as H.
        cbn [app] in H. rewrite app_assoc in H. exact H.
      * split; [|split; reflexivity].
        constructor; [|exact Hthr].
        rewrite forallb_app, (logs_are_capture_steps _ Hl), memory_capture_steps. reflexivity.
    + destruct Hc as (_ & timeNow & first & Hx1). cbn [fst snd].
      exists (EvReadCommand free_cmd output
              :: logs ++ memory_capture_crash_trace pct timeNow first)%list, None.
      split; [exact (extends_trans _ _ _ _ _ Hx Hx1)|]. split; [|reflexivity].
      constructor.
      rewrite forallb_app, (logs_are_capture_steps _ Hl), memory_capture_crash_steps.
      reflexivity.
  - cbn [ret fst snd].
    exists (EvReadCommand free_cmd output :: logs ++ [])%list, (Some (lastMemAlertSentTime s)).
    split; [rewrite app_nil_r; exact Hx|]. split; [|split; reflexivity].
    constructor; [apply logs_are_capture_steps; exact Hl | constructor].
Qed.

Lemma cpu_phase_trace args s readBuffer w :
  exists evs r,
    extends w (snd (cpu_phase args s readBuffer w)) evs /\
    phase_trace args sar_cmd cpu_title (lastCpuAlertSentTime s) r evs /\
    match fst (cpu_phase args s readBuffer w) with
    | Returned (s', _) =>
        r = Some (lastCpuAlertSentTime s') /\
        lastMemAlertSentTime s' = lastMemAlertSentTime s
    | Threw _ => r = None
    end.
Proof.
  destruct (checkCpu_trace readBuffer w) as (output & logs & Hx & Hl).
  unfold cpu_phase, bind.
  destruct (checkCpu readBuffer w) as [[[pct buffer]|e] w1]; cbn [snd] in Hx.
  2:{ exists (EvReadCommand sar_cmd output :: logs), None.
      split; [exact Hx|]. split; [|reflexivity].
      constructor. apply logs_are_capture_steps. exact Hl. }
  destruct (Float.ge pct (cpuThresholdPct args)).
  - pose proof (cpu_capture_events pct w1) as Hc.
    unfold cpu_breach, bind.
    destruct (cpu_capture pct w1) as [[[]|e] w2].
    + destruct Hc as (timeNow & ok & Hx1).
      destruct (trySendNotification_trace args (lastCpuAlertSentTime s) cpu_title pct w2)
        as (sent & w3 & thr & Ht & Hx2 & Hthr).
      rewrite Ht. cbn [ret fst snd].
      exists (EvReadCommand sar_cmd output
              :: (logs ++ cpu_capture_trace pct timeNow ok) ++ thr)%list, (Some sent).
      split.
      * pose proof (extends_trans _ _ _ _ _ Hx (extends_trans _ _ _ _ _ Hx1 Hx2)) as H.
        cbn [app] in H. rewrite app_assoc in H. exact H.
      * split; [|split; reflexivity].
        constructor; [|exact Hthr].
        rewrite forallb_app, (logs_are_capture_steps _ Hl), cpu_capture_steps. reflexivity.
    + destruct Hc as (_ & timeNow & Hx1). cbn [fst snd].
      exists (EvReadCommand sar_cmd output
              :: logs ++ cpu_capture_crash_trace pct timeNow)%list, None.
      split; [exact (extends_trans _ _ _ _ _ Hx Hx1)|]. split; [|reflexivity].
      constructor. rewrite forallb_app, (logs_are_capture_steps _ Hl). reflexivity.
  - cbn [ret fst snd].
    exists (EvReadCommand sar_cmd output :: logs ++ [])%list, (Some (lastCpuAlertSentTime s)).
    split; [rewrite app_nil_r; exact Hx|]. split; [|split; reflexivity].
    constructor; [apply logs_are_capture_steps; exact Hl | constructor].
Qed.

Lemma doPeriodicCheck_trace args s readBuffer w :
  exists evs,
    extends w (snd (doPeriodicCheck args s readBuffer w)) evs /\
    cycle_trace args s
      (match fst (doPeriodicCheck args s readBuffer w) with
       | Returned (_, s', _) => Some s'
       | Threw _ => None
       end) evs.
Proof.
  destruct (memory_phase_trace args s readBuffer w) as (evs1 & r1 & Hx1 & Hp1 & Hr1).
  unfold doPeriodicCheck, bind.
  destruct (memory_phase args s readBuffer w) as [[[s1 buffer1]|e] w1]; cbn [fst snd] in *.
  2:{ subst r1. exists evs1. split; [exact Hx1 | constructor; exact Hp1]. }
  destruct Hr1 as [-> Hcpu1].
  destruct (cpu_phase_trace args s1 buffer1 w1) as (evs2 & r2 & Hx2 & Hp2 & Hr2).
  rewrite Hcpu1 in Hp2.
  destruct (cpu_phase args s1 buffer1 w1) as [[[s2 buffer2]|e] w2]; cbn [fst snd ret] in *.
  - destruct Hr2 as [-> Hmem2].
    exists (evs1 ++ evs2)%list. split; [eapply extends_trans; eassumption|].
    rewrite <- Hmem2 in Hp1. destruct s2 as [mem cpu]. cbn in Hp1, Hp2.
    apply cycle_completed; assumption.
  - subst r2. exists (evs1 ++ evs2)%list. split; [eapply extends_trans; eassumption|].
    eapply cycle_cpu_threw; eassumption.
Qed.

Lemma main_loop_step args n s readBuffer w :
  main_loop (S n) args s readBuffer w =
  match doPeriodicCheck args s readBuffer w with
  | (Returned (_, s1, buffer1), w1) =>
      main_loop n args s1 buffer1 (emit (EvSleep (Int.to_uint (timeBetweenChecksSec args))) w1)
  | (Threw e, w1) => (Threw e, w1)
  end.
Proof.
  cbn [main_loop]. unfold bind at 1.
  destruct (doPeriodicCheck args s readBuffer w) as [[[[r s1] buffer1]|e] w1]; reflexivity.
Qed.

Lemma main_loop_trace args n : forall s readBuffer w,
  exists evs,
    extends w (snd (main_loop n args s readBuffer w)) evs /\
    loop_trace args n s (final_state (fst (main_loop n args s readBuffer w))) evs.
Proof.
  induction n as [|n IH]; intros s readBuffer w.
  - exists []. split; [apply extends_refl | constructor].
  - destruct (doPeriodicCheck_trace args s readBuffer w) as (evs1 & Hx1 & Hc1).
    rewrite main_loop_step.
    destruct (doPeriodicCheck args s readBuffer w) as [[[[r s1] buffer1]|e] w1];
      cbn [fst snd] in *.
    2:{ exists evs1. split; [exact Hx1 | constructor; exact Hc1]. }
    destruct (IH s1 buffer1 (emit (EvSleep (Int.to_uint (timeBetweenChecksSec args))) w1))
      as (evs2 & Hx2 & Hl2).
    exists (evs1 ++ EvSleep (Int.to_uint (timeBetweenChecksSec args)) :: evs2)%list.
    split.
    + exact (extends_trans _ _ _ _ _ Hx1
               (extends_trans _ _ _ _ _ (extends_emit w1 _) Hx2)).
    + eapply loop_step; eassumption.
Qed.

End RunTrace.

Section Projections.

Lemma sleeps_app a b : sleeps (a ++ b) = (sleeps a ++ sleeps b)%list.
Proof.
  induction a as [|e a IH]; [reflexivity|].
  destruct e; simpl; rewrite ?IH; reflexivity.
Qed.

Lemma capture_steps_silent steps :
  forallb is_capture_step steps = true ->
  read_commands steps = [] /\ sleeps steps = [] /\
  forall title last, dispatch_clock title last steps = [].
Proof.
  induction steps as [|e steps IH]; [auto|]. cbn [forallb]. intros H.
  apply andb_true_iff in H. destruct H as [He Hs]. destruct (IH Hs) as (Hr & Hz & Hd).
  destruct e; try discriminate; cbn; auto.
Qed.

Lemma capture_steps_no_notification steps :
  forallb is_capture_step steps = true -> notifications steps = [].
Proof.
  induction steps as [|e steps IH]; [auto|]. cbn [forallb]. intros H.
  apply andb_true_iff in H. destruct H as [He Hs].
  destruct e; try discriminate; cbn; auto.
Qed.

Lemma dispatch_clock_app title a : forall last b,
  exists last',
    dispatch_clock title last (a ++ b) =
    (dispatch_clock title last a ++ dispatch_clock title last' b)%list.
Proof.
  induction a as [|e a IH]; intros last b; [exists last; reflexivity|].
  destruct e as [cmd out|cmd file ok|cmd file|t|[script title' pct] rc|fmt fargs|sec];
    cbn [app dispatch_clock]; try apply IH.
  destruct (String.eqb title' title); [|apply IH].
  destruct (IH last b) as [last' E]. exists last'. rewrite E. reflexivity.
Qed.

Lemma throttle_silent args title lastSendTime sent thr :
  throttle_trace args title lastSendTime sent thr ->
  read_commands thr = [] /\ sleeps thr = [].
Proof.
  intros H. inversion H; subst; [auto | auto |].
  destruct (resultCode =? 0); auto.
Qed.

Lemma phase_schedule args cmd title lastSendTime r evs :
  phase_trace args cmd title lastSendTime r evs ->
  read_commands evs = [cmd] /\ sleeps evs = [].
Proof.
  intros H. inversion H as [output logs Hl|output steps sent thr Hs Ht]; subst.
  - destruct (capture_steps_silent _ Hl) as (Hr & Hz & _).
    cbn. rewrite Hr, Hz. auto.
  - destruct (capture_steps_silent _ Hs) as (Hr & Hz & _).
    destruct (throttle_silent _ _ _ _ _ Ht) as (Hr' & Hz').
    cbn [read_commands sleeps]. rewrite read_commands_app, sleeps_app, Hr, Hz, Hr', Hz'. auto.
Qed.

Lemma cycle_schedule args s r evs :
  cycle_trace args s r evs ->
  sleeps evs = [] /\
  match r with
  | Some _ => read_commands evs = [free_cmd; sar_cmd]
  | None => read_commands evs = [free_cmd] \/ read_commands evs = [free_cmd; sar_cmd]
  end.
Proof.
  intros H.
  inversion H as [evs0 H1|mem evs1 evs2 H1 H2|mem cpu evs1 evs2 H1 H2]; subst;
    destruct (phase_schedule _ _ _ _ _ _ H1) as (Hr1 & Hz1);
    try destruct (phase_schedule _ _ _ _ _ _ H2) as (Hr2 & Hz2);
    rewrite ?read_commands_app, ?sleeps_app, ?Hr1, ?Hz1, ?Hr2, ?Hz2; auto.
Qed.

Lemma loop_schedule args n s r evs :
  loop_trace args n s r evs ->
  let cycle := [free_cmd; sar_cmd] in
  let pause := Int.to_uint (timeBetweenChecksSec args) in
  match r with
  | Some _ =>
      read_commands evs = List.concat (repeat cycle n) /\ sleeps evs = repeat pause n
  | None =>
      exists k : nat,
        (k < n)%nat /\ sleeps evs = repeat pause k /\
        (read_commands evs = (List.concat (repeat cycle k) ++ [free_cmd])%list \/
         read_commands evs = List.concat (repeat cycle (S k)))
  end.
Proof.
  cbv zeta. induction 1 as [s|n s evs Hc|n s s1 r evs1 evs2 Hc Hl IH].
  - auto.
  - destruct (cycle_schedule _ _ _ _ Hc) as (Hz & Hr). exists 0%nat.
    split; [lia|]. split; [exact Hz|]. cbn [repeat List.concat app]. exact Hr.
  - destruct (cycle_schedule _ _ _ _ Hc) as (Hz & Hr).
    rewrite read_commands_app, sleeps_app, Hz, Hr. cbn [read_commands sleeps app].
    destruct r as [s2|].
    + destruct IH as [-> ->]. auto.
    + destruct IH as (k & Hk & -> & Hrk). exists (S k). split; [lia|].
      split; [reflexivity|]. destruct Hrk as [-> | ->]; [left | right]; reflexivity.
Qed.

Lemma throttle_without_script args title lastSendTime sent thr :
  runCustomScript args = "" ->
  throttle_trace args title lastSendTime sent thr -> sent = lastSendTime /\ thr = [].
Proof. intros E H. inversion H; subst; [auto | contradiction | contradiction]. Qed.

Lemma phase_without_script args cmd title lastSendTime r evs :
  runCustomScript args = "" ->
  phase_trace args cmd title lastSendTime r evs ->
  notifications evs = [] /\ (r = None \/ r = Some lastSendTime).
Proof.
  intros E H. inversion H as [output logs Hl|output steps sent thr Hs Ht]; subst.
  - cbn. rewrite (capture_steps_no_notification _ Hl). auto.
  - destruct (throttle_without_script _ _ _ _ _ E Ht) as [-> ->].
    cbn. rewrite app_nil_r, (capture_steps_no_notification _ Hs). auto.
Qed.

Lemma cycle_without_script args s r evs :
  runCustomScript args = "" ->
  cycle_trace args s r evs ->
  notifications evs = [] /\ (r = None \/ r = Some s).
Proof.
  intros E H.
  inversion H as [evs0 H1|mem evs1 evs2 H1 H2|mem cpu evs1 evs2 H1 H2]; subst;
    destruct (phase_without_script _ _ _ _ _ _ E H1) as (Hn1 & Hr1);
    try destruct (phase_without_script _ _ _ _ _ _ E H2) as (Hn2 & Hr2);
    rewrite ?notifications_app, ?Hn1, ?Hn2; (split; [reflexivity|]); auto.
  right. destruct Hr1 as [Hr1|Hr1]; [discriminate|]. destruct Hr2 as [Hr2|Hr2]; [discriminate|].
  injection Hr1 as ->. injection Hr2 as ->. destruct s; reflexivity.
Qed.

Lemma loop_without_script args n s r evs :
  runCustomScript args = "" ->
  loop_trace args n s r evs ->
  notifications evs = [] /\ (r = None \/ r = Some s).
Proof.
  intros E. induction 1 as [s|n s evs Hc|n s s1 r evs1 evs2 Hc Hl IH].
  - auto.
  - destruct (cycle_without_script _ _ _ _ E Hc) as [Hn _]. auto.
  - destruct (cycle_without_script _ _ _ _ E Hc) as [Hn [Hr|Hr]]; [discriminate|].
    injection Hr as ->. destruct IH as [Hn2 Hr2].
    rewrite notifications_app, Hn. cbn [notifications app]. auto.
Qed.

End Projections.

Section Pacing.

Variable args : Args.

Local Abbreviation cooldown := (seconds (notificationThrottleSec args)).

Lemma throttle_dispatches title lastSendTime sent thr :
  throttle_trace args title lastSendTime sent thr ->
  (forall other, other <> title -> forall last, dispatch_clock other last thr = []) /\
  (((forall last, dispatch_clock title last thr = []) /\ sent = lastSendTime) \/
   ((forall last, dispatch_clock title last thr = [sent]) /\ lastSendTime + cooldown < sent)).
Proof.
  intros H. inversion H as [|timeNow NE Hle|timeNow pct rc NE Hlt]; subst.
  - split; [reflexivity|]. left. auto.
  - split; [reflexivity|]. left. auto.
  - split.
    + intros other Ho last. cbn [dispatch_clock].
      destruct (String.eqb_spec title other) as [E|_]; [congruence|].
      destruct (rc =? 0); reflexivity.
    + right. split; [|exact Hlt]. intros last. cbn [dispatch_clock].
      rewrite String.eqb_refl. destruct (rc =? 0); reflexivity.
Qed.

Lemma phase_dispatches cmd title lastSendTime r evs :
  phase_trace args cmd title lastSendTime r evs ->
  (forall other, other <> title -> forall last, dispatch_clock other last evs = []) /\
  (((forall last, dispatch_clock title last evs = []) /\
    (r = None \/ r = Some lastSendTime)) \/
   (exists sent,
      (forall last, dispatch_clock title last evs = [sent]) /\
      lastSendTime + cooldown < sent /\ r = Some sent)).
Proof.
  intros H. inversion H as [output logs Hl|output steps sent thr Hs Ht]; subst.
  - destruct (capture_steps_silent _ Hl) as (_ & _ & Hd).
    split; [intros other _ last; apply Hd|]. left. split; [intros last; apply Hd | auto].
  - destruct (capture_steps_silent _ Hs) as (_ & _ & Hd).
    assert (Happ : forall t last, exists last',
               dispatch_clock t last (EvReadCommand cmd output :: steps ++ thr) =
               dispatch_clock t last' thr).
    { intros t last. cbn [dispatch_clock].
      destruct (dispatch_clock_app t steps last thr) as [last' E].
      exists last'. rewrite E, Hd. reflexivity. }
    destruct (throttle_dispatches _ _ _ _ Ht) as [Hother Hsame]. split.
    + intros other Ho last. destruct (Happ other last) as [last' ->]. apply Hother, Ho.
    + destruct Hsame as [[Hnone ->]|[Hone Hlt]].
      * left. split; [|auto]. intros last. destruct (Happ title last) as [last' ->].
        apply Hnone.
      * right. exists sent. split; [|auto]. intros last.
        destruct (Happ title last) as [last' ->]. apply Hone.
Qed.

Lemma titles_differ : mem_title <> cpu_title.
Proof. discriminate. Qed.

(** Over a cycle the script runs at most once for each kind, and then later
    than the cooldown after the timestamp of that kind. *)
Lemma cycle_dispatches s r evs :
  cycle_trace args s r evs ->
  (((forall last, dispatch_clock mem_title last evs = []) /\
    (forall s', r = Some s' -> lastMemAlertSentTime s' = lastMemAlertSentTime s)) \/
   (exists sent,
      (forall last, dispatch_clock mem_title last evs = [sent]) /\
      lastMemAlertSentTime s + cooldown < sent /\
      (forall s', r = Some s' -> lastMemAlertSentTime s' = sent))) /\
  (((forall last, dispatch_clock cpu_title last evs = []) /\
    (forall s', r = Some s' -> lastCpuAlertSentTime s' = lastCpuAlertSentTime s)) \/
   (exists sent,
      (forall last, dispatch_clock cpu_title last evs = [sent]) /\
      lastCpuAlertSentTime s + cooldown < sent /\
      (forall s', r = Some s' -> lastCpuAlertSentTime s' = sent))).
Proof.
  intros H.
  inversion H as [evs0 H1|mem evs1 evs2 H1 H2|mem cpu evs1 evs2 H1 H2]; subst.
  - destruct (phase_dispatches _ _ _ _ _ H1) as [Hother Hsame]. split.
    + destruct Hsame as [[Hnone _]|(sent & _ & _ & ?)]; [|discriminate].
      left. split; [exact Hnone | discriminate].
    + left. split; [|discriminate]. intros last. apply Hother.
      intros E. apply titles_differ. congruence.
  - destruct (phase_dispatches _ _ _ _ _ H1) as [Hother1 Hsame1].
    destruct (phase_dispatches _ _ _ _ _ H2) as [Hother2 Hsame2].
    assert (Hm2 : forall last, dispatch_clock mem_title last evs2 = [])
      by (intros last; apply Hother2, titles_differ).
    assert (Hc1 : forall last, dispatch_clock cpu_title last evs1 = [])
      by (intros last; apply Hother1; intros E; apply titles_differ; congruence).
    split.
    + destruct Hsame1 as [[Hnone _]|(sent & Hone & Hlt & _)].
      * left. split; [|discriminate]. intros last.
        destruct (dispatch_clock_app mem_title evs1 last evs2) as [last' ->].
        rewrite Hnone, Hm2. reflexivity.
      * right. exists sent. split; [|split; [exact Hlt | discriminate]]. intros last.
        destruct (dispatch_clock_app mem_title evs1 last evs2) as [last' ->].
        rewrite Hone, Hm2. reflexivity.
    + destruct Hsame2 as [[Hnone _]|(sent & _ & _ & ?)]; [|discriminate].
      left. split; [|discriminate]. intros last.
      destruct (dispatch_clock_app cpu_title evs1 last evs2) as [last' ->].
      rewrite Hc1, Hnone. reflexivity.
  - destruct (phase_dispatches _ _ _ _ _ H1) as [Hother1 Hsame1].
    destruct (phase_dispatches _ _ _ _ _ H2) as [Hother2 Hsame2].
    assert (Hm2 : forall last, dispatch_clock mem_title last evs2 = [])
      by (intros last; apply Hother2, titles_differ).
    assert (Hc1 : forall last, dispatch_clock cpu_title last evs1 = [])
      by (intros last; apply Hother1; intros E; apply titles_differ; congruence).
    split.
    + destruct Hsame1 as [[Hnone Hr]|(sent & Hone & Hlt & Hr)].
      * left. split.
        -- intros last. destruct (dispatch_clock_app mem_title evs1 last evs2) as [last' ->].
           rewrite Hnone, Hm2. reflexivity.
        -- intros s' E. injection E as <-. cbn.
           destruct Hr as [Hr|Hr]; [discriminate | congruence].
      * right. exists sent. split; [|split; [exact Hlt|]].
        -- intros last. destruct (dispatch_clock_app mem_title evs1 last evs2) as [last' ->].
           rewrite Hone, Hm2. reflexivity.
        -- intros s' E. injection E as <-. cbn. congruence.
    + destruct Hsame2 as [[Hnone Hr]|(sent & Hone & Hlt & Hr)].
      * left. split.
        -- intros last. destruct (dispatch_clock_app cpu_title evs1 last evs2) as [last' ->].
           rewrite Hc1, Hnone. reflexivity.
        -- intros s' E. injection E as <-. cbn.
           destruct Hr as [Hr|Hr]; [discriminate | congruence].
      * right. exists sent. split; [|split; [exact Hlt|]].
        -- intros last. destruct (dispatch_clock_app cpu_title evs1 last evs2) as [last' ->].
           rewrite Hc1, Hone. reflexivity.
        -- intros s' E. injection E as <-. cbn. congruence.
Qed.

Hypothesis cooldown_set : 0 <= notificationThrottleSec args.

Lemma spaced_after (t sent : Z) ts :
  t + cooldown < sent -> spaced cooldown (sent :: ts) -> spaced cooldown (t :: sent :: ts).
Proof.
  pose proof (cooldown_nonneg' args cooldown_set) as Hc.
  intros Hlt Hs. constructor; [|exact Hs]. constructor; [exact Hlt|].
  inversion Hs as [|? ? Hall _]; subst.
  eapply Forall_impl; [|exact Hall]. cbv beta. intros t' Ht'. lia.
Qed.

Lemma spaced_single t : spaced cooldown [t].
Proof. constructor; constructor. Qed.

Lemma loop_dispatches n s r evs :
  loop_trace args n s r evs ->
  forall last,
    spaced cooldown (lastMemAlertSentTime s :: dispatch_clock mem_title last evs) /\
    spaced cooldown (lastCpuAlertSentTime s :: dispatch_clock cpu_title last evs).
Proof.
  induction 1 as [s|n s evs Hc|n s s1 r evs1 evs2 Hc Hl IH]; intros last.
  - split; apply spaced_single.
  - destruct (cycle_dispatches _ _ _ Hc) as [Hm Hp]. split.
    + destruct Hm as [[-> _]|(sent & -> & Hlt & _)];
        [apply spaced_single | apply spaced_after; [exact Hlt | apply spaced_single]].
    + destruct Hp as [[-> _]|(sent & -> & Hlt & _)];
        [apply spaced_single | apply spaced_after; [exact Hlt | apply spaced_single]].
  - destruct (cycle_dispatches _ _ _ Hc) as [Hm Hp]. split.
    + destruct (dispatch_clock_app mem_title evs1 last
                  (EvSleep (Int.to_uint (timeBetweenChecksSec args)) :: evs2)) as [last' ->].
      cbn [dispatch_clock]. destruct (IH last') as [IHm _].
      destruct Hm as [[-> Hs]|(sent & -> & Hlt & Hs)];
        rewrite (Hs s1 eq_refl) in IHm; cbn [app];
        [exact IHm | apply spaced_after; assumption].
    + destruct (dispatch_clock_app cpu_title evs1 last
                  (EvSleep (Int.to_uint (timeBetweenChecksSec args)) :: evs2)) as [last' ->].
      cbn [dispatch_clock]. destruct (IH last') as [_ IHp].
      destruct Hp as [[-> Hs]|(sent & -> & Hlt & Hs)];
        rewrite (Hs s1 eq_refl) in IHp; cbn [app];
        [exact IHp | apply spaced_after; assumption].
Qed.

End Pacing.

(** ** The claims on the throttle and the captures *)

Section ThrottleClaims.

Variable args : Args.
Hypothesis script_set : runCustomScript args <> "".

Local Abbreviation cooldown := (seconds (notificationThrottleSec args)).

(** The throttle call of a breach, with the events it adds. *)
Lemma trySendNotification_permitted lastSendTime errorTitle pct w :
  let timeNow := clock (env w) (tick w) in
  let permitted := lastSendTime + cooldown <? timeNow in
  exists w' evs,
    trySendNotification args lastSendTime errorTitle pct w =
      (Returned (if permitted then timeNow else lastSendTime), w') /\
    extends w w' evs /\
    notifications evs =
      (if permitted then [NotifyCommand (runCustomScript args) errorTitle pct] else []).
Proof.
  cbv zeta.
  destruct (trySendNotification_events args errorTitle pct script_set lastSendTime w)
    as (w' & Hrun & Hn & _). cbv zeta in Hrun, Hn.
  destruct (trySendNotification_any args lastSendTime errorTitle pct w)
    as (sent & w'' & evs & Hrun' & Hx & _).
  rewrite Hrun in Hrun'. injection Hrun' as _ <-.
  exists w', evs. split; [exact Hrun|]. split; [exact Hx|].
  rewrite <- (new_events_extends _ _ _ Hx). exact Hn.
Qed.

(** The memory half of a cycle, by the sample and the clock of the throttle
    call. *)
Lemma memory_phase_dispatch appState readBuffer w pct buffer w0 :
  checkMemory readBuffer w = (Returned (pct, buffer), w0) ->
  if Float.ge pct (memThresholdPct args) then
    forall w1,
      memory_capture pct w0 = (Returned tt, w1) ->
      let timeNow := clock (env w1) (tick w1) in
      let permitted := lastMemAlertSentTime appState + cooldown <? timeNow in
      exists w2,
        memory_phase args appState readBuffer w =
          (Returned (set_lastMemAlertSentTime appState
                       (if permitted then timeNow else lastMemAlertSentTime appState),
                     buffer), w2) /\
        notifications (new_events w w2) =
          (if permitted then [NotifyCommand (runCustomScript args) mem_title pct] else [])
  else
    memory_phase args appState readBuffer w = (Returned (appState, buffer), w0) /\
    notifications (new_events w w0) = [].
Proof.
  intros Hsample.
  destruct (sampling_events (checkMemory readBuffer) w (checkMemory_sampling readBuffer))
    as (evs0 & Hx0 & _ & Hn0).
  rewrite Hsample in Hx0. cbn [snd] in Hx0.
  unfold memory_phase, bind. rewrite Hsample.
  destruct (Float.ge pct (memThresholdPct args)).
  - intros w1 Hcapture. cbv zeta.
    pose proof (memory_capture_events pct w0) as Hc. rewrite Hcapture in Hc.
    destruct Hc as (timeNow & ok1 & ok2 & Hx1).
    destruct (memory_capture_trace_saves pct timeNow ok1 ok2) as [_ Hn1].
    destruct (trySendNotification_permitted (lastMemAlertSentTime appState) mem_title pct w1)
      as (w2 & evs2 & Hrun & Hx2 & Hn2). cbv zeta in Hrun, Hn2.
    exists w2. unfold memory_breach, bind. rewrite Hcapture, Hrun.
    split; [reflexivity|].
    rewrite (new_events_extends _ _ _
               (extends_trans _ _ _ _ _ Hx0 (extends_trans _ _ _ _ _ Hx1 Hx2))).
    rewrite !notifications_app, Hn0, Hn1. exact Hn2.
  - split; [reflexivity|]. rewrite (new_events_extends _ _ _ Hx0). exact Hn0.
Qed.

Lemma cpu_phase_dispatch appState readBuffer w pct buffer w0 :
  checkCpu readBuffer w = (Returned (pct, buffer), w0) ->
  if Float.ge pct (cpuThresholdPct args) then
    forall w1,
      cpu_capture pct w0 = (Returned tt, w1) ->
      let timeNow := clock (env w1) (tick w1) in
      let permitted := lastCpuAlertSentTime appState + cooldown <? timeNow in
      exists w2,
        cpu_phase args appState readBuffer w =
          (Returned (set_lastCpuAlertSentTime appState
                       (if permitted then timeNow else lastCpuAlertSentTime appState),
                     buffer), w2) /\
        notifications (new_events w w2) =
          (if permitted then [NotifyCommand (runCustomScript args) cpu_title pct] else [])
  else
    cpu_phase args appState readBuffer w = (Returned (appState, buffer), w0) /\
    notifications (new_events w w0) = [].
Proof.
  intros Hsample.
  destruct (sampling_events (checkCpu readBuffer) w (checkCpu_sampling readBuffer))
    as (evs0 & Hx0 & _ & Hn0).
  rewrite Hsample in Hx0. cbn [snd] in Hx0.
  unfold cpu_phase, bind. rewrite Hsample.
  destruct (Float.ge pct (cpuThresholdPct args)).
  - intros w1 Hcapture. cbv zeta.
    pose proof (cpu_capture_events pct w0) as Hc. rewrite Hcapture in Hc.
    destruct Hc as (timeNow & ok & Hx1).
    destruct (cpu_capture_trace_saves pct timeNow ok) as [_ Hn1].
    destruct (trySendNotification_permitted (lastCpuAlertSentTime appState) cpu_title pct w1)
      as (w2 & evs2 & Hrun & Hx2 & Hn2). cbv zeta in Hrun, Hn2.
    exists w2. unfold cpu_breach, bind. rewrite Hcapture, Hrun.
    split; [reflexivity|].
    rewrite (new_events_extends _ _ _
               (extends_trans _ _ _ _ _ Hx0 (extends_trans _ _ _ _ _ Hx1 Hx2))).
    rewrite !notifications_app, Hn0, Hn1. exact Hn2.
  - split; [reflexivity|]. rewrite (new_events_extends _ _ _ Hx0). exact Hn0.
Qed.

(** Three breaches 600 and 1201 seconds apart under a cooldown of 1200
    seconds. *)
Lemma breaches_600_1201 errorTitle pct lastSendTime w0 w1 w2 :
  notificationThrottleSec args = 1200 ->
  clock (env w1) (tick w1) = clock (env w0) (tick w0) + seconds 600 ->
  clock (env w2) (tick w2) = clock (env w0) (tick w0) + seconds 1201 ->
  (map snd (breaches args errorTitle pct lastSendTime [w0; w1; w2]) = [true; false; true] <->
   lastSendTime + seconds 1200 < clock (env w0) (tick w0)).
Proof.
  intros H1200 H1 H2. cbn [breaches].
  destruct (trySendNotification_events args errorTitle pct script_set lastSendTime w0)
    as (w0' & Hrun0 & Hn0 & _). cbv zeta in Hrun0, Hn0.
  rewrite H1200 in Hrun0, Hn0. rewrite Hrun0, Hn0.
  destruct (Z.ltb_spec (lastSendTime + seconds 1200) (clock (env w0) (tick w0))) as [Hlt|Hge].
  - split; [intros _; exact Hlt|intros _].
    destruct (trySendNotification_events args errorTitle pct script_set
                                         (clock (env w0) (tick w0)) w1)
      as (w1' & Hrun1 & Hn1 & _). cbv zeta in Hrun1, Hn1.
    rewrite H1200, H1 in Hrun1, Hn1.
    destruct (Z.ltb_spec (clock (env w0) (tick w0) + seconds 1200)
                         (clock (env w0) (tick w0) + seconds 600)) as [Hc|_];
      [unfold seconds, ticks_per_second in Hc; lia|].
    rewrite Hrun1, Hn1.
    destruct (trySendNotification_events args errorTitle pct script_set
                                         (clock (env w0) (tick w0)) w2)
      as (w2' & Hrun2 & Hn2 & _). cbv zeta in Hrun2, Hn2.
    rewrite H1200, H2 in Hrun2, Hn2.
    destruct (Z.ltb_spec (clock (env w0) (tick w0) + seconds 1200)
                         (clock (env w0) (tick w0) + seconds 1201)) as [_|Hc];
      [|unfold seconds, ticks_per_second in Hc; lia].
    rewrite Hrun2, Hn2. reflexivity.
  - split; [|lia]. cbn [map snd List.length Nat.eqb negb]. discriminate.
Qed.

(** C3, as the code has it.  With a notification script configured, a call
    of the throttle made when the clock reads [timeNow] runs the script
    exactly when [timeNow > lastSendTime + cooldown], and then stores
    [timeNow].  In the cycle, a sample at or above its threshold whose
    capture returned calls the throttle on the timestamp of its own kind and
    stores what the throttle returns, leaving the other kind alone; a sample
    below its threshold notifies nothing and changes nothing.  Over any run
    of the loop the notifications of one kind are therefore more than a
    cooldown apart.  With a cooldown of 1200 seconds, breaches at the clock
    readings [t], [t + 600 s] and [t + 1201 s] give notify, no notify,
    notify exactly when [t] is more than the cooldown after the stored
    timestamp. *)
Theorem notification_throttle :
  0 <= notificationThrottleSec args ->
  (forall errorTitle pct lastSendTime w,
     let timeNow := clock (env w) (tick w) in
     let permitted := lastSendTime + cooldown <? timeNow in
     exists w',
       trySendNotification args lastSendTime errorTitle pct w =
         (Returned (if permitted then timeNow else lastSendTime), w') /\
       notifications (new_events w w') =
         (if permitted then [NotifyCommand (runCustomScript args) errorTitle pct] else [])) /\
  (forall appState readBuffer w pct buffer w0,
     checkMemory readBuffer w = (Returned (pct, buffer), w0) ->
     if Float.ge pct (memThresholdPct args) then
       forall w1,
         memory_capture pct w0 = (Returned tt, w1) ->
         let timeNow := clock (env w1) (tick w1) in
         let permitted := lastMemAlertSentTime appState + cooldown <? timeNow in
         exists w2,
           memory_phase args appState readBuffer w =
             (Returned (set_lastMemAlertSentTime appState
                          (if permitted then timeNow else lastMemAlertSentTime appState),
                        buffer), w2) /\
           notifications (new_events w w2) =
             (if permitted then [NotifyCommand (runCustomScript args) mem_title pct] else [])
     else
       memory_phase args appState readBuffer w = (Returned (appState, buffer), w0) /\
       notifications (new_events w w0) = []) /\
  (forall appState readBuffer w pct buffer w0,
     checkCpu readBuffer w = (Returned (pct, buffer), w0) ->
     if Float.ge pct (cpuThresholdPct args) then
       forall w1,
         cpu_capture pct w0 = (Returned tt, w1) ->
         let timeNow := clock (env w1) (tick w1) in
         let permitted := lastCpuAlertSentTime appState + cooldown <? timeNow in
         exists w2,
           cpu_phase args appState readBuffer w =
             (Returned (set_lastCpuAlertSentTime appState
                          (if permitted then timeNow else lastCpuAlertSentTime appState),
                        buffer), w2) /\
           notifications (new_events w w2) =
             (if permitted then [NotifyCommand (runCustomScript args) cpu_title pct] else [])
     else
       cpu_phase args appState readBuffer w = (Returned (appState, buffer), w0) /\
       notifications (new_events w w0) = []) /\
  (forall n appState readBuffer w last,
     let evs := new_events w (snd (main_loop n args appState readBuffer w)) in
     spaced cooldown (lastMemAlertSentTime appState :: dispatch_clock mem_title last evs) /\
     spaced cooldown (lastCpuAlertSentTime appState :: dispatch_clock cpu_title last evs)) /\
  (notificationThrottleSec args = 1200 ->
   forall errorTitle pct lastSendTime w0 w1 w2,
     clock (env w1) (tick w1) = clock (env w0) (tick w0) + seconds 600 ->
     clock (env w2) (tick w2) = clock (env w0) (tick w0) + seconds 1201 ->
     (map snd (breaches args errorTitle pct lastSendTime [w0; w1; w2]) = [true; false; true]
      <-> lastSendTime + seconds 1200 < clock (env w0) (tick w0))).
Proof.
  intros Hcd. split; [|split; [|split; [|split]]].
  - intros errorTitle pct lastSendTime w.
    destruct (trySendNotification_events args errorTitle pct script_set lastSendTime w)
      as (w' & Hrun & Hn & _).
    exists w'. split; [exact Hrun | exact Hn].
  - exact memory_phase_dispatch.
  - exact cpu_phase_dispatch.
  - intros n appState readBuffer w last. cbv zeta.
    destruct (main_loop_trace args n appState readBuffer w) as (evs & Hx & Hl).
    rewrite (new_events_extends _ _ _ Hx).
    exact (loop_dispatches args Hcd _ _ _ _ Hl last).
  - intros H1200 errorTitle pct lastSendTime w0 w1 w2.
    apply breaches_600_1201. exact H1200.
Qed.

End ThrottleClaims.

Section ThrottleWitness.

Lemma notification_throttle_witness :
  map snd (breaches sample_args mem_title (Float.of_int 85) 0
                    [world_at 0; world_at 600; world_at 1201]) = [true; false; true].
Proof.
  refine (proj2 (proj2 (proj2 (proj2 (proj2 (notification_throttle sample_args _ _)))) eq_refl
                   mem_title (Float.of_int 85) 0
                   (world_at 0) (world_at 600) (world_at 1201) _ _) _).
  - discriminate.
  - vm_compute. discriminate.
  - vm_compute. reflexivity.
  - vm_compute. reflexivity.
  - vm_compute. reflexivity.
Defined.

(** With the clock readings taken literally, 0, 600 and 1201 seconds after
    the epoch, and the timestamp the program starts with, the first breach
    does not notify: the epoch is not more than a cooldown before it. *)
Lemma first_breach_at_the_epoch_is_throttled :
  map snd (breaches sample_args mem_title (Float.of_int 85)
                    (lastMemAlertSentTime initial_AppState)
                    [epoch_world_at 0; epoch_world_at 600; epoch_world_at 1201])
  = [false; false; true].
Proof. vm_compute. reflexivity. Qed.

End ThrottleWitness.

Section CaptureClaims.

Variable args : Args.

Lemma saveCommandOutput_crash_iff cmd file w :
  fst (saveCommandOutput cmd file w) = Threw fputs_null_stream <->
  (exists chunk chunks,
     popen_chunks (save_result (env w) (tick w) cmd file) = Some (chunk :: chunks)) /\
  fopen_file (save_result (env w) (tick w) cmd file) = None.
Proof.
  split.
  - unfold saveCommandOutput. cbv zeta.
    destruct (popen_chunks _) as [chunks|]; [|discriminate].
    destruct (saveCommandOutput_loop chunks _ 0) as [ok|e] eqn:E; [discriminate|].
    intros _. destruct (saveCommandOutput_loop_crash _ _ _ _ E) as (_ & Hnone & Hne).
    split; [|exact Hnone]. destruct chunks as [|chunk chunks]; [congruence|].
    exists chunk, chunks. reflexivity.
  - intros [(chunk & chunks & Hp) Hf].
    rewrite (saveCommandOutput_unopened _ _ _ _ _ Hp Hf). reflexivity.
Qed.

(** A breach whose first report cannot be opened ends the memory half. *)
Lemma memory_phase_crash appState readBuffer w pct buffer w0 chunk chunks :
  checkMemory readBuffer w = (Returned (pct, buffer), w0) ->
  Float.ge pct (memThresholdPct args) = true ->
  let timeNow := clock (env w0) (tick w0) in
  let file := ReportFile "mem_report_ps_" timeNow (Float.to_int pct) in
  popen_chunks (save_result (env w0) (S (tick w0)) ps_mem_cmd file) = Some (chunk :: chunks) ->
  fopen_file (save_result (env w0) (S (tick w0)) ps_mem_cmd file) = None ->
  memory_phase args appState readBuffer w =
  (Threw fputs_null_stream, emit (EvSaveCrash ps_mem_cmd file) (emit (EvNow timeNow) w0)).
Proof.
  intros Hsample Hge timeNow file Hp Hf.
  unfold memory_phase, bind. rewrite Hsample, Hge.
  unfold memory_breach, bind, memory_capture, bind, now. cbv zeta.
  fold timeNow. fold file.
  rewrite (saveCommandOutput_unopened ps_mem_cmd file (emit (EvNow timeNow) w0) chunk chunks
             Hp Hf).
  reflexivity.
Qed.

(** C4. A capture failure can end the cycle.  A capture returns or crashes.
    When it returns, every command of its kind was run once (two for memory,
    one for CPU), each save that reported a failure left a log line and
    nothing else, and the throttle is called next, whatever its state.  It
    crashes, in [fputs] on a null [FILE*], exactly when a report file could
    not be opened while its command printed something: then the breach ends
    there.  On a memory breach whose first report cannot be opened the cycle
    and the loop end in that save: the second report is not attempted, no
    notification is attempted, [sar] is not read and the loop does not
    sleep. *)
Theorem capture_crash_ends_the_cycle (appState : AppState) :
  (forall pct w0,
     match memory_capture pct w0 with
     | (Returned _, w1) =>
         (exists timeNow ok1 ok2,
            new_events w0 w1 = memory_capture_trace pct timeNow ok1 ok2) /\
         exists sent w2,
           trySendNotification args (lastMemAlertSentTime appState) mem_title pct w1
             = (Returned sent, w2) /\
           memory_breach args appState pct w0
             = (Returned (set_lastMemAlertSentTime appState sent), w2)
     | (Threw e, w1) =>
         e = fputs_null_stream /\
         (exists timeNow first,
            new_events w0 w1 = memory_capture_crash_trace pct timeNow first) /\
         memory_breach args appState pct w0 = (Threw e, w1)
     end) /\
  (forall pct w0,
     match cpu_capture pct w0 with
     | (Returned _, w1) =>
         (exists timeNow ok, new_events w0 w1 = cpu_capture_trace pct timeNow ok) /\
         exists sent w2,
           trySendNotification args (lastCpuAlertSentTime appState) cpu_title pct w1
             = (Returned sent, w2) /\
           cpu_breach args appState pct w0
             = (Returned (set_lastCpuAlertSentTime appState sent), w2)
     | (Threw e, w1) =>
         e = fputs_null_stream /\
         (exists timeNow, new_events w0 w1 = cpu_capture_crash_trace pct timeNow) /\
         cpu_breach args appState pct w0 = (Threw e, w1)
     end) /\
  (forall cmd file w,
     fst (saveCommandOutput cmd file w) = Threw fputs_null_stream <->
     (exists chunk chunks,
        popen_chunks (save_result (env w) (tick w) cmd file) = Some (chunk :: chunks)) /\
     fopen_file (save_result (env w) (tick w) cmd file) = None) /\
  (forall readBuffer w pct buffer w0 chunk chunks n,
     checkMemory readBuffer w = (Returned (pct, buffer), w0) ->
     Float.ge pct (memThresholdPct args) = true ->
     let timeNow := clock (env w0) (tick w0) in
     let file := ReportFile "mem_report_ps_" timeNow (Float.to_int pct) in
     popen_chunks (save_result (env w0) (S (tick w0)) ps_mem_cmd file)
       = Some (chunk :: chunks) ->
     fopen_file (save_result (env w0) (S (tick w0)) ps_mem_cmd file) = None ->
     let w' := emit (EvSaveCrash ps_mem_cmd file) (emit (EvNow timeNow) w0) in
     doPeriodicCheck args appState readBuffer w = (Threw fputs_null_stream, w') /\
     main_loop (S n) args appState readBuffer w = (Threw fputs_null_stream, w') /\
     saved_commands (new_events w w') = [] /\
     notifications (new_events w w') = [] /\
     read_commands (new_events w w') = [free_cmd] /\
     sleeps (new_events w w') = []).
Proof.
  split; [|split; [|split]].
  - intros pct w0. pose proof (memory_capture_events pct w0) as Hc.
    pose proof (memory_breach_run args appState pct w0) as Hb.
    destruct (memory_capture pct w0) as [[[]|e] w1].
    + destruct Hc as (timeNow & ok1 & ok2 & Hx).
      split; [|exact Hb]. exists timeNow, ok1, ok2. exact (new_events_extends _ _ _ Hx).
    + destruct Hc as (He & timeNow & first & Hx).
      split; [exact He|]. split; [|exact Hb].
      exists timeNow, first. exact (new_events_extends _ _ _ Hx).
  - intros pct w0. pose proof (cpu_capture_events pct w0) as Hc.
    pose proof (cpu_breach_run args appState pct w0) as Hb.
    destruct (cpu_capture pct w0) as [[[]|e] w1].
    + destruct Hc as (timeNow & ok & Hx).
      split; [|exact Hb]. exists timeNow, ok. exact (new_events_extends _ _ _ Hx).
    + destruct Hc as (He & timeNow & Hx).
      split; [exact He|]. split; [|exact Hb].
      exists timeNow. exact (new_events_extends _ _ _ Hx).
  - exact saveCommandOutput_crash_iff.
  - intros readBuffer w pct buffer w0 chunk chunks n Hsample Hge timeNow file Hp Hf w'.
    pose proof (memory_phase_crash appState readBuffer w pct buffer w0 chunk chunks
                  Hsample Hge Hp Hf) as Hphase.
    fold timeNow in Hphase. fold file in Hphase. fold w' in Hphase.
    assert (Hcycle : doPeriodicCheck args appState readBuffer w = (Threw fputs_null_stream, w'))
      by (unfold doPeriodicCheck, bind; rewrite Hphase; reflexivity).
    split; [exact Hcycle|].
    split; [rewrite main_loop_step, Hcycle; reflexivity|].
    destruct (checkMemory_trace readBuffer w) as (output & logs & Hx & Hl).
    rewrite Hsample in Hx. cbn [snd] in Hx.
    assert (Hx' : extends w w'
                    ((EvReadCommand free_cmd output :: logs)
                     ++ [EvNow timeNow] ++ [EvSaveCrash ps_mem_cmd file])).
    { eapply extends_trans; [exact Hx|].
      eapply extends_trans; apply extends_emit. }
    rewrite (new_events_extends _ _ _ Hx').
    destruct (capture_steps_silent _ (logs_are_capture_steps _ Hl)) as (Hr & Hz & _).
    pose proof (capture_steps_no_notification _ (logs_are_capture_steps _ Hl)) as Hn.
    assert (Hs : saved_commands logs = []).
    { clear - Hl. induction logs as [|e logs IH]; [reflexivity|].
      cbn [forallb] in Hl. apply andb_true_iff in Hl. destruct Hl as [He Hl].
      destruct e; try discriminate. cbn. auto. }
    cbn [app saved_commands notifications read_commands sleeps].
    rewrite saved_commands_app, notifications_app, read_commands_app, sleeps_app.
    rewrite Hs, Hn, Hr, Hz. repeat split.
Qed.

End CaptureClaims.

Section CaptureWitness.

Lemma capture_crash_ends_the_cycle_witness :
  let w0 := emit (EvReadCommand free_cmd (Some free_sample)) unwritable_world in
  let file := ReportFile "mem_report_ps_" (seconds 2001) (Some 30) in
  let w' := emit (EvSaveCrash ps_mem_cmd file) (emit (EvNow (seconds 2001)) w0) in
  doPeriodicCheck eager_args initial_AppState "" unwritable_world
    = (Threw fputs_null_stream, w') /\
  main_loop 1 eager_args initial_AppState "" unwritable_world
    = (Threw fputs_null_stream, w') /\
  saved_commands (new_events unwritable_world w') = [] /\
  notifications (new_events unwritable_world w') = [] /\
  read_commands (new_events unwritable_world w') = [free_cmd] /\
  sleeps (new_events unwritable_world w') = [].
Proof.
  cbv zeta.
  refine (proj2 (proj2 (proj2 (capture_crash_ends_the_cycle eager_args initial_AppState)))
            "" unwritable_world (used_percentage 30 70) free_sample
            (emit (EvReadCommand free_cmd (Some free_sample)) unwritable_world)
            _ _ 0%nat _ _ _ _).
  - vm_compute. reflexivity.
  - vm_compute. reflexivity.
  - reflexivity.
  - reflexivity.
Defined.

End CaptureWitness.

Section RunClaims.

(** X10. The schedule of the loop.  A run of [n] completed cycles reads the
    output of [free -L] and of [sar], in this order, once per cycle and
    nothing else, and sleeps once after each cycle for the configured
    interval (converted to [unsigned int]).  A run that ends the process (an
    exception in a sampler, a crash in a capture) completed [k < n] cycles in
    this way and then stopped in the memory or in the CPU half of the next
    one: nothing is read and no sleep is taken after that. *)
Theorem main_loop_schedule (args : Args) (n : nat) (appState : AppState)
    (readBuffer : string) (w : World) :
  let run := main_loop n args appState readBuffer w in
  let evs := new_events w (snd run) in
  let cycle := [free_cmd; sar_cmd] in
  let pause := Int.to_uint (timeBetweenChecksSec args) in
  match fst run with
  | Returned _ =>
      read_commands evs = List.concat (repeat cycle n) /\ sleeps evs = repeat pause n
  | Threw _ =>
      exists k : nat,
        (k < n)%nat /\ sleeps evs = repeat pause k /\
        (read_commands evs = (List.concat (repeat cycle k) ++ [free_cmd])%list \/
         read_commands evs = List.concat (repeat cycle (S k)))
  end.
Proof.
  cbv zeta. destruct (main_loop_trace args n appState readBuffer w) as (evs & Hx & Hl).
  rewrite (new_events_extends _ _ _ Hx). apply loop_schedule in Hl. cbv zeta in Hl.
  destruct (fst (main_loop n args appState readBuffer w)) as [[s b]|e]; exact Hl.
Qed.

(** X11. Without [-r] on the command line no script is configured, and the
    program never runs one: whatever the samplers report and however long
    the loop runs, no notification command is executed and the alert state
    stays what it was at start. *)
Theorem main_without_script (argv : list string) (n : nat) (w : World)
    (args : Args) (run : outcome (AppState * string) * World) :
  (forall arg, In arg (List.tl argv) -> CLib.c_str arg <> "-r") ->
  main argv n w = (ArgsParsed args, Some run) ->
  runCustomScript args = "" /\
  notifications (new_events w (snd run)) = [] /\
  forall appState readBuffer,
    fst run = Returned (appState, readBuffer) -> appState = initial_AppState.
Proof.
  intros Hno Hmain. unfold main in Hmain.
  destruct (readArgs argv) as [parsed|code fmt arg] eqn:Eargs; [|discriminate].
  injection Hmain as <- <-.
  assert (Hscript : runCustomScript parsed = "").
  { rewrite readArgs_is_loop in Eargs.
    apply (readArgs_loop_preserves (fun a => runCustomScript a = "") (List.tl argv))
      with (a := default_Args); [|reflexivity | exact Eargs].
    intros a arg following updated Hin Ha Hup.
    rewrite (flag_update_keeps_script _ _ _ _ (Hno arg Hin) Hup). exact Ha. }
  split; [exact Hscript|].
  destruct (main_loop_trace parsed n initial_AppState "" w) as (evs & Hx & Hl).
  rewrite (new_events_extends _ _ _ Hx).
  destruct (loop_without_script _ _ _ _ _ Hscript Hl) as [Hn Hr].
  split; [exact Hn|]. intros appState readBuffer E. rewrite E in Hr. cbn in Hr.
  destruct Hr as [Hr|Hr]; [discriminate | congruence].
Qed.

Lemma main_without_script_witness :
  let w := sample_world (Some free_sample) (Some sar_sample) in
  let args := set_memThresholdPct default_Args (Float.of_int 20) in
  runCustomScript args = "" /\
  notifications (new_events w (snd (main_loop 2 args initial_AppState "" w))) = [] /\
  forall appState readBuffer,
    fst (main_loop 2 args initial_AppState "" w) = Returned (appState, readBuffer) ->
    appState = initial_AppState.
Proof.
  cbv zeta.
  apply (main_without_script ["resource_alert"; "-m"; "20"] 2
           (sample_world (Some free_sample) (Some sar_sample))).
  - cbn. intros arg [<-|[<-|[]]]; discriminate.
  - reflexivity.
Defined.

(** X12. Over a whole run of the loop, with a cooldown that is not negative,
    the notifications of one kind keep their distance: the first run of the
    script for a kind comes later than the cooldown after the timestamp the
    loop started with, and each further one later than the cooldown after
    the one before it.  This holds for memory and for CPU alerts separately,
    each against its own timestamp, and also for a run that ends the
    process. *)
Theorem main_loop_dispatches_spaced (args : Args) (n : nat) (appState : AppState)
    (readBuffer : string) (w : World) (last : Z) :
  0 <= notificationThrottleSec args ->
  let evs := new_events w (snd (main_loop n args appState readBuffer w)) in
  let cooldown := seconds (notificationThrottleSec args) in
  spaced cooldown (lastMemAlertSentTime appState :: dispatch_clock mem_title last evs) /\
  spaced cooldown (lastCpuAlertSentTime appState :: dispatch_clock cpu_title last evs).
Proof.
  intros Hc. cbv zeta.
  destruct (main_loop_trace args n appState readBuffer w) as (evs & Hx & Hl).
  rewrite (new_events_extends _ _ _ Hx).
  exact (loop_dispatches args Hc _ _ _ _ Hl last).
Qed.

Lemma main_loop_dispatches_spaced_witness :
  let w := sample_world (Some free_sample) (Some sar_sample) in
  let args := set_notificationThrottleSec eager_args 1 in
  let evs := new_events w (snd (main_loop 3 args initial_AppState "" w)) in
  spaced (seconds 1) (0 :: dispatch_clock mem_title 0 evs) /\
  spaced (seconds 1) (0 :: dispatch_clock cpu_title 0 evs).
Proof.
  cbv zeta.
  apply (main_loop_dispatches_spaced (set_notificationThrottleSec eager_args 1) 3
           initial_AppState "" (sample_world (Some free_sample) (Some sar_sample)) 0).
  cbn. lia.
Defined.

End RunClaims.

(** ** The copying loop *)

Section CopyingLoop.

Import CLib.

Lemma fgets_chars_split (n : nat) : forall pipe,
  pipe = (fst (fgets_chars n pipe) ++ snd (fgets_chars n pipe))%string.
Proof.
  induction n as [|n IH]; intros pipe; [reflexivity|].
  destruct pipe as [|c rest]; [reflexivity|]. cbn [fgets_chars].
  destruct (Ascii.eqb c newline); [reflexivity|].
  specialize (IH rest). destruct (fgets_chars n rest) as [chunk rest'].
  cbn [fst snd append] in *. congruence.
Qed.

Lemma fgets_chars_progress (n : nat) c rest :
  (String.length (snd (fgets_chars (S n) (String c rest))) <= String.length rest)%nat.
Proof.
  cbn [fgets_chars]. destruct (Ascii.eqb c newline); [cbn; lia|].
  pose proof (fgets_chars_split n rest) as E.
  destruct (fgets_chars n rest) as [chunk rest']. cbn [fst snd] in *.
  apply (f_equal String.length) in E. rewrite length_append in E. lia.
Qed.

Lemma c_str_NUL_free s : NUL_free (c_str s) = true.
Proof.
  unfold NUL_free. induction s as [|c r IH]; [reflexivity|]. cbn [c_str].
  destruct (Ascii.eqb c NUL) eqn:E; [reflexivity|]. cbn [all_chars]. rewrite E, IH. reflexivity.
Qed.

Lemma c_str_of_NUL_free s : NUL_free s = true -> c_str s = s.
Proof.
  unfold NUL_free. induction s as [|c r IH]; [reflexivity|]. cbn [all_chars c_str].
  intros H. apply andb_true_iff in H. destruct H as [Hc Hr].
  apply negb_true_iff in Hc. rewrite Hc, (IH Hr). reflexivity.
Qed.

(** X13. The copying loop of [readCommandOutput] ends, after at most one
    call of [fgets] per character of the output and one more, and it only
    appends: the buffer keeps what it held and gains at most as many
    characters as the command printed, none of them a NUL.  When the output
    holds no NUL the buffer gains exactly the output, however its lines are
    cut into chunks of 127 characters. *)
Theorem readCommandOutput_loop_appends (fuel : nat) :
  forall pipe outResult,
    (String.length pipe < fuel)%nat ->
    exists added,
      readCommandOutput_loop fuel pipe outResult = Some (outResult ++ added) /\
      NUL_free added = true /\
      (String.length added <= String.length pipe)%nat /\
      (NUL_free pipe = true -> added = pipe).
Proof.
  induction fuel as [|fuel IH]; intros pipe outResult Hfuel; [lia|].
  destruct pipe as [|c rest].
  - exists "". cbn. rewrite append_empty_r. auto.
  - cbn [readCommandOutput_loop fgets]. change (128 - 1)%nat with 127%nat.
    pose proof (fgets_chars_split 127 (String c rest)) as Esplit.
    pose proof (fgets_chars_progress 126 c rest) as Hprog.
    destruct (fgets_chars 127 (String c rest)) as [chunk pipe'] eqn:Echunk.
    cbn [fst snd] in Esplit, Hprog.
    destruct (IH pipe' (outResult ++ c_str chunk) ltac:(cbn in Hfuel; lia))
      as (added & Hrun & Hfree & Hlen & Hexact).
    exists (c_str chunk ++ added). rewrite Hrun, append_assoc.
    split; [reflexivity|]. split; [|split].
    + unfold NUL_free in *. rewrite all_chars_append.
      rewrite (c_str_NUL_free chunk : all_chars _ _ = true), Hfree. reflexivity.
    + rewrite length_append. pose proof (c_str_length chunk) as Hc.
      apply (f_equal String.length) in Esplit. rewrite length_append in Esplit. lia.
    + intros Hpipe. pose proof Esplit as Esplit'. rewrite Esplit in Hpipe. unfold NUL_free in Hpipe.
      rewrite all_chars_append in Hpipe. apply andb_true_iff in Hpipe.
      destruct Hpipe as [Hchunk Hrest].
      rewrite (c_str_of_NUL_free chunk Hchunk), (Hexact Hrest). symmetry. exact Esplit.
Qed.

Lemma readCommandOutput_loop_appends_witness :
  exists added,
    readCommandOutput_loop 400 (free_sample ++ sar_sample) "" = Some ("" ++ added) /\
    NUL_free added = true /\
    (String.length added <= String.length (free_sample ++ sar_sample))%nat /\
    (NUL_free (free_sample ++ sar_sample) = true -> added = free_sample ++ sar_sample).
Proof.
  apply (readCommandOutput_loop_appends 400 (free_sample ++ sar_sample) "").
  vm_compute. lia.
Defined.

End CopyingLoop.
